(** * load_sif.js: the Synfig document loader, embedded and verified

    A shallow embedding of [src/load_sif.js] (the complete draft of the
    loader; [src/load-sif.js] is the earlier draft with the same canvas and
    timestamp code).  The parser is stateful JavaScript: it pulls events
    from an XML reader, allocates canvases and value nodes, fills a global
    reference registry, prints warnings and throws.  It is modelled with
    explicit state passing in a small state-and-error monad; objects live
    in a heap and are named by their address, so that reference identity
    of nodes is visible.  Recursion on the document and the loops of the
    reader take fuel; running out of it is an outcome of its own, apart
    from returning and throwing.

    The modules the loader imports ([guid.js], [interpolation.js],
    [types/*.js], [value_nodes/const.js]) and the reader package are not
    among the sources; what the loader needs of them is modelled from the
    spec or taken as a parameter, and said so where it is defined.  The
    definitions come first, the properties after them. *)

From Stdlib Require Import String Ascii List ZArith QArith Bool Lia.
From stdpp Require Import gmap strings list.

Import ListNotations.
Local Open Scope string_scope.
Local Open Scope list_scope.

(** ** JavaScript strings and numbers

    Strings are sequences of code units; the embedding uses [string], one
    character per code unit, which is exact for ASCII documents.  Numbers
    are IEEE doubles in the source; the embedding idealises them as exact
    rationals with NaN and the infinities kept apart (rounding, overflow
    and the sign of zero are not modelled). *)

Module JS.

Inductive Num : Type :=
  | NaN
  | Inf (negative : bool)
  | Fin (q : Q).

(** Truthiness of a number: every number but NaN and zero. *)
Definition truthy (n : Num) : bool :=
  match n with
  | NaN => false
  | Inf _ => true
  | Fin q => negb (Qeq_bool q 0)
  end.

(** Truthiness of a string (an attribute value): every string but the
    empty one. *)
Definition nonempty (s : string) : bool :=
  match s with
  | EmptyString => false
  | String _ _ => true
  end.

(** Truthiness of a possibly absent string: [attrs[k]] is [undefined]
    when absent. *)
Definition truthyStr (o : option string) : bool :=
  match o with
  | Some s => nonempty s
  | None => false
  end.

Definition isDigit (c : ascii) : bool :=
  (48 <=? nat_of_ascii c)%nat && (nat_of_ascii c <=? 57)%nat.

Definition digitVal (c : ascii) : Z := Z.of_nat (nat_of_ascii c) - 48.

Definition isUpper (c : ascii) : bool :=
  (65 <=? nat_of_ascii c)%nat && (nat_of_ascii c <=? 90)%nat.

Definition lowerChar (c : ascii) : ascii :=
  if isUpper c then ascii_of_nat (nat_of_ascii c + 32) else c.

(** [String.prototype.toLowerCase], on ASCII. *)
Fixpoint toLowerCase (s : string) : string :=
  match s with
  | EmptyString => EmptyString
  | String c r => String (lowerChar c) (toLowerCase r)
  end.

(** [s.substr(pos)]: the suffix from index [pos]. *)
Fixpoint substrFrom (pos : nat) (s : string) : string :=
  match pos, s with
  | O, _ => s
  | S p, String _ r => substrFrom p r
  | S _, EmptyString => EmptyString
  end.

(** [s.substr(0, n)]: the prefix of length [n]. *)
Fixpoint substrTo (n : nat) (s : string) : string :=
  match n, s with
  | S p, String c r => String c (substrTo p r)
  | _, _ => EmptyString
  end.

(** [s.charAt(pos)]: a string of one character, empty out of range. *)
Fixpoint charAt (pos : nat) (s : string) : string :=
  match pos, s with
  | _, EmptyString => EmptyString
  | O, String c _ => String c EmptyString
  | S p, String _ r => charAt p r
  end.

(** [s.indexOf(c)] for a one-character needle: [None] stands for -1. *)
Fixpoint indexOf (c : ascii) (s : string) : option nat :=
  match s with
  | EmptyString => None
  | String d r =>
      if Ascii.eqb d c then Some O
      else match indexOf c r with
           | Some i => Some (S i)
           | None => None
           end
  end.

(** [s.split(c)] for a one-character separator.  The result is never
    empty: the empty string splits into one empty field. *)
Fixpoint split (c : ascii) (s : string) : list string :=
  match s with
  | EmptyString => [EmptyString]
  | String d r =>
      if Ascii.eqb d c then EmptyString :: split c r
      else match split c r with
           | p :: ps => String d p :: ps
           | [] => [String d EmptyString]
           end
  end.

(** [s.replace(/c/g, d)] for single characters. *)
Fixpoint replaceAll (c d : ascii) (s : string) : string :=
  match s with
  | EmptyString => EmptyString
  | String e r => String (if Ascii.eqb e c then d else e) (replaceAll c d r)
  end.

(** The longest prefix of decimal digits, and what follows it. *)
Fixpoint takeDigits (s : string) : string * string :=
  match s with
  | String c r =>
      if isDigit c then let (d, t) := takeDigits r in (String c d, t)
      else (EmptyString, s)
  | EmptyString => (EmptyString, EmptyString)
  end.

(** The value of a string of digits in base [radix], most significant
    digit first; [dv] gives the value of one digit. *)
Fixpoint digitsValue (radix : Z) (dv : ascii -> Z) (acc : Z) (s : string) : Z :=
  match s with
  | EmptyString => acc
  | String c r => digitsValue radix dv (acc * radix + dv c) r
  end.

Definition decimalValue (s : string) : Z := digitsValue 10 digitVal 0 s.

(** White space and line terminators, on ASCII: TAB, LF, VT, FF, CR, SP. *)
Definition isSpace (c : ascii) : bool :=
  let n := nat_of_ascii c in
  ((9 <=? n)%nat && (n <=? 13)%nat) || (n =? 32)%nat.

Fixpoint trimStart (s : string) : string :=
  match s with
  | String c r => if isSpace c then trimStart r else s
  | EmptyString => EmptyString
  end.

Fixpoint allSpace (s : string) : bool :=
  match s with
  | EmptyString => true
  | String c r => isSpace c && allSpace r
  end.

(** Removes trailing white space. *)
Fixpoint trimEnd (s : string) : string :=
  match s with
  | EmptyString => EmptyString
  | String c r => if allSpace s then EmptyString else String c (trimEnd r)
  end.

Definition trim (s : string) : string := trimEnd (trimStart s).

(** An optional sign: the sign read ([true] for minus) and the rest. *)
Definition takeSign (s : string) : bool * string :=
  match s with
  | String c r =>
      if Ascii.eqb c "-" then (true, r)
      else if Ascii.eqb c "+" then (false, r)
      else (false, s)
  | EmptyString => (false, s)
  end.

(** An optional character [c] at the head: whether it was there, and
    the rest. *)
Definition takeChar (c : ascii) (s : string) : bool * string :=
  match s with
  | String d r => if Ascii.eqb d c then (true, r) else (false, s)
  | EmptyString => (false, s)
  end.

Fixpoint allDigits (s : string) : bool :=
  match s with
  | EmptyString => true
  | String c r => isDigit c && allDigits r
  end.

(** An optional exponent part [e] or [E], sign, digits: read only when
    at least one digit follows. *)
Definition takeExponent (s : string) : Z * string :=
  match s with
  | String c r =>
      if Ascii.eqb c "e" || Ascii.eqb c "E" then
        let (neg, r1) := takeSign r in
        match takeDigits r1 with
        | (EmptyString, _) => (0%Z, s)
        | (d, r2) => ((if neg then - decimalValue d else decimalValue d)%Z, r2)
        end
      else (0%Z, s)
  | EmptyString => (0%Z, s)
  end.

(** [s.startsWith(p)] *)
Fixpoint prefixb (p s : string) : bool :=
  match p, s with
  | EmptyString, _ => true
  | String a p', String b s' => Ascii.eqb a b && prefixb p' s'
  | String _ _, EmptyString => false
  end.

(** The longest prefix that is an unsigned decimal literal of the
    string-to-number grammar ([Infinity], [12], [12.], [12.5], [.5], each
    of the last four with an optional exponent), with its value and the
    rest of the string; [None] when no prefix is one. *)
Definition scanUnsigned (s : string) : option (Num * string) :=
  if prefixb "Infinity" s then Some (Inf false, substrFrom 8 s)
  else
    let (ip, r1) := takeDigits s in
    let (dot, r1') := takeChar "." r1 in
    let (fd, r2) := if dot then takeDigits r1' else (EmptyString, r1) in
    if negb (nonempty ip) && negb (nonempty fd) then None
    else
      let (e, r3) := takeExponent r2 in
      let mant := decimalValue (ip ++ fd) in
      let sh := (e - Z.of_nat (String.length fd))%Z in
      Some (Fin (inject_Z mant * Qpower (10 # 1) sh), r3).

Definition negNum (n : Num) : Num :=
  match n with
  | NaN => NaN
  | Inf b => Inf (negb b)
  | Fin q => Fin (- q)
  end.

(** A signed decimal literal as a prefix. *)
Definition scanDecimal (s : string) : option (Num * string) :=
  let (neg, r) := takeSign s in
  match scanUnsigned r with
  | Some (v, t) => Some (if neg then negNum v else v, t)
  | None => None
  end.

Definition hexVal (c : ascii) : option Z :=
  let n := nat_of_ascii c in
  if isDigit c then Some (Z.of_nat n - 48)%Z
  else if (97 <=? n)%nat && (n <=? 102)%nat then Some (Z.of_nat n - 87)%Z
  else if (65 <=? n)%nat && (n <=? 70)%nat then Some (Z.of_nat n - 55)%Z
  else None.

Definition radixVal (radix : Z) (c : ascii) : option Z :=
  match hexVal c with
  | Some v => if (v <? radix)%Z then Some v else None
  | None => None
  end.

(** The longest prefix of digits of base [radix]: the number of digits
    read, their value, and the rest. *)
Fixpoint takeRadix (radix : Z) (acc : Z) (s : string) : nat * Z * string :=
  match s with
  | String c r =>
      match radixVal radix c with
      | Some v =>
          let '(n, a, t) := takeRadix radix (acc * radix + v) r in (S n, a, t)
      | None => (O, acc, s)
      end
  | EmptyString => (O, acc, s)
  end.

(** [0x], [0o] and [0b] literals (either case of the letter), which
    must span the whole string. *)
Definition nonDecimal (s : string) : option Z :=
  match s with
  | String z (String c r) =>
      let radix :=
        if negb (Ascii.eqb z "0") then None
        else if Ascii.eqb c "x" || Ascii.eqb c "X" then Some 16%Z
        else if Ascii.eqb c "o" || Ascii.eqb c "O" then Some 8%Z
        else if Ascii.eqb c "b" || Ascii.eqb c "B" then Some 2%Z
        else None in
      match radix with
      | Some b =>
          match takeRadix b 0 r with
          | (S _, v, EmptyString) => Some v
          | _ => None
          end
      | None => None
      end
  | _ => None
  end.

(** Unary plus on a string: the string-to-number conversion. *)
Definition toNumber (s : string) : Num :=
  let t := trim s in
  if negb (nonempty t) then Fin 0
  else
    match nonDecimal t with
    | Some v => Fin (inject_Z v)
    | None =>
        match scanDecimal t with
        | Some (v, EmptyString) => v
        | _ => NaN
        end
    end.

(** [parseFloat]: the longest decimal-literal prefix after leading white
    space, NaN when there is none. *)
Definition parseFloat (s : string) : Num :=
  match scanDecimal (trimStart s) with
  | Some (v, _) => v
  | None => NaN
  end.

(** [parseInt] with no radix argument: sign, optional [0x] prefix, the
    longest prefix of digits; NaN when no digit is read. *)
Definition parseInt (s : string) : Num :=
  let (neg, r) := takeSign (trimStart s) in
  let (radix, r1) :=
    match r with
    | String z (String c t) =>
        if Ascii.eqb z "0" && (Ascii.eqb c "x" || Ascii.eqb c "X")
        then (16%Z, t) else (10%Z, r)
    | _ => (10%Z, r)
    end in
  match takeRadix radix 0 r1 with
  | (O, _, _) => NaN
  | (S _, v, _) => Fin (inject_Z (if neg then - v else v))
  end.

(** [x || 0] on a number: NaN and zero give zero.  The loader applies it
    to unary plus on pieces of a stamp in lower case, which is never
    infinite ([toNumber_lowercase_finite] below). *)
Definition orZero (n : Num) : Q :=
  match n with
  | Fin q => q
  | _ => 0
  end.

(** [n < 1], false on NaN. *)
Definition ltOne (n : Num) : bool :=
  match n with
  | NaN => false
  | Inf b => b
  | Fin q => negb (Qle_bool 1 q)
  end.

End JS.

(** ** Diagnostics

    The loader reports leniency conditions with [console.warn] and fatal
    conditions with [throw].  Each call site is one constructor; the
    payload is what the source interpolates into the message. *)

Inductive Warning : Type :=
  | WBones                                (* Bones are unsupported ... *)
  | WInlineKeyframes                      (* Inline canvases can't have keyframes. *)
  | WInlineMeta                           (* Inline canvases can't have metadata. *)
  | WNoUnitFrames (stamp : string)        (* no unit provided; assuming frames *)
  | WNoUnitSeconds (stamp : string)       (* no unit provided, no FPS given; assuming seconds *)
  | WFramesNoFps (stamp : string)         (* individual frames referenced, but FPS is unknown *)
  | WBadTimeFormat (stamp : string)       (* bad time format *)
  | WUnexpectedUnit (stamp code : string). (* unexpected unit code; assuming seconds *)

(** ** The timestamp parser: [parseTime] *)

(** [/-?\d*\.?\d*/.exec(s)]: every part of the pattern is optional, so the
    match is found at index 0 and is never null; each greedy part takes
    all it can, and nothing after it can fail.  The result is [match[0]]. *)
Definition timeRegexExec (s : string) : option string :=
  let (minus, s1) := JS.takeChar "-" s in
  let (d1, s2) := JS.takeDigits s1 in
  let (dot, s3) := JS.takeChar "." s2 in
  let (d2, _) := JS.takeDigits s3 in
  Some ((if minus then "-" else EmptyString)
        ++ d1 ++ (if dot then "." else EmptyString) ++ d2)%string.

(** [+s || 0] *)
Definition numOrZero (s : string) : Q := JS.orZero (JS.toNumber s).

(** [+parts[i] || 0]: an index out of range reads [undefined], whose
    number is NaN. *)
Definition partOrZero (parts : list string) (i : nat) : Q :=
  match parts !! i with
  | Some s => numOrZero s
  | None => 0%Q
  end.

(** [amount / fps] where [fps] is truthy. *)
Definition divFps (amount : Q) (fps : JS.Num) : Q :=
  match fps with
  | JS.Fin f => (amount / f)%Q
  | _ => 0%Q
  end.

(** The colon notation, entered at the first [:] met as a unit code with
    at least three fields in the whole stamp.  The earlier [value] is
    overwritten. *)
Definition parseTime_colon (stamp : string) (fps : JS.Num) (parts : list string)
    (ws : list Warning) : Q * list Warning :=
  let p2 := match parts !! 2%nat with Some s => s | None => EmptyString end in
  let parts :=
    match JS.indexOf "." p2 with
    | Some dot =>
        <[2%nat := JS.substrTo dot p2]> (parts ++ [JS.substrFrom (S dot) p2])
    | None => parts
    end in
  let value :=
    (partOrZero parts 0 * 3600 + partOrZero parts 1 * 60 + partOrZero parts 2)%Q in
  if (4 <=? length parts)%nat then
    if JS.truthy fps then ((value + divFps (partOrZero parts 3) fps)%Q, ws)
    else (value, ws ++ [WFramesNoFps stamp])
  else (value, ws).

(** The [for] loop of [parseTime].  [fuel] bounds the number of
    iterations; [None] is a loop that has not finished within it. *)
Fixpoint parseTime_loop (fuel : nat) (stamp : string) (fps : JS.Num)
    (pos : nat) (value : Q) (ws : list Warning) : option (Q * list Warning) :=
  match fuel with
  | O => None
  | S fuel' =>
      if (String.length stamp <=? pos)%nat then Some (value, ws)
      else
        let m := timeRegexExec (JS.substrFrom pos stamp) in
        let amount := match m with Some m0 => numOrZero m0 | None => 0%Q end in
        let pos := match m with Some m0 => (pos + String.length m0)%nat | None => pos end in
        if (String.length stamp <=? pos)%nat
           || match m with Some _ => false | None => true end then
          if negb (Qeq_bool amount 0%Q) then
            if JS.truthy fps then
              Some ((value + divFps amount fps)%Q, ws ++ [WNoUnitFrames stamp])
            else
              Some ((value + amount)%Q, ws ++ [WNoUnitSeconds stamp])
          else Some (value, ws)
        else
          let code := JS.charAt pos stamp in
          if String.eqb code "h" then
            parseTime_loop fuel' stamp fps (S pos) (value + amount * 3600)%Q ws
          else if String.eqb code "m" then
            parseTime_loop fuel' stamp fps (S pos) (value + amount * 60)%Q ws
          else if String.eqb code "s" then
            parseTime_loop fuel' stamp fps (S pos) (value + amount)%Q ws
          else if String.eqb code "f" then
            if JS.truthy fps then
              parseTime_loop fuel' stamp fps (S pos) (value + divFps amount fps)%Q ws
            else
              parseTime_loop fuel' stamp fps (S pos) value (ws ++ [WFramesNoFps stamp])
          else if String.eqb code ":" then
            let parts := JS.split ":" stamp in
            if (3 <=? length parts)%nat then
              Some (parseTime_colon stamp fps parts ws)
            else
              parseTime_loop fuel' stamp fps (S pos) value (ws ++ [WBadTimeFormat stamp])
          else
            parseTime_loop fuel' stamp fps (S pos) (value + amount)%Q
              (ws ++ [WUnexpectedUnit stamp code])
  end.

(** [fps = fps || 0]: an absent, NaN or zero frame rate is zero. *)
Definition fpsOrZero (fps : option JS.Num) : JS.Num :=
  match fps with
  | Some n => if JS.truthy n then n else JS.Fin 0
  | None => JS.Fin 0
  end.

(** [parseTime(stamp, fps)].  No statement of the body can throw on a
    string; the result is the number returned and the warnings printed,
    in order.  The loop advances [pos] by at least one per iteration, so
    one more iteration than the stamp has characters is enough fuel. *)
Definition parseTime (stamp : string) (fps : option JS.Num) : option (Q * list Warning) :=
  let fps := fpsOrZero fps in
  let stamp := JS.toLowerCase stamp in
  if String.eqb stamp "sot" || String.eqb stamp "bot" then
    Some ((- (32767 * 512))%Q, [])
  else if String.eqb stamp "eot" then
    Some ((32767 * 512)%Q, [])
  else
    parseTime_loop (S (String.length stamp)) stamp fps 0 0%Q [].

(** ** The data model *)

(** Objects with identity (canvases, value nodes) are named by their
    address in the heap. *)
Definition Ref : Type := nat.

(** The constants of the [Interpolation] module. *)
Inductive Interpolation : Type :=
  | HALT | CONSTANT | LINEAR | MANUAL | TCB | CLAMPED | UNDEFINED.

(** Modelled from the spec: [types/vector.js] and [types/color.js] are
    not part of the sources at hand.  [create] takes the components in
    order; a component that was not passed is [None] (whatever [create]
    defaults it to). *)
Record Vector : Type := { vx : option JS.Num; vy : option JS.Num }.

Record Color : Type :=
  { cr : option JS.Num; cg : option JS.Num; cb : option JS.Num; ca : option JS.Num }.

Definition Vector_create (x y : option JS.Num) : Vector := {| vx := x; vy := y |}.

Definition Color_create (r g b a : option JS.Num) : Color :=
  {| cr := r; cg := g; cb := b; ca := a |}.

(** Modelled from the spec: [types/value_base.js], [types/segment.js],
    [types/gradient.js] and [types/transformation.js] are not part of the
    sources at hand.  A value is its type tag, its data and the two
    modifiers; [ValueBase.create(type)] leaves the data and the modifiers
    unset, written [DUndefined] and [None].  A segment has four named
    control points, a gradient its stops in the order they were added, a
    transformation its four components; a field that was never assigned
    is [None]. *)
#[local] Unset Elimination Schemes.

Inductive Data : Type :=
  | DUndefined
  | DNumber (n : JS.Num)
  | DTime (t : Q)
  | DString (s : string)
  | DVector (v : Vector)
  | DColor (c : Color)
  | DSegment (p1 t1 p2 t2 : option Data)
  | DGradient (stops : list (JS.Num * Data))
  | DBool (b : bool)
  | DAngle (degrees : JS.Num)          (* degrees * Math.PI / 180 *)
  | DTransformation (offset angle skew scale : option Data)
  | DList (items : list Value)
  | DCanvas (c : Ref)
with Value : Type :=
  | mkValue (type : string) (data : Data)
            (static : option bool) (interpolation : option Interpolation).

#[local] Set Elimination Schemes.

Definition vtype (v : Value) : string := let 'mkValue t _ _ _ := v in t.
Definition vdata (v : Value) : Data := let 'mkValue _ d _ _ := v in d.

Definition ValueBase_create (type : string) (data : Data) : Value :=
  mkValue type data None None.

(** Modelled from the spec: [types/keyframe.js] is not part of the
    sources at hand.  A keyframe is (time, active flag, description). *)
Record Keyframe : Type :=
  { kfTime : Q; kfActive : bool; kfDesc : string }.

Definition Keyframe_create (time : Q) (active : bool) (desc : string) : Keyframe :=
  {| kfTime := time; kfActive := active; kfDesc := desc |}.

(** Modelled from the spec: [value_nodes/const.js] is not part of the
    sources at hand.  A constant node wraps one value; the other node
    kinds are made by parsers outside this file and are opaque here. *)
Inductive ValueNode : Type :=
  | VNConst (value : Value)
  | VNOpaque (kind : string).

(** What the loader stores in the scalar properties of a canvas. *)
Inductive PropVal : Type :=
  | PStr (s : string)
  | PNum (n : JS.Num)
  | PTime (t : Q)
  | PVector (v : Vector)
  | PColor (c : Color).

(** Modelled from the spec: [types/canvas.js] is not part of the sources
    at hand.  The fields the loader reads back or that are collections
    are record fields; the properties it only assigns ([id], [version],
    [width], [height], [xres], [yres], [timeStart], [timeEnd],
    [antialias], [tl], [br], [bgcolor], [focus], [name], [desc],
    [author]) are kept by name in [props], as the source assigns
    [canvas[tag.name]] by name. *)
Record Canvas : Type :=
  { guid : option string;
    parent : option Ref;
    fps : option JS.Num;
    props : gmap string PropVal;
    keyframes : list Keyframe;
    valueNodes : gmap string Ref;
    metadata : gmap string string;
    layers : list Ref }.

Definition Canvas_empty : Canvas :=
  {| guid := None; parent := None; fps := None; props := ∅;
     keyframes := []; valueNodes := ∅; metadata := ∅; layers := [] |}.

Definition setGuid (g : option string) (c : Canvas) : Canvas :=
  {| guid := g; parent := parent c; fps := fps c; props := props c;
     keyframes := keyframes c; valueNodes := valueNodes c;
     metadata := metadata c; layers := layers c |}.

Definition setParent (p : option Ref) (c : Canvas) : Canvas :=
  {| guid := guid c; parent := p; fps := fps c; props := props c;
     keyframes := keyframes c; valueNodes := valueNodes c;
     metadata := metadata c; layers := layers c |}.

Definition setFps (f : option JS.Num) (c : Canvas) : Canvas :=
  {| guid := guid c; parent := parent c; fps := f; props := props c;
     keyframes := keyframes c; valueNodes := valueNodes c;
     metadata := metadata c; layers := layers c |}.

Definition setProp (k : string) (v : PropVal) (c : Canvas) : Canvas :=
  {| guid := guid c; parent := parent c; fps := fps c;
     props := <[k := v]> (props c);
     keyframes := keyframes c; valueNodes := valueNodes c;
     metadata := metadata c; layers := layers c |}.

Definition pushKeyframe (k : Keyframe) (c : Canvas) : Canvas :=
  {| guid := guid c; parent := parent c; fps := fps c; props := props c;
     keyframes := keyframes c ++ [k]; valueNodes := valueNodes c;
     metadata := metadata c; layers := layers c |}.

Definition putValueNode (id : string) (n : Ref) (c : Canvas) : Canvas :=
  {| guid := guid c; parent := parent c; fps := fps c; props := props c;
     keyframes := keyframes c; valueNodes := <[id := n]> (valueNodes c);
     metadata := metadata c; layers := layers c |}.

Definition putMeta (k v : string) (c : Canvas) : Canvas :=
  {| guid := guid c; parent := parent c; fps := fps c; props := props c;
     keyframes := keyframes c; valueNodes := valueNodes c;
     metadata := <[k := v]> (metadata c); layers := layers c |}.

Definition pushLayer (l : Ref) (c : Canvas) : Canvas :=
  {| guid := guid c; parent := parent c; fps := fps c; props := props c;
     keyframes := keyframes c; valueNodes := valueNodes c;
     metadata := metadata c; layers := layers c ++ [l] |}.

Inductive Obj : Type :=
  | OCanvas (c : Canvas)
  | ONode (n : ValueNode).

(** ** The document as the reader delivers it *)

Record Tag : Type := { tagName : string; attributes : gmap string string }.

(** The events of the pull reader: an opening tag with its attributes, a
    closing tag, a run of text (trimmed and normalised, and raw). *)
Inductive Node : Type :=
  | OpenTag (tag : Tag)
  | CloseTag (name : string)
  | TextNode (text rawText : string).

(** ** Errors *)

Inductive Error : Type :=
  | MissingAttribute (tag attr : string)   (* <tag> is missing attribute attr! *)
  | CanvasTooSmall                         (* width or height less than one *)
  | BadArity (attr : string) (expected given : nat) (* attr has n parameters; m given *)
  | InlineDefs                             (* Inline canvases can't have defs! *)
  | UnexpectedElement (parent child : string) (* Unexpected element in <parent>: <child> *)
  | ExpectedValueNode (name : string)      (* Expected value node; got <name>! *)
  | ExpectedVectorInSegment                (* Expected <vector> in <segment>! *)
  | GradientMissingPos                     (* <gradient>'s <color> is missing attribute pos! *)
  | BadBool (value : string)               (* Bad value in <bool>! *)
  | TransformationType (name expected got : string)
  | ExpectedListValue (name : string)      (* Expected list item to be a value *)
  | InvalidStatic (value : string)         (* Invalid value for static *)
  | InvalidInterpolation (value : string)  (* Invalid value for interpolation *)
  | LayerNotImplemented                    (* layer not implemented *)
  | ReferenceError (identifier : string)   (* identifier is not defined *)
  | TypeError (property : string)          (* property read of undefined *)
  | ReaderError (expected : string)        (* an assertion of the reader failed *)
  | GuidNotFound (guid : string).          (* Guid.get on an absent id *)

(** ** Parser state and the parser monad *)

Record State : Type :=
  { input : list Node;              (* the reader: events not yet consumed *)
    heap : list Obj;                (* every object allocated so far *)
    registry : gmap string Ref;     (* the table of the Guid module *)
    generated : nat;                (* how many ids Guid.generate has made *)
    warnings : list Warning }.      (* console.warn, oldest first *)

Definition withInput (i : list Node) (s : State) : State :=
  {| input := i; heap := heap s; registry := registry s;
     generated := generated s; warnings := warnings s |}.

Definition withHeap (h : list Obj) (s : State) : State :=
  {| input := input s; heap := h; registry := registry s;
     generated := generated s; warnings := warnings s |}.

Definition withRegistry (r : gmap string Ref) (s : State) : State :=
  {| input := input s; heap := heap s; registry := r;
     generated := generated s; warnings := warnings s |}.

Definition withGenerated (n : nat) (s : State) : State :=
  {| input := input s; heap := heap s; registry := registry s;
     generated := n; warnings := warnings s |}.

Definition withWarnings (w : list Warning) (s : State) : State :=
  {| input := input s; heap := heap s; registry := registry s;
     generated := generated s; warnings := w |}.

(** A computation returns a result and a new state, throws, or has not
    finished within its fuel. *)
Inductive Outcome (A : Type) : Type :=
  | Ret (a : A) (s : State)
  | Throw (e : Error)
  | OutOfFuel.

Arguments Ret {A} a s.
Arguments Throw {A} e.
Arguments OutOfFuel {A}.

Definition M (A : Type) : Type := State -> Outcome A.

Definition ret {A} (a : A) : M A := fun s => Ret a s.

Definition bind {A B} (m : M A) (k : A -> M B) : M B :=
  fun s =>
    match m s with
    | Ret a s' => k a s'
    | Throw e => Throw e
    | OutOfFuel => OutOfFuel
    end.

Definition throw {A} (e : Error) : M A := fun _ => Throw e.

Definition diverge {A} : M A := fun _ => OutOfFuel.

Declare Scope parser_scope.
Delimit Scope parser_scope with parser.
Notation "'let*' x ':=' c 'in' k" := (bind c (fun x => k))
  (at level 10, x name, c at level 100, k at level 200) : parser_scope.
Notation "c ';;;' k" := (bind c (fun _ => k))
  (at level 100, k at level 200, right associativity) : parser_scope.
Local Open Scope parser_scope.

Definition get : M State := fun s => Ret s s.

Definition modify (f : State -> State) : M unit := fun s => Ret tt (f s).

Definition warn (w : Warning) : M unit :=
  modify (fun s => withWarnings (warnings s ++ [w]) s).

(** Warnings printed by a pure helper, in order. *)
Definition warnAll (ws : list Warning) : M unit :=
  modify (fun s => withWarnings (warnings s ++ ws) s).

(** [parseTime] as a step of the parser: its warnings go to the console. *)
Definition parseTimeM (stamp : string) (fps : option JS.Num) : M Q :=
  match parseTime stamp fps with
  | Some (v, ws) => warnAll ws ;;; ret v
  | None => diverge
  end.

(** ** The tag reader

    Modelled from the spec: the pull reader ([xml-pulley]) is an external
    package.  It looks at the current event without consuming it
    ([check], [checkName]), consumes it after the same assertion
    ([expect], [expectName]), reads text, skips a subtree, and runs a
    callback on the children of an element up to its closing tag.  A
    failed assertion, and the end of the input where an event is needed,
    throw. *)

Record TextData : Type := { text : string; rawText : string }.

Definition next : M unit :=
  modify (fun s => withInput (tail (input s)) s).

(** [pulley.check('opentag')] *)
Definition checkOpen : M Tag :=
  fun s =>
    match input s with
    | OpenTag t :: _ => Ret t s
    | _ => Throw (ReaderError "opentag")
    end.

(** [pulley.expect('opentag')] *)
Definition expectOpen : M Tag :=
  let* t := checkOpen in next ;;; ret t.

(** [pulley.checkName(name)] *)
Definition checkName (name : string) : M Tag :=
  let* t := checkOpen in
  if String.eqb (tagName t) name then ret t else throw (ReaderError name).

(** [pulley.expectName(name)] and [pulley.expectName(name, 'opentag')] *)
Definition expectName (name : string) : M Tag :=
  let* t := checkName name in next ;;; ret t.

(** [pulley.expectName(name, 'closetag')] *)
Definition expectClose (name : string) : M unit :=
  fun s =>
    match input s with
    | CloseTag n :: r =>
        if String.eqb n name then Ret tt (withInput r s)
        else Throw (ReaderError name)
    | _ => Throw (ReaderError "closetag")
    end.

(** [pulley.nextText()]: the text at the current position, consumed; the
    empty text when the current event is not text. *)
Definition nextText : M TextData :=
  fun s =>
    match input s with
    | TextNode t r :: rest => Ret {| text := t; rawText := r |} (withInput rest s)
    | _ => Ret {| text := EmptyString; rawText := EmptyString |} s
    end.

(** What follows the closing tag that matches an element already
    entered, [depth] more elements being open inside it. *)
Fixpoint afterClose (depth : nat) (l : list Node) : option (list Node) :=
  match l with
  | [] => None
  | OpenTag _ :: r => afterClose (S depth) r
  | TextNode _ _ :: r => afterClose depth r
  | CloseTag _ :: r =>
      match depth with
      | O => Some r
      | S d => afterClose d r
      end
  end.

(** [pulley.skipTag()]: consumes the element at the current position with
    all it contains. *)
Definition skipTag : M unit :=
  fun s =>
    match input s with
    | OpenTag _ :: r =>
        match afterClose 0 r with
        | Some r' => Ret tt (withInput r' s)
        | None => Throw (ReaderError "closetag")
        end
    | _ => Throw (ReaderError "opentag")
    end.

(** The iteration of [pulley.loopTag]: the callback runs as long as the
    current event is not a closing tag.  The callbacks of the loader
    assign to variables of the enclosing function; these are threaded
    through as the accumulator [acc]. *)
Fixpoint loopChildren {A : Type} (fuel : nat) (callback : A -> M A) (acc : A) : M A :=
  match fuel with
  | O => diverge
  | S fuel' =>
      fun s =>
        match input s with
        | [] => Throw (ReaderError "closetag")
        | CloseTag _ :: _ => Ret acc s
        | _ => bind (callback acc) (loopChildren fuel' callback) s
        end
  end.

(** [pulley.loopTag(callback, name)]; [name] is [None] when the source
    passes no name. *)
Definition loopTag {A : Type} (fuel : nat) (callback : A -> M A)
    (name : option string) (acc : A) : M A :=
  let* tag := match name with
              | Some n => expectName n
              | None => expectOpen
              end in
  let* acc := loopChildren fuel callback acc in
  expectClose (tagName tag) ;;; ret acc.

(** ** Objects in the heap *)

Definition alloc (o : Obj) : M Ref :=
  fun s => Ret (length (heap s)) (withHeap (heap s ++ [o]) s).

Definition canvasAt (h : list Obj) (c : Ref) : option Canvas :=
  match h !! c with
  | Some (OCanvas cv) => Some cv
  | _ => None
  end.

(** An assignment to a property of the canvas object [c]. *)
Definition updCanvas (c : Ref) (f : Canvas -> Canvas) : M unit :=
  modify (fun s =>
    withHeap (alter (fun o => match o with
                              | OCanvas cv => OCanvas (f cv)
                              | ONode _ => o
                              end) c (heap s)) s).

(** [canvas.fps]; [canvas] is [None] for the empty object that
    [parseKeyframe] puts in the place of an absent canvas. *)
Definition canvasFps (canvas : option Ref) : M (option JS.Num) :=
  fun s =>
    Ret (match canvas with
         | Some c => match canvasAt (heap s) c with
                     | Some cv => fps cv
                     | None => None
                     end
         | None => None
         end) s.

(** Modelled from the spec: [Canvas.create], [Canvas.getRoot],
    [Canvas.addKeyframe], [Canvas.addValueNode] and [Canvas.addLayer] of
    the absent [types/canvas.js].  A new canvas has nothing set; the root
    of a canvas is found along the parent links; keyframes and layers are
    ordered sequences, definitions a map from string id to node. *)
Definition Canvas_create : M Ref := alloc (OCanvas Canvas_empty).

Fixpoint getRootFrom (fuel : nat) (h : list Obj) (c : Ref) : Ref :=
  match fuel with
  | O => c
  | S fuel' =>
      match canvasAt h c with
      | Some cv =>
          match parent cv with
          | Some p => getRootFrom fuel' h p
          | None => c
          end
      | None => c
      end
  end.

Definition Canvas_getRoot (h : list Obj) (c : Ref) : Ref :=
  getRootFrom (length h) h c.

(** [Canvas.getRoot(canvas).guid] *)
Definition rootGuidOf (h : list Obj) (canvas : Ref) : option string :=
  match canvasAt h (Canvas_getRoot h canvas) with
  | Some cv => guid cv
  | None => None
  end.

Definition rootGuid (canvas : Ref) : M (option string) :=
  fun s => Ret (rootGuidOf (heap s) canvas) s.

Definition Canvas_addKeyframe (canvas : Ref) (k : Keyframe) : M unit :=
  updCanvas canvas (pushKeyframe k).

Definition Canvas_addValueNode (canvas : Ref) (node : Ref) (id : string) : M unit :=
  updCanvas canvas (putValueNode id node).

Definition Canvas_addLayer (canvas : Ref) (layer : Ref) : M unit :=
  updCanvas canvas (pushLayer layer).

Definition VNConst_create (value : Value) : M Ref := alloc (ONode (VNConst value)).

(** ** The reference registry

    Modelled from the spec: [guid.js] is not part of the sources at hand.
    [exists], [get] (which fails on an absent id) and [set] (which
    overwrites) act on one table. *)
Definition Guid_exists (g : string) : M bool :=
  fun s => Ret (match registry s !! g with Some _ => true | None => false end) s.

Definition Guid_get (g : string) : M Ref :=
  fun s =>
    match registry s !! g with
    | Some r => Ret r s
    | None => Throw (GuidNotFound g)
    end.

Definition Guid_set (g : string) (r : Ref) : M unit :=
  modify (fun s => withRegistry (<[g := r]> (registry s)) s).

(** ** Small helpers of the loader *)

(** [checkAttribute(tag, name)] *)
Definition checkAttribute (tag : Tag) (name : string) : M unit :=
  match attributes tag !! name with
  | None => throw (MissingAttribute (tagName tag) name)
  | Some _ => ret tt
  end.

(** [if(attrs[k]) { ... }]: the body runs on a present, non-empty
    attribute. *)
Definition whenAttr (attrs : gmap string string) (k : string)
    (body : string -> M unit) : M unit :=
  match attrs !! k with
  | Some v => if JS.nonempty v then body v else ret tt
  | None => ret tt
  end.

(** [a !== s] for a possibly absent [a]. *)
Definition strictNeq (a : option string) (s : string) : bool :=
  match a with
  | Some v => negb (String.eqb v s)
  | None => true
  end.

(** [parseValueAttribute(pulley)] *)
Definition parseValueAttribute : M string :=
  let* tag := expectOpen in
  let value := attributes tag !! "value" in
  expectClose (tagName tag) ;;;
  match value with
  | Some v => if JS.nonempty v then ret v
              else throw (MissingAttribute (tagName tag) "value")
  | None => throw (MissingAttribute (tagName tag) "value")
  end.

(** [readStatic(tag)] *)
Definition readStatic (tag : Tag) : M bool :=
  match attributes tag !! "static" with
  | None => ret false
  | Some v =>
      if String.eqb v "0" || String.eqb v "false" then ret false
      else if String.eqb v "1" || String.eqb v "true" then ret true
      else throw (InvalidStatic v)
  end.

(** [readInterpolation(tag)] *)
Definition readInterpolation (tag : Tag) : M Interpolation :=
  match attributes tag !! "interpolation" with
  | None => ret UNDEFINED
  | Some v =>
      if String.eqb v "halt" then ret HALT
      else if String.eqb v "constant" then ret CONSTANT
      else if String.eqb v "linear" then ret LINEAR
      else if String.eqb v "manual" then ret MANUAL
      else if String.eqb v "auto" then ret TCB
      else if String.eqb v "clamped" then ret CLAMPED
      else throw (InvalidInterpolation v)
  end.

(** [parseKeyframe(pulley, canvas)] *)
Definition parseKeyframe (canvas : option Ref) : M Keyframe :=
  let* tag := expectName "keyframe" in
  let attrs := attributes tag in
  checkAttribute tag "time" ;;;
  let active := attrs !! "active" in
  match attrs !! "time" with
  | None => throw (TypeError "toLowerCase")
  | Some time =>
      let* fps := canvasFps canvas in
      let* t := parseTimeM time fps in
      let* txt := nextText in
      let out := Keyframe_create t
                   (strictNeq active "false" && strictNeq active "0")
                   (text txt) in
      expectClose "keyframe" ;;;
      ret out
  end.

(** The metadata keys whose content uses a comma as decimal separator. *)
Definition commaKeys : list string :=
  [ "background_first_color"; "background_second_color"; "background_size";
    "grid_color"; "grid_size"; "jack_offset" ].

(** [parseMetaInto(pulley, canvas)] *)
Definition parseMetaInto (canvas : Ref) : M unit :=
  let* tag := expectName "meta" in
  let attrs := attributes tag in
  checkAttribute tag "name" ;;;
  checkAttribute tag "content" ;;;
  match attrs !! "name", attrs !! "content" with
  | Some name, Some content =>
      let content :=
        if existsb (String.eqb name) commaKeys
        then JS.replaceAll "," "." content else content in
      updCanvas canvas (putMeta name content) ;;;
      expectClose "meta"
  | _, _ => throw (TypeError "replace")
  end.

(** [parseLayer(pulley, canvas)] *)
Definition parseLayer (canvas : Ref) : M Ref := throw LayerNotImplemented.

(** ** The value parser: [parseValue] *)

(** How the [switch] of [parseValue] is left: by [break], with [out.data]
    as the case has set it, or by [return]. *)
Inductive Completion : Type :=
  | Break (data : Data)
  | Return (result : option Value).

(** [value.data] where [value] may be [undefined]. *)
Definition dataOf (value : option Value) : M Data :=
  match value with
  | Some v => ret (vdata v)
  | None => throw (TypeError "data")
  end.

(** The identifier [col] is declared in the block of the [color] case
    only.  The callback of the [segment] case names it outside that
    block, where nothing binds it: evaluating the assignment target
    throws. *)
Definition col_unbound : M unit := throw (ReferenceError "col").

Definition Transformation : Type :=
  option Data * option Data * option Data * option Data.

Section ParseValueSwitch.

(** The recursive call [parseValue(pulley, canvas)], and the fuel of the
    child loops. *)
Variable parseValue : Ref -> M (option Value).
Variable fuel : nat.
Variable canvas : Ref.

Definition vectorChild (vec : Vector) : M Vector :=
  let* tag := expectOpen in
  let name := tagName tag in
  let* t := nextText in
  let value := JS.parseFloat (text t) in
  let* vec :=
    if String.eqb name "x" then ret {| vx := Some value; vy := vy vec |}
    else if String.eqb name "y" then ret {| vx := vx vec; vy := Some value |}
    else throw (UnexpectedElement "vector" name) in
  expectClose name ;;; ret vec.

Definition colorChild (col : Color) : M Color :=
  let* tag := expectOpen in
  let name := tagName tag in
  let* t := nextText in
  let value := JS.parseFloat (text t) in
  let* col :=
    if String.eqb name "r" then
      ret {| cr := Some value; cg := cg col; cb := cb col; ca := ca col |}
    else if String.eqb name "g" then
      ret {| cr := cr col; cg := Some value; cb := cb col; ca := ca col |}
    else if String.eqb name "b" then
      ret {| cr := cr col; cg := cg col; cb := Some value; ca := ca col |}
    else if String.eqb name "a" then
      ret {| cr := cr col; cg := cg col; cb := cb col; ca := Some value |}
    else throw (UnexpectedElement "color" name) in
  expectClose name ;;; ret col.

(** The callback of the [segment] case.  [seg] is the segment under
    construction; no branch assigns to it. *)
Definition segmentChild (seg : Data) : M Data :=
  let* tag := expectOpen in
  let name := tagName tag in
  let* value := parseValue canvas in
  match value with
  | None => throw ExpectedVectorInSegment
  | Some v =>
      if negb (String.eqb (vtype v) "vector") then throw ExpectedVectorInSegment
      else
        (if String.eqb name "p1" then col_unbound
         else if String.eqb name "t1" then col_unbound
         else if String.eqb name "p2" then col_unbound
         else if String.eqb name "t2" then col_unbound
         else throw (UnexpectedElement "segment" name)) ;;;
        expectClose name ;;; ret seg
  end.

Definition gradientChild (grad : list (JS.Num * Data)) : M (list (JS.Num * Data)) :=
  let* tag := checkName "color" in
  let attrs := attributes tag in
  let* value := parseValue canvas in
  match attrs !! "pos" with
  | Some pos =>
      if JS.nonempty pos then
        let* d := dataOf value in
        ret (grad ++ [(JS.parseFloat pos, d)])
      else throw GradientMissingPos
  | None => throw GradientMissingPos
  end.

Definition transformationChild (trans : Transformation) : M Transformation :=
  let* tag := expectOpen in
  let name := tagName tag in
  let* value := parseValue canvas in
  let '(offset, angle, skew, scale) := trans in
  let* step :=
    if String.eqb name "offset" then
      let* d := dataOf value in ret ((Some d, angle, skew, scale), "vector")
    else if String.eqb name "angle" then
      let* d := dataOf value in ret ((offset, Some d, skew, scale), "angle")
    else if String.eqb name "skew_angle" then
      let* d := dataOf value in ret ((offset, angle, Some d, scale), "angle")
    else if String.eqb name "scale" then
      let* d := dataOf value in ret ((offset, angle, skew, Some d), "vector")
    else throw (UnexpectedElement "transformation" name) in
  let expectedType := snd step in
  match value with
  | None => throw (TypeError "type")
  | Some v =>
      if negb (String.eqb (vtype v) expectedType) then
        throw (TransformationType name expectedType (vtype v))
      else expectClose name ;;; ret (fst step)
  end.

Definition listChild (items : list Value) : M (list Value) :=
  let* tag := checkOpen in
  let name := tagName tag in
  let* v := parseValue canvas in
  match v with
  | None => throw (ExpectedListValue name)
  | Some v => ret (items ++ [v])
  end.

(** The [switch (tag.name)] of [parseValue]. *)
Definition parseValue_switch (tag : Tag) : M Completion :=
  let name := tagName tag in
  if String.eqb name "real" then
    let* v := parseValueAttribute in ret (Break (DNumber (JS.parseFloat v)))
  else if String.eqb name "time" then
    let* v := parseValueAttribute in
    let* t := parseTimeM v None in ret (Break (DTime t))
  else if String.eqb name "integer" then
    let* v := parseValueAttribute in ret (Break (DNumber (JS.parseInt v)))
  else if String.eqb name "string" then
    expectName name ;;;
    let* t := nextText in
    expectClose name ;;; ret (Break (DString (rawText t)))
  else if String.eqb name "vector" then
    let* vec := loopTag fuel vectorChild (Some "vector") (Vector_create None None) in
    ret (Break (DVector vec))
  else if String.eqb name "color" then
    let* col := loopTag fuel colorChild (Some "color")
                  (Color_create (Some (JS.Fin 0)) None None None) in
    ret (Break (DColor col))
  else if String.eqb name "segment" then
    let* seg := loopTag fuel segmentChild (Some "segment")
                  (DSegment None None None None) in
    ret (Break seg)
  else if String.eqb name "gradient" then
    let* grad := loopTag fuel gradientChild (Some "gradient") [] in
    ret (Break (DGradient grad))
  else if String.eqb name "bool" then
    let* value := parseValueAttribute in
    if String.eqb value "true" || String.eqb value "1" then ret (Break (DBool true))
    else if String.eqb value "false" || String.eqb value "0" then ret (Break (DBool false))
    else throw (BadBool value)
  else if String.eqb name "angle" || String.eqb name "degrees"
          || String.eqb name "radians" || String.eqb name "rotations" then
    let* v := parseValueAttribute in ret (Break (DAngle (JS.parseFloat v)))
  else if String.eqb name "transformation" then
    let* trans := loopTag fuel transformationChild (Some "transformation")
                    (None, None, None, None) in
    let '(offset, angle, skew, scale) := trans in
    ret (Break (DTransformation offset angle skew scale))
  else if String.eqb name "list" then
    let* items := loopTag fuel listChild None [] in
    ret (Return (Some (ValueBase_create name (DList items))))
  else if String.eqb name "bline_point" then ret (Return None)
  else if String.eqb name "guid" then ret (Return None)
  else if String.eqb name "width_point" then ret (Return None)
  else if String.eqb name "dash_item" then ret (Return None)
  else if String.eqb name "canvas" then ret (Return None)
  else ret (Break DUndefined).

End ParseValueSwitch.

(** [parseValue(pulley, canvas)].  A [return] of the switch is the result;
    after a [break] the two modifiers are read from the tag and stored.
    A bare [return;] yields [undefined], written [None]. *)
Fixpoint parseValue (fuel : nat) (canvas : Ref) : M (option Value) :=
  match fuel with
  | O => diverge
  | S fuel' =>
      let* tag := checkOpen in
      let* completion := parseValue_switch (parseValue fuel') fuel' canvas tag in
      match completion with
      | Return result => ret result
      | Break data =>
          let* static := readStatic tag in
          let* interpolation := readInterpolation tag in
          ret (Some (mkValue (tagName tag) data (Some static) (Some interpolation)))
      end
  end.

(** ** Canvases and value nodes *)

Section Loader.

(** What the absent modules and the host environment provide.

    [Guid.xor(id, rootId)] combines a reference id with the id of the
    root canvas ([undefined] when the root has none), and
    [Guid.generate()] makes the n-th fresh id.

    [Canvas.childCanvas] is called by the loader with an undefined
    parent (see [createCanvas]); the spec says what it does with a
    parent only, so its behaviour on [undefined] is a parameter.

    [parseAnimated], [parseStaticList], [parseDynamicList] and
    [parseLinkableValueNode] are named by [parseValueNode] and neither
    defined nor imported in the file: [None] is the unbound identifier,
    whose evaluation throws a ReferenceError, [Some p] a parser that the
    environment binds to the name. *)
Variable Guid_xor : string -> option string -> string.
Variable Guid_fresh : nat -> string.
Variable childCanvas_undefined : option string -> M Ref.
Variable parseAnimated : option (Ref -> M Ref).
Variable parseStaticList : option (Ref -> M Ref).
Variable parseDynamicList : option (Ref -> M Ref).
Variable parseLinkableValueNode : option (Ref -> M (option Ref)).

Definition Guid_generate : M string :=
  fun s => Ret (Guid_fresh (generated s)) (withGenerated (S (generated s)) s).

(** Modelled from the spec: [Canvas.childCanvas(parent, id)] of the
    absent [types/canvas.js] creates a child canvas linked to the parent
    and keyed by the string id. *)
Definition Canvas_childCanvas (parent : option Ref) (id : option string) : M Ref :=
  match parent with
  | Some p =>
      let* c := alloc (OCanvas (setParent (Some p) Canvas_empty)) in
      match id with
      | Some i => updCanvas c (setProp "id" (PStr i)) ;;; ret c
      | None => ret c
      end
  | None => childCanvas_undefined id
  end.

(** Evaluation of an identifier that the file does not bind. *)
Definition resolve {A : Type} (name : string) (binding : option A) : M A :=
  match binding with
  | Some f => ret f
  | None => throw (ReferenceError name)
  end.

(** The creation of the canvas object in [parseCanvas]:
    [let canvas; if(inline || !parent) { canvas = Canvas.create();
    canvas.parent = parent; } else if(parent) { canvas =
    Canvas.childCanvas(canvas, attrs['id']); }].  In the second branch
    the argument is the local [canvas], still undefined, not [parent]. *)
Definition createCanvas (parent : option Ref) (inline : bool)
    (attrs : gmap string string) : M Ref :=
  let canvas : option Ref := None in
  if inline || match parent with Some _ => false | None => true end then
    let* c := Canvas_create in
    updCanvas c (setParent parent) ;;; ret c
  else
    Canvas_childCanvas canvas (attrs !! "id").

(** A space-separated attribute of fixed arity. *)
Definition splitArity (name : string) (arity : nat) (v : string) : M (list JS.Num) :=
  let values := JS.split " " v in
  if negb (length values =? arity)%nat then
    throw (BadArity name arity (length values))
  else ret (map JS.parseFloat values).

(** The part of [parseCanvas] between the creation of the canvas and the
    loop over its children: registration and scalar attributes. *)
Definition canvasHeader (canvas : Ref) (inline : bool)
    (attrs : gmap string string) : M unit :=
  let* g := match attrs !! "guid" with
            | Some g => if JS.nonempty g then ret g else Guid_generate
            | None => Guid_generate
            end in
  updCanvas canvas (setGuid (Some g)) ;;;
  Guid_set g canvas ;;;
  (if negb inline then
     whenAttr attrs "id" (fun v => updCanvas canvas (setProp "id" (PStr v)))
   else ret tt) ;;;
  whenAttr attrs "version" (fun v => updCanvas canvas (setProp "version" (PStr v))) ;;;
  whenAttr attrs "width" (fun v =>
    let width := JS.parseInt v in
    if JS.ltOne width then throw CanvasTooSmall
    else updCanvas canvas (setProp "width" (PNum width))) ;;;
  whenAttr attrs "height" (fun v =>
    let height := JS.parseInt v in
    if JS.ltOne height then throw CanvasTooSmall
    else updCanvas canvas (setProp "height" (PNum height))) ;;;
  whenAttr attrs "xres" (fun v =>
    updCanvas canvas (setProp "xres" (PNum (JS.parseFloat v)))) ;;;
  whenAttr attrs "yres" (fun v =>
    updCanvas canvas (setProp "yres" (PNum (JS.parseFloat v)))) ;;;
  whenAttr attrs "fps" (fun v =>
    updCanvas canvas (setFps (Some (JS.parseFloat v)))) ;;;
  (let start := if JS.truthyStr (attrs !! "begin-time") then attrs !! "begin-time"
                else attrs !! "start-time" in
   match start with
   | Some v =>
       if JS.nonempty v then
         let* fps := canvasFps (Some canvas) in
         let* t := parseTimeM v fps in
         updCanvas canvas (setProp "timeStart" (PTime t))
       else ret tt
   | None => ret tt
   end) ;;;
  whenAttr attrs "end-time" (fun v =>
    let* fps := canvasFps (Some canvas) in
    let* t := parseTimeM v fps in
    updCanvas canvas (setProp "timeEnd" (PTime t))) ;;;
  whenAttr attrs "antialias" (fun v =>
    updCanvas canvas (setProp "antialias" (PNum (JS.parseInt v)))) ;;;
  whenAttr attrs "view-box" (fun v =>
    let* values := splitArity "view-box" 4 v in
    updCanvas canvas (setProp "tl" (PVector
      (Vector_create (values !! 0%nat) (values !! 1%nat)))) ;;;
    updCanvas canvas (setProp "br" (PVector
      (Vector_create (values !! 2%nat) (values !! 3%nat))))) ;;;
  whenAttr attrs "bgcolor" (fun v =>
    let* values := splitArity "bgcolor" 4 v in
    updCanvas canvas (setProp "bgcolor" (PColor
      (Color_create (values !! 0%nat) (values !! 1%nat)
                    (values !! 2%nat) (values !! 3%nat))))) ;;;
  whenAttr attrs "focus" (fun v =>
    let* values := splitArity "focus" 2 v in
    updCanvas canvas (setProp "focus" (PVector
      (Vector_create (values !! 0%nat) (values !! 1%nat))))).

(** The callback of the loop over the children of a canvas. *)
Definition canvasChild (parseCanvasDefs : Ref -> M unit)
    (canvas : Ref) (inline : bool) (_ : unit) : M unit :=
  let* tag := checkOpen in
  let name := tagName tag in
  if String.eqb name "defs" then
    if inline then throw InlineDefs
    else parseCanvasDefs canvas
  else if String.eqb name "bones" then
    warn WBones ;;; skipTag
  else if String.eqb name "keyframe" then
    if inline then warn WInlineKeyframes ;;; skipTag
    else
      let* k := parseKeyframe (Some canvas) in
      Canvas_addKeyframe canvas k
  else if String.eqb name "meta" then
    if inline then warn WInlineMeta ;;; skipTag
    else parseMetaInto canvas
  else if String.eqb name "name" || String.eqb name "desc"
          || String.eqb name "author" then
    expectName name ;;;
    let* t := nextText in
    updCanvas canvas (setProp name (PStr (text t))) ;;;
    expectClose name
  else if String.eqb name "layer" then
    let* l := parseLayer canvas in
    Canvas_addLayer canvas l
  else throw (UnexpectedElement "canvas" name).

(** The table of [parseValueNode] from tag names to node parsers.
    Building the object evaluates the three identifiers in order. *)
Definition nodeParserTable (name : string) : M (option (Ref -> M Ref)) :=
  let* animated := resolve "parseAnimated" parseAnimated in
  let* staticList := resolve "parseStaticList" parseStaticList in
  let* dynamicList := resolve "parseDynamicList" parseDynamicList in
  ret (if String.eqb name "hermite" || String.eqb name "animated" then Some animated
       else if String.eqb name "static_list" then Some staticList
       else if String.eqb name "dynamic_list" || String.eqb name "bline"
               || String.eqb name "wplist" || String.eqb name "dilist"
               || String.eqb name "weighted_average" then Some dynamicList
       else None).

(** The reference handling at the head of [parseValueNode]: the node
    already registered under the transformed id ([inl]), or the id
    under which the node about to be parsed will be registered
    ([inr]). *)
Definition nodeReference (canvas : Ref) (attrs : gmap string string)
    : M (Ref + string) :=
  match attrs !! "guid" with
  | Some g =>
      if JS.nonempty g then
        let* root := rootGuid canvas in
        let guid := Guid_xor g root in
        let* known := Guid_exists guid in
        if known then
          skipTag ;;;
          let* node := Guid_get guid in ret (inl node)
        else ret (inr guid)
      else
        let* guid := Guid_generate in ret (inr guid)
  | None =>
      let* guid := Guid_generate in ret (inr guid)
  end.

(** The id under which [parseValueNode] registers the node of the
    element [tag], read in state [s]: the transformed [guid] attribute,
    or the next generated id when the attribute is absent or empty. *)
Definition referenceId (canvas : Ref) (tag : Tag) (s : State) : string :=
  match attributes tag !! "guid" with
  | Some g =>
      if JS.nonempty g then Guid_xor g (rootGuidOf (heap s) canvas)
      else Guid_fresh (generated s)
  | None => Guid_fresh (generated s)
  end.

(** [parseCanvas(pulley, parent, inline)], [parseCanvasDefs(pulley,
    canvas)] and [parseValueNode(pulley, canvas)]. *)
Fixpoint parseCanvas (fuel : nat) (parent : option Ref) (inline : bool) : M Ref :=
  match fuel with
  | O => diverge
  | S fuel' =>
      let* tag := checkName "canvas" in
      let attrs := attributes tag in
      let fresh : M Ref :=
        let* canvas := createCanvas parent inline attrs in
        canvasHeader canvas inline attrs ;;;
        loopTag fuel' (canvasChild (parseCanvasDefs fuel') canvas inline)
                (Some "canvas") tt ;;;
        ret canvas in
      match attrs !! "guid" with
      | Some g =>
          if JS.nonempty g then
            let* known := Guid_exists g in
            if known then skipTag ;;; Guid_get g
            else fresh
          else fresh
      | None => fresh
      end
  end
with parseCanvasDefs (fuel : nat) (canvas : Ref) : M unit :=
  match fuel with
  | O => diverge
  | S fuel' =>
      loopTag fuel'
        (fun _ =>
           let* tag := checkOpen in
           if String.eqb (tagName tag) "canvas" then
             parseCanvas fuel' (Some canvas) false ;;; ret tt
           else
             parseValueNode fuel' canvas ;;; ret tt)
        (Some "defs") tt
  end
with parseValueNode (fuel : nat) (canvas : Ref) : M Ref :=
  match fuel with
  | O => diverge
  | S fuel' =>
      let* tag := checkOpen in
      let attrs := attributes tag in
      let name := tagName tag in
      let* reference := nodeReference canvas attrs in
      match reference with
      | inl node => ret node
      | inr guid =>
          let* value := if negb (String.eqb name "canvas")
                        then parseValue fuel' canvas else ret None in
          let* node :=
            match value with
            | Some v => VNConst_create v
            | None =>
                let* parser := nodeParserTable name in
                match parser with
                | Some p => p canvas
                | None =>
                    let* linkable :=
                      resolve "parseLinkableValueNode" parseLinkableValueNode in
                    let* node := linkable canvas in
                    match node with
                    | Some n => ret n
                    | None =>
                        if String.eqb name "canvas" then
                          let* c := parseCanvas fuel' (Some canvas) true in
                          VNConst_create (ValueBase_create "canvas" (DCanvas c))
                        else throw (ExpectedValueNode name)
                    end
                end
            end in
          whenAttr attrs "id" (fun id => Canvas_addValueNode canvas node id) ;;;
          Guid_set guid node ;;;
          ret node
      end
  end.

(** [loadSif(file)], on the events the reader makes of the file. *)
Definition loadSif (fuel : nat) : M Ref := parseCanvas fuel None false.

End Loader.


(** ** What the spec says of the two modifiers

    The tables of the [static] and [interpolation] attributes, in the
    spec's words, to be compared with [readStatic] and
    [readInterpolation]. *)

Definition staticReads (a : option string) (b : bool) : Prop :=
  match b with
  | false => a = None \/ a = Some "0" \/ a = Some "false"
  | true => a = Some "1" \/ a = Some "true"
  end.

Definition interpolationReads (a : option string) (i : Interpolation) : Prop :=
  match i with
  | UNDEFINED => a = None
  | HALT => a = Some "halt"
  | CONSTANT => a = Some "constant"
  | LINEAR => a = Some "linear"
  | MANUAL => a = Some "manual"
  | TCB => a = Some "auto"
  | CLAMPED => a = Some "clamped"
  end.

(** ** Sample documents and a sample environment *)

Definition initialState (events : list Node) : State :=
  {| input := events; heap := []; registry := ∅; generated := 0; warnings := [] |}.

Definition mkTag (name : string) (attrs : list (string * string)) : Tag :=
  {| tagName := name; attributes := list_to_map attrs |}.

(** A well-formed vector element with the two coordinates as text. *)
Definition vectorElement (x y : string) : list Node :=
  [ OpenTag (mkTag "vector" []);
    OpenTag (mkTag "x" []); TextNode x x; CloseTag "x";
    OpenTag (mkTag "y" []); TextNode y y; CloseTag "y";
    CloseTag "vector" ].

(** A child of a segment: a named element around one vector. *)
Definition pointElement (name x y : string) : list Node :=
  OpenTag (mkTag name []) :: vectorElement x y ++ [CloseTag name].

(** A well-formed segment element with its four control points. *)
Definition segmentElement (p1 t1 p2 t2 : string * string) : list Node :=
  OpenTag (mkTag "segment" [])
  :: pointElement "p1" (fst p1) (snd p1) ++ pointElement "t1" (fst t1) (snd t1)
  ++ pointElement "p2" (fst p2) (snd p2) ++ pointElement "t2" (fst t2) (snd t2)
  ++ [CloseTag "segment"].

(** An environment in which none of the four parser names is bound, ids
    are combined by juxtaposition, and a child canvas without parent is a
    canvas on its own. *)
Module Host.

Definition xor (g : string) (root : option string) : string :=
  match root with
  | Some r => (g ++ "^" ++ r)%string
  | None => g
  end.

Definition fresh (n : nat) : string := String "#" (string_of_list_ascii (repeat "i"%char n)).

Definition childCanvas_undefined (id : option string) : M Ref :=
  alloc (OCanvas Canvas_empty).

Definition parseValueNode : nat -> Ref -> M Ref :=
  parseValueNode xor fresh childCanvas_undefined None None None None.

Definition parseCanvas : nat -> option Ref -> bool -> M Ref :=
  parseCanvas xor fresh childCanvas_undefined None None None None.

Definition parseCanvasDefs : nat -> Ref -> M unit :=
  parseCanvasDefs xor fresh childCanvas_undefined None None None None.

(** The state in which the children of a root canvas with id [R] and
    frame rate [fps] are parsed. *)
Definition inRoot (fps : option JS.Num) (events : list Node) : State :=
  {| input := events;
     heap := [OCanvas (setFps fps (setGuid (Some "R") Canvas_empty))];
     registry := {[ "R" := 0%nat ]};
     generated := 0;
     warnings := [] |}.

End Host.

(** * What the further properties are stated with *)
(** ** Well-formed time expressions

    The unit notation as a list of amounts with their unit, to state what
    [parseTime] makes of it. *)

Inductive TimeUnit : Type := Hours | Minutes | Seconds | Frames.

Definition unitCode (u : TimeUnit) : string :=
  match u with
  | Hours => "h"
  | Minutes => "m"
  | Seconds => "s"
  | Frames => "f"
  end.

(** The stamp that writes the amounts one after the other, each followed
    by its unit code. *)
Fixpoint unitStamp (l : list (string * TimeUnit)) : string :=
  match l with
  | [] => EmptyString
  | (d, u) :: r => (d ++ unitCode u ++ unitStamp r)%string
  end.

(** What an amount of a unit is worth in seconds; frames are worth
    nothing when the frame rate is unknown. *)
Definition unitSeconds (fps : JS.Num) (u : TimeUnit) (amount : Q) : Q :=
  match u with
  | Hours => (amount * 3600)%Q
  | Minutes => (amount * 60)%Q
  | Seconds => amount
  | Frames => if JS.truthy fps then divFps amount fps else 0%Q
  end.

Fixpoint unitTotal (fps : JS.Num) (l : list (string * TimeUnit)) : Q :=
  match l with
  | [] => 0%Q
  | (d, u) :: r =>
      (unitSeconds fps u (inject_Z (JS.decimalValue d)) + unitTotal fps r)%Q
  end.

Definition isFrames (u : TimeUnit) : bool :=
  match u with
  | Frames => true
  | _ => false
  end.

(** One warning for each amount of frames when the frame rate is unknown. *)
Definition unitWarnings (fps : JS.Num) (stamp : string)
    (l : list (string * TimeUnit)) : list Warning :=
  if JS.truthy fps then []
  else map (fun _ => WFramesNoFps stamp) (List.filter (fun p => isFrames (snd p)) l).

(** ** What a step of the parser leaves alone

    A step that only reads the document: it allocates nothing, registers
    nothing and generates no id; what is left of the input is the end of
    what was there, and the warnings so far are the beginning of the
    warnings after it. *)

Definition readsOnly (s s' : State) : Prop :=
  heap s' = heap s /\ registry s' = registry s /\ generated s' = generated s
  /\ suffix (input s') (input s) /\ prefix (warnings s) (warnings s').

Definition keeps {A : Type} (m : M A) : Prop :=
  forall s a s', m s = Ret a s' -> readsOnly s s'.

(** ** Well-formed children of compound values *)

Inductive Axis : Type := AxisX | AxisY.

Definition axisName (a : Axis) : string :=
  match a with
  | AxisX => "x"
  | AxisY => "y"
  end.

(** A coordinate of a vector: an element named for the axis around the
    text of a number. *)
Definition coordElement (p : Axis * string) : list Node :=
  [OpenTag (mkTag (axisName (fst p)) []); TextNode (snd p) (snd p);
   CloseTag (axisName (fst p))].

(** The assignment [vec.x = value] or [vec.y = value]. *)
Definition setCoord (vec : Vector) (p : Axis * string) : Vector :=
  match fst p with
  | AxisX => {| vx := Some (JS.parseFloat (snd p)); vy := vy vec |}
  | AxisY => {| vx := vx vec; vy := Some (JS.parseFloat (snd p)) |}
  end.

Inductive Channel : Type := ChanR | ChanG | ChanB | ChanA.

Definition channelName (c : Channel) : string :=
  match c with
  | ChanR => "r"
  | ChanG => "g"
  | ChanB => "b"
  | ChanA => "a"
  end.

Definition channelElement (p : Channel * string) : list Node :=
  [OpenTag (mkTag (channelName (fst p)) []); TextNode (snd p) (snd p);
   CloseTag (channelName (fst p))].

(** The assignment to one component of a color. *)
Definition setChannel (col : Color) (p : Channel * string) : Color :=
  let v := Some (JS.parseFloat (snd p)) in
  match fst p with
  | ChanR => {| cr := v; cg := cg col; cb := cb col; ca := ca col |}
  | ChanG => {| cr := cr col; cg := v; cb := cb col; ca := ca col |}
  | ChanB => {| cr := cr col; cg := cg col; cb := v; ca := ca col |}
  | ChanA => {| cr := cr col; cg := cg col; cb := cb col; ca := v |}
  end.

(** The color a [color] element with these components parses to. *)
Definition colorOf (channels : list (Channel * string)) : Color :=
  fold_left setChannel channels (Color_create (Some (JS.Fin 0)) None None None).

(** A stop of a gradient: a [color] element with a [pos] attribute and
    its components. *)
Definition stopElement (p : string * list (Channel * string)) : list Node :=
  OpenTag (mkTag "color" [("pos", fst p)])
  :: concat (map channelElement (snd p)) ++ [CloseTag "color"].

Definition stopOf (p : string * list (Channel * string)) : JS.Num * Data :=
  (JS.parseFloat (fst p), DColor (colorOf (snd p))).

(** An item of a list: a [real] element with its [value] attribute. *)
Definition realElement (v : string) : list Node :=
  [OpenTag (mkTag "real" [("value", v)]); CloseTag "real"].

Definition realOf (v : string) : Value :=
  mkValue "real" (DNumber (JS.parseFloat v)) (Some false) (Some UNDEFINED).

(** The tag names that a case of the [switch] of [parseValue] names. *)
Definition valueCaseNames : list string :=
  ["real"; "time"; "integer"; "string"; "vector"; "color"; "segment"; "gradient";
   "bool"; "angle"; "degrees"; "radians"; "rotations"; "transformation"; "list";
   "bline_point"; "guid"; "width_point"; "dash_item"; "canvas"].

(** The cases that return nothing. *)
Definition placeholderNames : list string :=
  ["bline_point"; "guid"; "width_point"; "dash_item"; "canvas"].

(** The content of an element: every closing tag in [l] closes an element
    opened in [l] or one of the [depth] elements open around it, and
    none is left open. *)
Fixpoint wellNested (depth : nat) (l : list Node) : bool :=
  match l with
  | [] => (depth =? 0)%nat
  | OpenTag _ :: r => wellNested (S depth) r
  | TextNode _ _ :: r => wellNested depth r
  | CloseTag _ :: r =>
      match depth with
      | O => false
      | S d => wellNested d r
      end
  end.

(** A [width] or [height] attribute that [parseCanvas] refuses. *)
Definition tooSmall (a : option string) : bool :=
  match a with
  | Some v => JS.nonempty v && JS.ltOne (JS.parseInt v)
  | None => false
  end.

(** A computation that returns in every state. *)
Definition returns {A : Type} (m : M A) : Prop :=
  forall s, exists a s', m s = Ret a s'.

(** The id under which [parseCanvas] registers a new canvas read in
    state [s]: the [guid] attribute as it is written, or the next
    generated id when the attribute is absent or empty. *)
Definition canvasGuid (Guid_fresh : nat -> string) (attrs : gmap string string)
    (s : State) : string :=
  match attrs !! "guid" with
  | Some g => if JS.nonempty g then g else Guid_fresh (generated s)
  | None => Guid_fresh (generated s)
  end.

(** A step that at most assigns to properties of the canvas [c] other
    than its id and its parent, and prints warnings. *)
Definition headerStep (c : Ref) (s s' : State) : Prop :=
  input s' = input s /\ registry s' = registry s /\ generated s' = generated s
  /\ length (heap s') = length (heap s)
  /\ forall cv, canvasAt (heap s) c = Some cv ->
       exists cv', canvasAt (heap s') c = Some cv'
                   /\ guid cv' = guid cv /\ parent cv' = parent cv.

Definition setsProps {A : Type} (c : Ref) (m : M A) : Prop :=
  forall s a s', m s = Ret a s' -> headerStep c s s'.

(** The element names that a case of the loop over the children of a
    canvas names. *)
Definition canvasChildNames : list string :=
  ["defs"; "bones"; "keyframe"; "meta"; "name"; "desc"; "author"; "layer"].

(** [canvas.fps] as [parseKeyframe] reads it in the heap [h]. *)
Definition fpsOf (h : list Obj) (canvas : option Ref) : option JS.Num :=
  match canvas with
  | Some c => match canvasAt h c with
              | Some cv => fps cv
              | None => None
              end
  | None => None
  end.


(** How many fields a present, non-empty attribute of [arity] fields has
    when it has another number of them. *)
Definition badArity (a : option string) (arity : nat) : option nat :=
  match a with
  | Some v =>
      let given := length (JS.split " " v) in
      if JS.nonempty v && negb (given =? arity)%nat then Some given else None
  | None => None
  end.

(** ** Conditions and shorthands *)

(** What may follow a run of digits for the pattern to stop there. *)
Definition stopsRun (rest : string) : Prop :=
  match rest with
  | EmptyString => True
  | String c _ => JS.isDigit c = false /\ Ascii.eqb c "-" = false /\ Ascii.eqb c "." = false
  end.

(** The tag names whose value is the [value] attribute. *)
Definition scalarNames : list string :=
  ["real"; "time"; "integer"; "bool"; "angle"; "degrees"; "radians"; "rotations"].

(** The modifiers read and the value built, after the body of a case. *)
Definition finishValue (tag : Tag) (data : Data) : M (option Value) :=
  let* static := readStatic tag in
  let* interpolation := readInterpolation tag in
  ret (Some (mkValue (tagName tag) data (Some static) (Some interpolation))).

(** What the callback of the [gradient] case needs of a stop: a
    non-empty [pos], and fuel for its components. *)
Definition stopReady (fuel : nat) (p : string * list (Channel * string)) : Prop :=
  JS.nonempty (fst p) = true /\ S (length (snd p)) < fuel.

(** * Properties *)

(** ** The timestamp parser *)

(** The pattern of [parseTime] matches at every position. *)
Lemma timeRegexExec_some s : exists m, timeRegexExec s = Some m.
Proof.
  unfold timeRegexExec.
  destruct (JS.takeChar "-" s) as [minus s1].
  destruct (JS.takeDigits s1) as [d1 s2].
  destruct (JS.takeChar "." s2) as [dot s3].
  destruct (JS.takeDigits s3) as [d2 s4]. eauto.
Qed.

(** The loop ends within the fuel [parseTime] gives it: each iteration
    moves [pos] forward by one character at least. *)
Lemma parseTime_loop_total fuel stamp fps :
  forall pos value ws,
    (String.length stamp - pos < fuel)%nat ->
    exists v ws', parseTime_loop fuel stamp fps pos value ws = Some (v, ws').
Proof.
  induction fuel as [|fuel IH]; intros pos value ws Hfuel; [lia|].
  cbn [parseTime_loop].
  destruct (String.length stamp <=? pos)%nat eqn:Hend; [eauto|].
  apply Nat.leb_gt in Hend.
  destruct (timeRegexExec_some (JS.substrFrom pos stamp)) as [m ->].
  cbn [orb].
  destruct (String.length stamp <=? pos + String.length m)%nat; cbn [orb].
  - destruct (negb _); [destruct (JS.truthy fps)|]; eauto.
  - repeat match goal with
           | |- context [if ?b then _ else _] => destruct b
           end; eauto;
      try (apply IH; lia);
      destruct (parseTime_colon stamp fps (JS.split ":" stamp) ws); eauto.
Qed.

Lemma parseTime_total stamp fps : exists v ws, parseTime stamp fps = Some (v, ws).
Proof.
  unfold parseTime.
  destruct (_ || _); [eauto|].
  destruct (String.eqb _ "eot"); [eauto|].
  apply parseTime_loop_total. lia.
Qed.

(** Facts about the string operations. *)
Lemma substrFrom_length s : forall pos,
  String.length (JS.substrFrom pos s) = (String.length s - pos)%nat.
Proof.
  induction s as [|c s IH]; intros [|pos]; cbn; auto.
Qed.

Lemma substrFrom_add s : forall pos k,
  JS.substrFrom (pos + k) s = JS.substrFrom k (JS.substrFrom pos s).
Proof.
  induction s as [|c s IH]; intros [|pos] k; cbn; auto.
  destruct k; reflexivity.
Qed.

Lemma charAt_substrFrom s : forall pos,
  JS.charAt pos s = JS.charAt 0 (JS.substrFrom pos s).
Proof.
  induction s as [|c s IH]; intros [|pos]; cbn; auto.
Qed.

Lemma append_nil (t : string) : (EmptyString ++ t)%string = t.
Proof. reflexivity. Qed.

Lemma append_cons c (m t : string) : (String c m ++ t)%string = String c (m ++ t).
Proof. reflexivity. Qed.

Lemma append_assoc (a b c : string) : ((a ++ b) ++ c)%string = (a ++ (b ++ c))%string.
Proof.
  induction a as [|x a IH]; rewrite ?append_nil, ?append_cons; [reflexivity|].
  now rewrite IH.
Qed.

Lemma substrFrom_app (m t : string) : JS.substrFrom (String.length m) (m ++ t) = t.
Proof. induction m; rewrite ?append_nil, ?append_cons; cbn; auto. Qed.

Lemma length_app_string (m t : string) :
  String.length (m ++ t) = (String.length m + String.length t)%nat.
Proof.
  induction m as [|c m IH]; rewrite ?append_nil, ?append_cons; cbn;
    [reflexivity | now rewrite IH].
Qed.

Lemma indexOf_app_none c (m t : string) :
  JS.indexOf c m = None ->
  JS.indexOf c (m ++ t) =
    match JS.indexOf c t with
    | Some i => Some (String.length m + i)%nat
    | None => None
    end.
Proof.
  induction m as [|d m IH]; rewrite ?append_nil, ?append_cons; cbn; intros H.
  - destruct (JS.indexOf c t); reflexivity.
  - destruct (Ascii.eqb d c); [discriminate|].
    destruct (JS.indexOf c m); [discriminate|].
    rewrite IH by reflexivity. destruct (JS.indexOf c t); reflexivity.
Qed.

Lemma isDigit_not_colon c : JS.isDigit c = true -> Ascii.eqb c ":" = false.
Proof.
  intros H. apply Ascii.eqb_neq. intros ->. discriminate H.
Qed.

Lemma takeDigits_spec s :
  forall d t, JS.takeDigits s = (d, t) ->
    s = (d ++ t)%string /\ JS.indexOf ":" d = None.
Proof.
  induction s as [|c s IH]; cbn; intros d t H.
  - inversion H; subst. auto.
  - destruct (JS.isDigit c) eqn:Hc.
    + destruct (JS.takeDigits s) as [d' t'] eqn:Hs. inversion H; subst.
      destruct (IH _ _ eq_refl) as [-> Hn]. split; [reflexivity|].
      cbn. rewrite (isDigit_not_colon _ Hc), Hn. reflexivity.
    + inversion H; subst. auto.
Qed.

Lemma takeChar_spec c s b r :
  JS.takeChar c s = (b, r) ->
  s = ((if b then String c EmptyString else EmptyString) ++ r)%string.
Proof.
  destruct s as [|d s]; cbn; intros H.
  - inversion H; subst. reflexivity.
  - destruct (Ascii.eqb d c) eqn:E; inversion H; subst; [|reflexivity].
    apply Ascii.eqb_eq in E. subst. reflexivity.
Qed.

Lemma timeRegexExec_spec s m :
  timeRegexExec s = Some m ->
  exists t, s = (m ++ t)%string /\ JS.indexOf ":" m = None.
Proof.
  unfold timeRegexExec. intros H.
  destruct (JS.takeChar "-" s) as [minus s1] eqn:Hsign.
  destruct (JS.takeDigits s1) as [d1 s2] eqn:H1.
  destruct (JS.takeChar "." s2) as [dot s3] eqn:Hdot.
  destruct (JS.takeDigits s3) as [d2 s4] eqn:H2.
  inversion H; subst m; clear H.
  apply takeDigits_spec in H1 as [E1 N1].
  apply takeDigits_spec in H2 as [E2 N2].
  apply takeChar_spec in Hsign, Hdot.
  exists s4. split.
  - rewrite Hsign, E1, Hdot, E2. rewrite !append_assoc.
    destruct minus, dot; reflexivity.
  - assert (Ns : JS.indexOf ":" (if minus then "-" else EmptyString) = None)
      by (destruct minus; reflexivity).
    assert (Nd : JS.indexOf ":" (if dot then "." else EmptyString) = None)
      by (destruct dot; reflexivity).
    rewrite !indexOf_app_none by assumption.
    rewrite N2. reflexivity.
Qed.

(** From a position with a colon ahead, the loop reaches that colon as a
    unit code: the numeric runs it consumes on the way hold no colon.
    With three fields in the stamp it returns there. *)
Lemma parseTime_loop_colon fuel stamp fps :
  (3 <= length (JS.split ":" stamp))%nat ->
  forall pos value ws i,
    JS.indexOf ":" (JS.substrFrom pos stamp) = Some i ->
    (String.length stamp - pos < fuel)%nat ->
    exists ws', parseTime_loop fuel stamp fps pos value ws
                = Some (parseTime_colon stamp fps (JS.split ":" stamp) ws').
Proof.
  intros Hparts.
  induction fuel as [|fuel IH]; intros pos value ws i Hcolon Hfuel; [lia|].
  cbn [parseTime_loop].
  pose proof (substrFrom_length stamp pos) as Hlen.
  destruct (timeRegexExec_some (JS.substrFrom pos stamp)) as [m Hm].
  rewrite Hm.
  destruct (timeRegexExec_spec _ _ Hm) as [t [Hrest Hnone]].
  rewrite Hrest in Hcolon, Hlen.
  rewrite indexOf_app_none in Hcolon by assumption.
  rewrite length_app_string in Hlen.
  destruct t as [|c t]; [discriminate Hcolon|].
  cbn [String.length] in Hlen.
  assert (Hcode : JS.charAt (pos + String.length m) stamp = String c EmptyString).
  { rewrite charAt_substrFrom, substrFrom_add, Hrest, substrFrom_app. reflexivity. }
  assert (Htail : JS.substrFrom (S (pos + String.length m)) stamp = t).
  { replace (S (pos + String.length m)) with (pos + String.length m + 1)%nat by lia.
    rewrite !substrFrom_add, Hrest, substrFrom_app. reflexivity. }
  replace (String.length stamp <=? pos)%nat with false
    by (symmetry; apply Nat.leb_gt; lia).
  replace (String.length stamp <=? pos + String.length m)%nat with false
    by (symmetry; apply Nat.leb_gt; lia).
  cbn [orb]. rewrite Hcode.
  destruct (Ascii.eqb c ":") eqn:Ec.
  - apply Ascii.eqb_eq in Ec; subst c.
    replace (3 <=? length (JS.split ":" stamp))%nat with true
      by (symmetry; apply Nat.leb_le; lia).
    cbn. eauto.
  - assert (Hcolon' : exists j, JS.indexOf ":" t = Some j).
    { cbn in Hcolon. rewrite Ec in Hcolon.
      destruct (JS.indexOf ":" t); [eauto | discriminate]. }
    destruct Hcolon' as [j Hj].
    assert (Hne : String.eqb (String c EmptyString) ":" = false).
    { cbn. rewrite Ec. reflexivity. }
    rewrite Hne.
    repeat match goal with
           | |- context [if ?b then _ else _] => destruct b
           end;
      (eapply IH; [rewrite Htail; exact Hj | lia]).
Qed.

Lemma split_colon_index s :
  (2 <= length (JS.split ":" s))%nat -> exists i, JS.indexOf ":" s = Some i.
Proof.
  induction s as [|c s IH]; cbn; [lia|].
  destruct (Ascii.eqb c ":"); [eauto|].
  destruct (JS.split ":" s) as [|p ps] eqn:Hs; cbn; [lia|].
  intros H. destruct (IH H) as [i ->]. eauto.
Qed.

(** Stamps with at least three colon-separated fields. *)
Lemma parseTime_colon_fields stamp fps :
  (3 <= length (JS.split ":" (JS.toLowerCase stamp)))%nat ->
  exists ws,
    parseTime stamp fps
    = Some (parseTime_colon (JS.toLowerCase stamp) (fpsOrZero fps)
              (JS.split ":" (JS.toLowerCase stamp)) ws).
Proof.
  intros H. unfold parseTime.
  set (s := JS.toLowerCase stamp) in *.
  assert (Hsent : forall k, JS.split ":" k = [k] -> String.eqb s k = false).
  { intros k Hk. destruct (String.eqb s k) eqn:E; [|reflexivity].
    apply String.eqb_eq in E. rewrite E, Hk in H. cbn in H. lia. }
  rewrite !Hsent by reflexivity. cbn [orb].
  destruct (split_colon_index s) as [i Hi]; [lia|].
  eapply parseTime_loop_colon; [exact H | exact Hi | lia].
Qed.

Lemma append_empty_r (s : string) : (s ++ EmptyString)%string = s.
Proof.
  induction s as [|c s IH]; rewrite ?append_nil, ?append_cons; [reflexivity|].
  now rewrite IH.
Qed.

Lemma isDigit_neq c d : JS.isDigit c = true -> JS.isDigit d = false -> Ascii.eqb c d = false.
Proof.
  intros Hc Hd. apply Ascii.eqb_neq. intros ->. congruence.
Qed.

Lemma takeDigits_all d : JS.allDigits d = true -> JS.takeDigits d = (d, EmptyString).
Proof.
  induction d as [|c d IH]; cbn; [reflexivity|].
  intros H. apply andb_prop in H as [Hc Hd]. rewrite Hc, (IH Hd). reflexivity.
Qed.

Lemma isDigit_not_space c : JS.isDigit c = true -> JS.isSpace c = false.
Proof.
  unfold JS.isDigit, JS.isSpace. intros H.
  apply andb_prop in H as [H1 H2].
  apply Nat.leb_le in H1, H2.
  apply orb_false_intro.
  - apply andb_false_intro2. apply Nat.leb_gt. lia.
  - apply Nat.eqb_neq. lia.
Qed.

Lemma trimEnd_digits d : JS.allDigits d = true -> JS.trimEnd d = d.
Proof.
  induction d as [|c d IH]; cbn; [reflexivity|].
  intros H. apply andb_prop in H as [Hc Hd].
  rewrite (isDigit_not_space _ Hc). cbn. now rewrite IH.
Qed.

Lemma trim_digits d : JS.allDigits d = true -> JS.trim d = d.
Proof.
  intros H. unfold JS.trim.
  destruct d as [|c d]; [reflexivity|].
  pose proof H as H'. cbn in H'. apply andb_prop in H' as [Hc _].
  cbn [JS.trimStart]. rewrite (isDigit_not_space _ Hc).
  now apply trimEnd_digits.
Qed.

(** Unary plus on a string of digits is its decimal value. *)
Lemma toNumber_digits d :
  JS.allDigits d = true ->
  exists q, JS.toNumber d = JS.Fin q /\ (q == inject_Z (JS.decimalValue d))%Q.
Proof.
  intros H. unfold JS.toNumber. rewrite (trim_digits _ H).
  destruct d as [|c d]; [exists 0%Q; split; reflexivity|].
  pose proof H as H'. cbn in H'. apply andb_prop in H' as [Hc Hd].
  cbn [JS.nonempty negb].
  assert (Hnd : JS.nonDecimal (String c d) = None).
  { unfold JS.nonDecimal. destruct d as [|c2 d]; [reflexivity|].
    cbn in Hd. apply andb_prop in Hd as [Hc2 _].
    destruct (negb (Ascii.eqb c "0")); [reflexivity|].
    rewrite !(isDigit_neq c2) by (assumption || reflexivity). reflexivity. }
  rewrite Hnd. unfold JS.scanDecimal, JS.takeSign.
  rewrite !(isDigit_neq c) by (assumption || reflexivity).
  unfold JS.scanUnsigned.
  assert (Hinf : JS.prefixb "Infinity" (String c d) = false).
  { change (JS.prefixb "Infinity" (String c d))
      with (Ascii.eqb "I" c && JS.prefixb "nfinity" d).
    replace (Ascii.eqb "I" c) with false; [reflexivity|].
    symmetry. apply Ascii.eqb_neq. intros <-. discriminate Hc. }
  rewrite Hinf, (takeDigits_all _ H). cbn [JS.takeChar JS.takeExponent JS.nonempty negb andb].
  eexists. split; [reflexivity|].
  rewrite append_empty_r. cbn [String.length Z.of_nat Z.sub]. cbn [Qpower].
  apply Qmult_1_r.
Qed.

Lemma numOrZero_digits d :
  JS.allDigits d = true -> (numOrZero d == inject_Z (JS.decimalValue d))%Q.
Proof.
  intros H. destruct (toNumber_digits d H) as [q [Hq Heq]].
  unfold numOrZero. rewrite Hq. exact Heq.
Qed.

(** On a stamp in lower case, and so on every piece of it, unary plus is
    never infinite: the literal needs a capital letter.  [x || 0] is then
    exactly [JS.orZero]. *)
Lemma lowercase_no_capital s c :
  JS.isUpper c = true -> JS.toLowerCase s = s -> JS.indexOf c s = None.
Proof.
  intros Hc. induction s as [|d s IH]; cbn; [reflexivity|].
  intros H. injection H as Hd Hs.
  destruct (Ascii.eqb d c) eqn:E.
  - apply Ascii.eqb_eq in E. subst d. exfalso.
    unfold JS.lowerChar in Hd. rewrite Hc in Hd.
    apply (f_equal nat_of_ascii) in Hd.
    unfold JS.isUpper in Hc. apply andb_prop in Hc as [H1 H2].
    apply Nat.leb_le in H1, H2.
    rewrite nat_ascii_embedding in Hd by lia. lia.
  - now rewrite IH.
Qed.

Lemma indexOf_tail c d s :
  JS.indexOf c (String d s) = None -> JS.indexOf c s = None.
Proof.
  cbn. destruct (Ascii.eqb d c); [discriminate|].
  destruct (JS.indexOf c s); [discriminate | reflexivity].
Qed.

Lemma trimStart_no_char c s :
  JS.indexOf c s = None -> JS.indexOf c (JS.trimStart s) = None.
Proof.
  induction s as [|d s IH]; [reflexivity|]. intros H. cbn [JS.trimStart].
  destruct (JS.isSpace d); [|exact H].
  apply IH. eapply indexOf_tail; eauto.
Qed.

Lemma trimEnd_no_char c s :
  JS.indexOf c s = None -> JS.indexOf c (JS.trimEnd s) = None.
Proof.
  induction s as [|d s IH]; [reflexivity|]. intros H. cbn [JS.trimEnd].
  destruct (JS.allSpace (String d s)); [reflexivity|].
  pose proof (indexOf_tail _ _ _ H) as Ht.
  cbn in H |- *. destruct (Ascii.eqb d c); [discriminate|].
  now rewrite (IH Ht).
Qed.

Lemma scanUnsigned_Inf s b t :
  JS.scanUnsigned s = Some (JS.Inf b, t) -> JS.indexOf "I" s = Some 0%nat.
Proof.
  unfold JS.scanUnsigned.
  destruct (JS.prefixb "Infinity" s) eqn:Hp.
  - intros _. destruct s as [|c s]; [discriminate Hp|].
    change (JS.prefixb "Infinity" (String c s))
      with (Ascii.eqb "I" c && JS.prefixb "nfinity" s) in Hp.
    apply andb_prop in Hp as [Hc _]. apply Ascii.eqb_eq in Hc. subst c. reflexivity.
  - destruct (JS.takeDigits s) as [ip r1].
    destruct (JS.takeChar "." r1) as [dot r1'].
    destruct (if dot then JS.takeDigits r1' else (EmptyString, r1)) as [fd r2].
    destruct (negb (JS.nonempty ip) && negb (JS.nonempty fd)); [discriminate|].
    destruct (JS.takeExponent r2). discriminate.
Qed.

Lemma toNumber_lowercase_finite s b :
  JS.toLowerCase s = s -> JS.toNumber s <> JS.Inf b.
Proof.
  intros Hlow H.
  pose proof (lowercase_no_capital s "I" eq_refl Hlow) as HI.
  apply trimStart_no_char, trimEnd_no_char in HI. fold (JS.trim s) in HI.
  unfold JS.toNumber in H.
  destruct (negb (JS.nonempty (JS.trim s))); [discriminate|].
  destruct (JS.nonDecimal (JS.trim s)); [discriminate|].
  unfold JS.scanDecimal in H.
  destruct (JS.takeSign (JS.trim s)) as [neg r] eqn:Hs.
  assert (Hr : JS.indexOf "I" r = None).
  { unfold JS.takeSign in Hs. destruct (JS.trim s) as [|c t]; [inversion Hs; subst; reflexivity|].
    destruct (Ascii.eqb c "-"); [inversion Hs; subst; eapply indexOf_tail; eauto|].
    destruct (Ascii.eqb c "+"); inversion Hs; subst; [eapply indexOf_tail; eauto | exact HI]. }
  destruct (JS.scanUnsigned r) as [[v t]|] eqn:Hu; [|discriminate].
  destruct t; [|discriminate].
  destruct v as [|b'|q]; try (destruct neg; discriminate).
  apply scanUnsigned_Inf in Hu. congruence.
Qed.

Lemma substrTo_app (m t : string) : JS.substrTo (String.length m) (m ++ t) = m.
Proof.
  induction m as [|c m IH]; rewrite ?append_nil, ?append_cons; cbn.
  - destruct t; reflexivity.
  - now rewrite IH.
Qed.

Lemma truthy_Fin fps : ~ (fps == 0)%Q -> JS.truthy (JS.Fin fps) = true.
Proof.
  intros H. cbn. destruct (Qeq_bool fps 0) eqn:E; [|reflexivity].
  apply Qeq_bool_eq in E. contradiction.
Qed.



(** C7 (amended): [parseTime("00:01:30.500", 24)] is
    [0*3600 + 1*60 + 30 + 500/24]; and for every stamp with exactly three
    colon fields whose third field is [sec.frac], with [frac] a string of
    digits, and every finite nonzero frame rate, the result is hours, minutes
    and [sec] as seconds plus [frac], read as an integer, divided by the
    frame rate. *)
Theorem parseTime_fraction_is_frames :
  (exists v, parseTime "00:01:30.500" (Some (JS.Fin 24)) = Some (v, [])
             /\ (v == 0 * 3600 + 1 * 60 + 30 + 500 / 24)%Q)
  /\ forall stamp fps h m sec frac,
       JS.split ":" (JS.toLowerCase stamp) = [h; m; (sec ++ "." ++ frac)%string] ->
       JS.indexOf "." sec = None ->
       JS.allDigits frac = true ->
       ~ (fps == 0)%Q ->
       exists v ws,
         parseTime stamp (Some (JS.Fin fps)) = Some (v, ws)
         /\ (v == numOrZero h * 3600 + numOrZero m * 60 + numOrZero sec
                  + inject_Z (JS.decimalValue frac) / fps)%Q.
Proof.
  split.
  - eexists. split; [vm_compute; reflexivity | vm_compute; reflexivity].
  - intros stamp fps h m sec frac Hsplit Hsec Hfrac Hfps.
    destruct (parseTime_colon_fields stamp (Some (JS.Fin fps))) as [ws Hws].
    { rewrite Hsplit. cbn. lia. }
    rewrite Hws, Hsplit. clear Hws.
    cbn [fpsOrZero]. rewrite (truthy_Fin _ Hfps).
    unfold parseTime_colon.
    change ([h; m; (sec ++ "." ++ frac)%string] !! 2%nat)
      with (Some (sec ++ "." ++ frac)%string).
    cbv beta iota zeta.
    rewrite (indexOf_app_none "." sec ("." ++ frac) Hsec).
    change (JS.indexOf "." ("." ++ frac)) with (Some 0%nat).
    cbv beta iota zeta.
    rewrite Nat.add_0_r, substrTo_app.
    replace (JS.substrFrom (S (String.length sec)) (sec ++ "." ++ frac)) with frac.
    2:{ replace (S (String.length sec)) with (String.length sec + 1)%nat by lia.
        rewrite substrFrom_add, substrFrom_app. reflexivity. }
    cbn [app]. 
    change (<[2%nat:=sec]> [h; m; (sec ++ "." ++ frac)%string; frac])
      with [h; m; sec; frac].
    cbn [length Nat.leb]. rewrite (truthy_Fin _ Hfps).
    eexists. eexists. split; [reflexivity|].
    unfold partOrZero. cbn [lookup list_lookup divFps].
    rewrite (numOrZero_digits frac Hfrac). reflexivity.
Qed.


Lemma parseTime_fraction_is_frames_witness :
  exists v ws,
    parseTime "0:02:03.12" (Some (JS.Fin 4)) = Some (v, ws)
    /\ (v == numOrZero "0" * 3600 + numOrZero "02" * 60 + numOrZero "03"
             + inject_Z (JS.decimalValue "12") / 4)%Q.
Proof.
  apply (proj2 parseTime_fraction_is_frames "0:02:03.12" 4%Q "0" "02" "03" "12").
  - reflexivity.
  - reflexivity.
  - reflexivity.
  - intros H. discriminate H.
Defined.

(** C7 as stated fails with four colon fields: the fourth field is the
    frame count and the fractional digits of the seconds are dropped.
    [parseTime("0:0:1.5:7", 1)] is [1 + 7/1], not [1 + 5/1]. *)
Lemma parseTime_fourth_field_wins :
  exists v, parseTime "0:0:1.5:7" (Some (JS.Fin 1)) = Some (v, [])
            /\ (v == 8)%Q
            /\ ~ (v == 0 * 3600 + 0 * 60 + 1 + 5 / 1)%Q.
Proof.
  eexists. split; [vm_compute; reflexivity|]. split; [reflexivity|].
  intros H. vm_compute in H. discriminate H.
Qed.

(** ** The parser monad *)

Lemma bind_Ret {A B} (m : M A) (k : A -> M B) s b s' :
  bind m k s = Ret b s' -> exists a s1, m s = Ret a s1 /\ k a s1 = Ret b s'.
Proof.
  unfold bind. destruct (m s) as [a s1| |]; try discriminate. eauto.
Qed.

Lemma bind_eq {A B} (m : M A) (k : A -> M B) s a s1 :
  m s = Ret a s1 -> bind m k s = k a s1.
Proof. unfold bind. now intros ->. Qed.

Ltac inv_step :=
  match goal with
  | H : bind _ _ _ = Ret _ _ |- _ =>
      apply bind_Ret in H; destruct H as (? & ? & ? & H)
  | H : ret _ _ = Ret _ _ |- _ => unfold ret in H; inversion H; subst; clear H
  | H : throw _ _ = Ret _ _ |- _ => discriminate H
  | H : diverge _ = Ret _ _ |- _ => discriminate H
  | H : (if ?b then _ else _) _ = Ret _ _ |- _ => destruct b eqn:?
  | H : (let '(_, _) := ?p in _) _ = Ret _ _ |- _ => destruct p
  | H : match ?o with Some _ => _ | None => _ end _ = Ret _ _ |- _ => destruct o eqn:?
  end.

(** ** The value parser *)

Lemma checkOpen_Ret s tag s' rest t :
  input s = OpenTag t :: rest -> checkOpen s = Ret tag s' -> tag = t /\ s' = s.
Proof.
  unfold checkOpen. intros ->. intros H. inversion H. auto.
Qed.










(** C2 (the code departs from it): on the five placeholder tag names
    [parseValue] returns nothing, but on a tag name that no case of the
    switch names, such as [hermite], the [default] case breaks instead of
    returning, and [parseValue] returns a value of that type, with both
    modifiers read, without consuming the element. *)
Theorem parseValue_unrecognized_tag :
  forall fuel canvas s0 rest,
    let at_tag name := withInput (OpenTag (mkTag name []) :: rest) s0 in
    parseValue (S fuel) canvas (at_tag "hermite")
    = Ret (Some (mkValue "hermite" DUndefined (Some false) (Some UNDEFINED)))
          (at_tag "hermite")
    /\ parseValue (S fuel) canvas (at_tag "bline_point") = Ret None (at_tag "bline_point")
    /\ parseValue (S fuel) canvas (at_tag "guid") = Ret None (at_tag "guid")
    /\ parseValue (S fuel) canvas (at_tag "width_point") = Ret None (at_tag "width_point")
    /\ parseValue (S fuel) canvas (at_tag "dash_item") = Ret None (at_tag "dash_item")
    /\ parseValue (S fuel) canvas (at_tag "canvas") = Ret None (at_tag "canvas").
Proof.
  intros. repeat split; reflexivity.
Qed.

(** C4 (the code departs from it): on a well-formed segment whose four
    children are vectors, [parseValue] throws a ReferenceError at the
    first child, where the callback assigns to [col], a name that is not
    in scope; no segment value is returned.  A child of another name and
    a child that is not a vector are the errors the claim says. *)
Theorem parseValue_segment_throws :
  forall fuel canvas s0 p1 t1 p2 t2 rest,
    parseValue (5 + fuel) canvas
      (withInput (segmentElement p1 t1 p2 t2 ++ rest) s0)
    = Throw (ReferenceError "col")
    /\ parseValue (5 + fuel) canvas
         (withInput (OpenTag (mkTag "segment" [])
                     :: pointElement "p3" (fst p1) (snd p1) ++ rest) s0)
       = Throw (UnexpectedElement "segment" "p3")
    /\ parseValue (5 + fuel) canvas
         (withInput (OpenTag (mkTag "segment" []) :: OpenTag (mkTag "p1" [])
                     :: OpenTag (mkTag "guid" []) :: rest) s0)
       = Throw ExpectedVectorInSegment.
Proof.
  intros. repeat split; reflexivity.
Qed.

Lemma parseValueAttribute_eq s tag rest v :
  input s = OpenTag tag :: CloseTag (tagName tag) :: rest ->
  attributes tag !! "value" = Some v ->
  JS.nonempty v = true ->
  parseValueAttribute s = Ret v (withInput rest s).
Proof.
  intros Hin Hv Hne.
  unfold parseValueAttribute, expectOpen, bind, checkOpen, next, modify, expectClose.
  rewrite Hin. cbn -[String.eqb]. rewrite Hin. cbn -[String.eqb].
  rewrite String.eqb_refl, Hv, Hne. reflexivity.
Qed.

(** C9: on a [time] element with a [value] attribute, [parseValue] calls
    [parseTime] on the value with no frame rate, which is the same as the
    frame rate zero; the data of the result is that time, whatever the
    canvas and its [fps]. *)
Theorem parseValue_time_without_fps :
  forall fuel canvas s tag rest v,
    input s = OpenTag tag :: CloseTag "time" :: rest ->
    tagName tag = "time" ->
    attributes tag !! "value" = Some v ->
    JS.nonempty v = true ->
    parseValue (S fuel) canvas s
    = (let* t := parseTimeM v None in
       let* static := readStatic tag in
       let* interpolation := readInterpolation tag in
       ret (Some (mkValue "time" (DTime t) (Some static) (Some interpolation))))
        (withInput rest s)
    /\ parseTime v None = parseTime v (Some (JS.Fin 0)).
Proof.
  intros fuel canvas s tag rest v Hin Hname Hv Hne. split; [|reflexivity].
  cbn [parseValue].
  assert (Hc : checkOpen s = Ret tag s) by (unfold checkOpen; now rewrite Hin).
  rewrite (bind_eq _ _ _ _ _ Hc).
  unfold parseValue_switch. rewrite Hname. cbn [String.eqb Ascii.eqb Bool.eqb].
  rewrite <- Hname in Hin.
  pose proof (parseValueAttribute_eq s tag rest v Hin Hv Hne) as Hpva.
  unfold bind at 1. unfold bind at 1. rewrite Hpva.
  unfold bind. destruct (parseTimeM v None (withInput rest s)); reflexivity.
Qed.

Lemma strictNeq_spec a k : strictNeq a k = true <-> a <> Some k.
Proof.
  unfold strictNeq. destruct a as [v|]; [|split; [discriminate | reflexivity]].
  rewrite negb_true_iff, String.eqb_neq. split; congruence.
Qed.

Lemma parseTimeM_returns stamp fps s :
  exists t ws, parseTime stamp fps = Some (t, ws)
               /\ parseTimeM stamp fps s = Ret t (withWarnings (warnings s ++ ws) s).
Proof.
  destruct (parseTime_total stamp fps) as (t & ws & H).
  exists t, ws. split; [assumption|]. unfold parseTimeM. rewrite H. reflexivity.
Qed.

(** C10: on a [keyframe] element (with or without text) that has a
    [time] attribute, [parseKeyframe] returns a keyframe whose active flag
    is true exactly when the [active] attribute is neither [false] nor
    [0]: absent and unrecognised values give true, and nothing validates
    the attribute.  Without a [time] attribute it throws. *)
Theorem parseKeyframe_active :
  forall canvas s tag body rest,
    input s = OpenTag tag :: body ++ CloseTag "keyframe" :: rest ->
    tagName tag = "keyframe" ->
    body = [] \/ (exists t r, body = [TextNode t r]) ->
    (forall time, attributes tag !! "time" = Some time ->
       exists k s',
         parseKeyframe canvas s = Ret k s' /\ input s' = rest
         /\ (kfActive k = true <->
             attributes tag !! "active" <> Some "false"
             /\ attributes tag !! "active" <> Some "0"))
    /\ (attributes tag !! "time" = None ->
        parseKeyframe canvas s = Throw (MissingAttribute "keyframe" "time")).
Proof.
  intros canvas s tag body rest Hin Hname Hbody.
  assert (Hexp : expectName "keyframe" s
                 = Ret tag (withInput (body ++ CloseTag "keyframe" :: rest) s)).
  { unfold expectName, checkName, bind, checkOpen, next, modify.
    rewrite Hin, Hname. cbn. rewrite Hin. reflexivity. }
  split.
  - intros time Htime. unfold parseKeyframe.
    rewrite (bind_eq _ _ _ _ _ Hexp).
    unfold checkAttribute. rewrite Htime.
    unfold bind at 1. cbn [ret].
    unfold bind at 1. unfold canvasFps at 1.
    match goal with |- context [bind (parseTimeM time ?f) _ ?st] =>
      destruct (parseTimeM_returns time f st) as (t & ws & _ & Ht) end.
    rewrite (bind_eq _ _ _ _ _ Ht).
    unfold bind, nextText, expectClose, ret.
    cbn [input withInput withWarnings].
    destruct Hbody as [-> | (tx & r & ->)]; cbn;
      (eexists; eexists; split; [reflexivity|]; split; [reflexivity|]);
      cbn [kfActive Keyframe_create]; rewrite andb_true_iff, !strictNeq_spec; tauto.
  - intros Htime. unfold parseKeyframe.
    rewrite (bind_eq _ _ _ _ _ Hexp).
    unfold checkAttribute. rewrite Htime, Hname. reflexivity.
Qed.


Lemma parseValue_time_without_fps_witness :
  parseValue 1 0
    (Host.inRoot (Some (JS.Fin 25))
       [OpenTag (mkTag "time" [("value", "10f")]); CloseTag "time"])
  = Ret (Some (mkValue "time" (DTime 0) (Some false) (Some UNDEFINED)))
        (withWarnings [WFramesNoFps "10f"] (Host.inRoot (Some (JS.Fin 25)) [])).
Proof.
  rewrite (proj1 (parseValue_time_without_fps 0 0
             (Host.inRoot (Some (JS.Fin 25))
                [OpenTag (mkTag "time" [("value", "10f")]); CloseTag "time"])
             (mkTag "time" [("value", "10f")]) [] "10f"
             eq_refl eq_refl eq_refl eq_refl)).
  vm_compute. reflexivity.
Defined.

(** The same stamp in the [time] attribute of a keyframe of that canvas
    is divided by the frame rate of the canvas. *)
Example parseKeyframe_uses_canvas_fps :
  parseKeyframe (Some 0%nat)
    (Host.inRoot (Some (JS.Fin 25))
       [OpenTag (mkTag "keyframe" [("time", "10f")]); CloseTag "keyframe"])
  = Ret {| kfTime := (10 # 25)%Q; kfActive := true; kfDesc := EmptyString |}
        (Host.inRoot (Some (JS.Fin 25)) []).
Proof. vm_compute. reflexivity. Qed.

Lemma parseKeyframe_active_witness :
  let tag := mkTag "keyframe" [("time", "1s"); ("active", "maybe")] in
  let s := initialState [OpenTag tag; TextNode "intro" "intro"; CloseTag "keyframe"] in
  exists k s',
    parseKeyframe None s = Ret k s' /\ input s' = []
    /\ (kfActive k = true <->
        attributes tag !! "active" <> Some "false"
        /\ attributes tag !! "active" <> Some "0").
Proof.
  intros tag s.
  apply (proj1 (parseKeyframe_active None s tag [TextNode "intro" "intro"] []
                  eq_refl eq_refl
                  (or_intror (ex_intro _ "intro" (ex_intro _ "intro" eq_refl))))
               "1s" eq_refl).
Defined.

(** ** Canvases and value nodes *)

Lemma bind_assoc {A B C} (m : M A) (k : A -> M B) (h : B -> M C) s :
  bind (bind m k) h s = bind m (fun a => bind (k a) h) s.
Proof. unfold bind. destruct (m s); reflexivity. Qed.

Lemma skipTag_registry s s' : skipTag s = Ret tt s' -> registry s' = registry s /\ heap s' = heap s.
Proof.
  unfold skipTag. destruct (input s) as [|[t|n|t r] rest]; try discriminate.
  destruct (afterClose 0 rest); [|discriminate]. intros H. inversion H. auto.
Qed.

Section LoaderFacts.

Variable Guid_xor : string -> option string -> string.
Variable Guid_fresh : nat -> string.
Variable childCanvas_undefined : option string -> M Ref.
Variable parseAnimated : option (Ref -> M Ref).
Variable parseStaticList : option (Ref -> M Ref).
Variable parseDynamicList : option (Ref -> M Ref).
Variable parseLinkableValueNode : option (Ref -> M (option Ref)).

Local Abbreviation parseValueNode' :=
  (parseValueNode Guid_xor Guid_fresh childCanvas_undefined
     parseAnimated parseStaticList parseDynamicList parseLinkableValueNode).
Local Abbreviation parseCanvas' :=
  (parseCanvas Guid_xor Guid_fresh childCanvas_undefined
     parseAnimated parseStaticList parseDynamicList parseLinkableValueNode).

(** What the reference handling yields: a node found under the id of
    the element, or that id. *)
Lemma nodeReference_Ret canvas tag s r s1 :
  nodeReference Guid_xor Guid_fresh canvas (attributes tag) s = Ret r s1 ->
  match r with
  | inl n => registry s1 !! referenceId Guid_xor Guid_fresh canvas tag s = Some n
  | inr g => g = referenceId Guid_xor Guid_fresh canvas tag s
  end.
Proof.
  unfold nodeReference, referenceId.
  destruct (attributes tag !! "guid") as [g|].
  - destruct (JS.nonempty g).
    + unfold bind, rootGuid, Guid_exists, Guid_get.
      destruct (registry s !! Guid_xor g (rootGuidOf (heap s) canvas)) as [n|] eqn:Hreg.
      * destruct (skipTag s) as [[] s2| |] eqn:Hskip; try discriminate.
        apply skipTag_registry in Hskip as [Hr _]. rewrite Hr, Hreg.
        intros H. inversion H; subst. now rewrite Hr.
      * intros H. inversion H. reflexivity.
    + intros H. inversion H. reflexivity.
  - intros H. inversion H. reflexivity.
Qed.

Lemma whenAttr_registry attrs k canvas node s s' :
  whenAttr attrs k (fun id => Canvas_addValueNode canvas node id) s = Ret tt s' ->
  registry s' = registry s.
Proof.
  unfold whenAttr. destruct (attrs !! k) as [v|]; [destruct (JS.nonempty v)|];
    intros H; inversion H; reflexivity.
Qed.

Lemma parseValueNode_registers fuel canvas s tag rest n s1 :
  input s = OpenTag tag :: rest ->
  parseValueNode' fuel canvas s = Ret n s1 ->
  registry s1 !! referenceId Guid_xor Guid_fresh canvas tag s = Some n.
Proof.
  intros Hin H. destruct fuel as [|fuel]; [discriminate H|].
  cbn [parseValueNode] in H.
  apply bind_Ret in H as (t & s0 & Hc & H).
  destruct (checkOpen_Ret _ _ _ _ _ Hin Hc) as [-> ->].
  apply bind_Ret in H as (r & s2 & Href & H).
  apply nodeReference_Ret in Href.
  destruct r as [node | g].
  - inversion H; subst. exact Href.
  - subst g.
    apply bind_Ret in H as (value & s3 & _ & H).
    apply bind_Ret in H as (node & s4 & _ & H).
    apply bind_Ret in H as ([] & s5 & Hid & H).
    apply bind_Ret in H as ([] & s6 & Hset & H).
    inversion H; subst. inversion Hset; subst.
    cbn. apply lookup_insert_eq.
Qed.

Lemma parseValueNode_alias fuel canvas s tag rest g n :
  input s = OpenTag tag :: rest ->
  attributes tag !! "guid" = Some g ->
  JS.nonempty g = true ->
  registry s !! Guid_xor g (rootGuidOf (heap s) canvas) = Some n ->
  parseValueNode' (S fuel) canvas s = (skipTag ;;; ret n) s.
Proof.
  intros Hin Hg Hne Hreg.
  cbn [parseValueNode].
  assert (Hc : checkOpen s = Ret tag s) by (unfold checkOpen; now rewrite Hin).
  rewrite (bind_eq _ _ _ _ _ Hc).
  unfold nodeReference. rewrite Hg, Hne.
  unfold bind, rootGuid, Guid_exists, Guid_get. rewrite Hreg.
  destruct (skipTag s) as [[] s2| |] eqn:Hskip; try reflexivity.
  apply skipTag_registry in Hskip as [Hr _]. rewrite Hr, Hreg. reflexivity.
Qed.

(** C1: a value node that [parseValueNode] returns is registered
    under its reference id, the transformed [guid] attribute or a
    generated id.  An element met while the registry still holds that
    node under the same transformed id, in particular the next element,
    is not parsed: [parseValueNode] skips its subtree and returns the
    registered node, the same object, and changes nothing else. *)
Theorem parseValueNode_shared_reference :
  forall fuel canvas s tag rest n s1,
    input s = OpenTag tag :: rest ->
    parseValueNode' fuel canvas s = Ret n s1 ->
    registry s1 !! referenceId Guid_xor Guid_fresh canvas tag s = Some n
    /\ forall fuel2 canvas2 s2 tag2 rest2 g2,
         registry s2 !! referenceId Guid_xor Guid_fresh canvas tag s = Some n ->
         input s2 = OpenTag tag2 :: rest2 ->
         attributes tag2 !! "guid" = Some g2 ->
         JS.nonempty g2 = true ->
         Guid_xor g2 (rootGuidOf (heap s2) canvas2)
         = referenceId Guid_xor Guid_fresh canvas tag s ->
         parseValueNode' (S fuel2) canvas2 s2 = (skipTag ;;; ret n) s2.
Proof.
  intros fuel canvas s tag rest n s1 Hin H. split.
  - eapply parseValueNode_registers; eauto.
  - intros fuel2 canvas2 s2 tag2 rest2 g2 Hreg Hin2 Hg2 Hne2 Hid.
    eapply parseValueNode_alias; eauto. now rewrite Hid.
Qed.

(** C5 (the code departs from it): with a parent and not inline,
    [parseCanvas] creates the canvas by [Canvas.childCanvas(undefined,
    id)]: the parent passed to [parseCanvas] is not handed on, and the
    whole parse is the same for every parent. *)
Theorem parseCanvas_child_ignores_parent :
  forall fuel p attrs,
    createCanvas childCanvas_undefined (Some p) false attrs
    = childCanvas_undefined (attrs !! "id")
    /\ forall p', parseCanvas' fuel (Some p) false = parseCanvas' fuel (Some p') false.
Proof.
  intros fuel p attrs. split; [reflexivity|].
  intros p'. destruct fuel; reflexivity.
Qed.


End LoaderFacts.

Lemma parseValueNode_shared_reference_witness :
  let first := mkTag "real" [("guid", "A"); ("value", "1.5")] in
  let second := mkTag "real" [("guid", "A"); ("value", "2.5")] in
  let s := Host.inRoot None
             [OpenTag first; CloseTag "real"; OpenTag second; CloseTag "real"] in
  exists s1,
    Host.parseValueNode 2 0 s = Ret 1%nat s1
    /\ registry s1 !! "A^R" = Some 1%nat
    /\ Host.parseValueNode 1 0 s1 = Ret 1%nat (withInput [] s1).
Proof.
  intros first second s.
  eexists. split; [vm_compute; reflexivity|].
  match goal with |- registry ?s1 !! _ = _ /\ _ =>
    destruct (parseValueNode_shared_reference Host.xor Host.fresh
                Host.childCanvas_undefined None None None None
                2 0 s first [CloseTag "real"; OpenTag second; CloseTag "real"]
                1%nat s1 eq_refl ltac:(vm_compute; reflexivity)) as [Hreg Halias]
  end.
  split; [exact Hreg|].
  unfold Host.parseValueNode.
  rewrite (Halias 0 0 _ second [CloseTag "real"] "A" Hreg eq_refl eq_refl eq_refl eq_refl).
  vm_compute. reflexivity.
Defined.


(** An inline canvas with a keyframe and a name: the keyframe is dropped
    with a warning and the name is read. *)
Example inline_canvas_keyframe_then_name :
  exists s',
    Host.parseCanvas 4 None true
      (initialState
         [OpenTag (mkTag "canvas" []);
          OpenTag (mkTag "keyframe" [("time", "0")]); CloseTag "keyframe";
          OpenTag (mkTag "name" []); TextNode "sky" "sky"; CloseTag "name";
          CloseTag "canvas"])
    = Ret 0%nat s'
    /\ input s' = [] /\ warnings s' = [WInlineKeyframes]
    /\ (forall c, canvasAt (heap s') 0 = Some c ->
          props c !! "name" = Some (PStr "sky") /\ keyframes c = []).
Proof.
  eexists. split; [vm_compute; reflexivity|].
  split; [reflexivity|]. split; [reflexivity|].
  intros c Hc. vm_compute in Hc. inversion Hc; subst. split; vm_compute; reflexivity.
Qed.

(** An inline canvas with definitions is refused. *)
Example inline_canvas_defs :
  Host.parseCanvas 3 None true
    (initialState
       [OpenTag (mkTag "canvas" []); OpenTag (mkTag "defs" []); CloseTag "defs";
        CloseTag "canvas"])
  = Throw InlineDefs.
Proof. vm_compute. reflexivity. Qed.

(** The start time of a canvas is parsed with the frame rate of the
    canvas. *)
Example canvas_start_time_uses_fps :
  exists s',
    Host.parseCanvas 2 None false
      (initialState
         [OpenTag (mkTag "canvas" [("fps", "25"); ("begin-time", "10f")]);
          CloseTag "canvas"])
    = Ret 0%nat s'
    /\ (forall c, canvasAt (heap s') 0 = Some c ->
          props c !! "timeStart" = Some (PTime (10 # 25))).
Proof.
  eexists. split; [vm_compute; reflexivity|].
  intros c Hc. vm_compute in Hc. inversion Hc; subst. vm_compute. reflexivity.
Qed.

(** * Further properties *)

(** ** The timestamp parser: notations *)

Lemma lowerChar_idempotent c : JS.lowerChar (JS.lowerChar c) = JS.lowerChar c.
Proof.
  unfold JS.lowerChar at 2 3. destruct (JS.isUpper c) eqn:Hc; unfold JS.lowerChar.
  - unfold JS.isUpper in *. apply andb_prop in Hc as [H1 H2].
    apply Nat.leb_le in H1, H2.
    rewrite nat_ascii_embedding by lia.
    replace (nat_of_ascii c + 32 <=? 90)%nat with false
      by (symmetry; apply Nat.leb_gt; lia).
    rewrite andb_false_r. reflexivity.
  - now rewrite Hc.
Qed.

Lemma toLowerCase_idempotent s : JS.toLowerCase (JS.toLowerCase s) = JS.toLowerCase s.
Proof.
  induction s as [|c s IH]; cbn; [reflexivity|].
  now rewrite lowerChar_idempotent, IH.
Qed.

(** X1: [parseTime] reads the stamp in lower case, so the case of the
    letters of a stamp never matters; [sot] and [bot] in any case give
    the beginning of time and [eot] the end of time, whatever the frame
    rate, without a warning. *)
Theorem parseTime_case_insensitive :
  (forall stamp fps, parseTime (JS.toLowerCase stamp) fps = parseTime stamp fps)
  /\ (forall stamp fps,
        JS.toLowerCase stamp = "sot" \/ JS.toLowerCase stamp = "bot" ->
        parseTime stamp fps = Some ((- (32767 * 512))%Q, []))
  /\ (forall stamp fps,
        JS.toLowerCase stamp = "eot" ->
        parseTime stamp fps = Some ((32767 * 512)%Q, [])).
Proof.
  split; [|split].
  - intros stamp fps. unfold parseTime. now rewrite toLowerCase_idempotent.
  - intros stamp fps [H | H]; unfold parseTime; rewrite H; reflexivity.
  - intros stamp fps H. unfold parseTime. rewrite H. reflexivity.
Qed.

Lemma parseTime_case_insensitive_witness :
  parseTime "Bot" (Some (JS.Fin 24)) = Some ((- (32767 * 512))%Q, []).
Proof.
  apply (proj1 (proj2 parseTime_case_insensitive) "Bot" (Some (JS.Fin 24))).
  right. reflexivity.
Defined.

Lemma toLowerCase_app (a b : string) :
  JS.toLowerCase (a ++ b) = (JS.toLowerCase a ++ JS.toLowerCase b)%string.
Proof.
  induction a as [|c a IH]; rewrite ?append_nil, ?append_cons; cbn; [reflexivity|].
  now rewrite IH.
Qed.

Lemma isDigit_not_upper c : JS.isDigit c = true -> JS.isUpper c = false.
Proof.
  unfold JS.isDigit, JS.isUpper. intros H. apply andb_prop in H as [_ H].
  apply Nat.leb_le in H. apply andb_false_intro1. apply Nat.leb_gt. lia.
Qed.

Lemma toLowerCase_digits d : JS.allDigits d = true -> JS.toLowerCase d = d.
Proof.
  induction d as [|c d IH]; cbn; [reflexivity|].
  intros H. apply andb_prop in H as [Hc Hd].
  unfold JS.lowerChar. now rewrite (isDigit_not_upper _ Hc), IH.
Qed.

Lemma indexOf_digits c d :
  JS.isDigit c = false -> JS.allDigits d = true -> JS.indexOf c d = None.
Proof.
  intros Hc. induction d as [|e d IH]; cbn; [reflexivity|].
  intros H. apply andb_prop in H as [He Hd].
  rewrite (isDigit_neq e c He Hc), (IH Hd). reflexivity.
Qed.

(** A stamp without the letter [o] is none of the three sentinels. *)
Lemma not_sentinel s :
  JS.indexOf "o" s = None ->
  String.eqb s "sot" || String.eqb s "bot" = false /\ String.eqb s "eot" = false.
Proof.
  intros H.
  assert (forall k, JS.indexOf "o" k = Some 1%nat -> String.eqb s k = false) as Hk.
  { intros k Hk. destruct (String.eqb s k) eqn:E; [|reflexivity].
    apply String.eqb_eq in E. congruence. }
  rewrite !Hk by reflexivity. auto.
Qed.

Lemma takeDigits_app d rest :
  JS.allDigits d = true ->
  match rest with
  | EmptyString => True
  | String c _ => JS.isDigit c = false
  end ->
  JS.takeDigits (d ++ rest) = (d, rest).
Proof.
  intros Hd Hrest. induction d as [|c d IH]; rewrite ?append_nil, ?append_cons.
  - destruct rest as [|c r]; [reflexivity|]. cbn. now rewrite Hrest.
  - cbn in Hd. apply andb_prop in Hd as [Hc Hd]. cbn. now rewrite Hc, (IH Hd).
Qed.

Lemma timeRegexExec_digits d rest :
  JS.allDigits d = true -> stopsRun rest -> timeRegexExec (d ++ rest) = Some d.
Proof.
  intros Hd Hrest. unfold timeRegexExec.
  assert (Hminus : JS.takeChar "-" (d ++ rest) = (false, (d ++ rest)%string)).
  { destruct d as [|c d]; rewrite ?append_nil, ?append_cons.
    - destruct rest as [|c r]; [reflexivity|]. cbn. destruct Hrest as (_ & -> & _). reflexivity.
    - cbn in Hd. apply andb_prop in Hd as [Hc _]. cbn.
      now rewrite (isDigit_neq c "-" Hc eq_refl). }
  rewrite Hminus, (takeDigits_app d rest Hd).
  2:{ destruct rest; [exact I | apply Hrest]. }
  assert (Hdot : JS.takeChar "." rest = (false, rest)).
  { destruct rest as [|c r]; [reflexivity|]. cbn. destruct Hrest as (_ & _ & ->). reflexivity. }
  rewrite Hdot.
  assert (Hd2 : JS.takeDigits rest = (EmptyString, rest)).
  { destruct rest as [|c r]; [reflexivity|]. cbn. destruct Hrest as (-> & _). reflexivity. }
  rewrite Hd2. rewrite !append_nil, append_empty_r. reflexivity.
Qed.

Lemma Qeq_bool_proper a b c : (a == b)%Q -> Qeq_bool a c = Qeq_bool b c.
Proof.
  intros H. destruct (Qeq_bool a c) eqn:Ea, (Qeq_bool b c) eqn:Eb; try reflexivity.
  - apply Qeq_bool_iff in Ea. rewrite H in Ea. apply Qeq_bool_iff in Ea. congruence.
  - apply Qeq_bool_iff in Eb. rewrite <- H in Eb. apply Qeq_bool_iff in Eb. congruence.
Qed.

Lemma divFps_proper a b fps : (a == b)%Q -> (divFps a fps == divFps b fps)%Q.
Proof.
  intros H. destruct fps; cbn; [reflexivity | reflexivity | now rewrite H].
Qed.

(** X3: on a stamp that is a whole number without a unit, [parseTime]
    returns zero without a warning when the number is zero; otherwise it
    takes the number for frames when a frame rate is known and for
    seconds when none is, and prints the matching warning. *)
Theorem parseTime_bare_number :
  forall d fps,
    JS.allDigits d = true ->
    let n := inject_Z (JS.decimalValue d) in
    exists v ws,
      parseTime d fps = Some (v, ws)
      /\ (if Qeq_bool n 0 then (v == 0)%Q /\ ws = []
          else if JS.truthy (fpsOrZero fps)
               then (v == divFps n (fpsOrZero fps))%Q /\ ws = [WNoUnitFrames d]
               else (v == n)%Q /\ ws = [WNoUnitSeconds d]).
Proof.
  intros d fps Hd n. unfold parseTime.
  rewrite (toLowerCase_digits d Hd).
  destruct (not_sentinel d (indexOf_digits "o" d eq_refl Hd)) as [-> ->].
  cbn [parseTime_loop].
  destruct (String.length d <=? 0)%nat eqn:Hlen.
  { assert (d = EmptyString) as -> by (destruct d; [reflexivity | discriminate Hlen]).
    exists 0%Q, []. split; [reflexivity|]. cbn. split; reflexivity. }
  change (JS.substrFrom 0 d) with d.
  pose proof (timeRegexExec_digits d EmptyString Hd I) as Hm.
  rewrite append_empty_r in Hm. rewrite Hm.
  cbn [Nat.add]. rewrite Nat.leb_refl. cbn [orb].
  rewrite (Qeq_bool_proper _ _ 0%Q (numOrZero_digits d Hd)). fold n.
  destruct (Qeq_bool n 0); cbn [negb].
  - eexists _, _. split; [reflexivity|]. split; reflexivity.
  - destruct (JS.truthy (fpsOrZero fps)).
    + eexists _, _. split; [reflexivity|]. split; [|reflexivity].
      rewrite Qplus_0_l. apply divFps_proper. apply numOrZero_digits, Hd.
    + eexists _, _. split; [reflexivity|]. split; [|reflexivity].
      rewrite Qplus_0_l. apply numOrZero_digits, Hd.
Qed.

Lemma parseTime_bare_number_witness :
  exists v ws,
    parseTime "48" (Some (JS.Fin 24)) = Some (v, ws)
    /\ (v == divFps (inject_Z (JS.decimalValue "48")) (JS.Fin 24))%Q
    /\ ws = [WNoUnitFrames "48"].
Proof.
  exact (parseTime_bare_number "48" (Some (JS.Fin 24)) eq_refl).
Defined.

Lemma unitCode_stopsRun u r : stopsRun (unitCode u ++ r).
Proof.
  destruct u; cbn [unitCode]; rewrite append_cons; cbn; auto.
Qed.

Lemma unitStamp_no_o l :
  Forall (fun p => JS.allDigits (fst p) = true) l -> JS.indexOf "o" (unitStamp l) = None.
Proof.
  induction 1 as [|[d u] l Hd _ IH]; [reflexivity|]. cbn [unitStamp fst] in *.
  rewrite (indexOf_app_none "o" d _ (indexOf_digits "o" d eq_refl Hd)).
  rewrite (indexOf_app_none "o" (unitCode u)) by (destruct u; reflexivity).
  now rewrite IH.
Qed.

Lemma unitStamp_lowercase l :
  Forall (fun p => JS.allDigits (fst p) = true) l ->
  JS.toLowerCase (unitStamp l) = unitStamp l.
Proof.
  induction 1 as [|[d u] l Hd _ IH]; [reflexivity|]. cbn [unitStamp fst] in *.
  rewrite !toLowerCase_app, (toLowerCase_digits d Hd), IH.
  destruct u; reflexivity.
Qed.

(** The loop on the unit notation: each amount is added with the weight
    of its unit, and the loop ends with the stamp. *)
Lemma parseTime_loop_units fps :
  forall l pre stamp fuel value ws,
    Forall (fun p => JS.allDigits (fst p) = true) l ->
    stamp = (pre ++ unitStamp l)%string ->
    (String.length (unitStamp l) < fuel)%nat ->
    exists v,
      parseTime_loop fuel stamp fps (String.length pre) value ws
      = Some (v, ws ++ unitWarnings fps stamp l)
      /\ (v == value + unitTotal fps l)%Q.
Proof.
  induction l as [|[d u] l IH]; intros pre stamp fuel value ws Hall Hstamp Hfuel.
  - destruct fuel as [|fuel]; [lia|]. cbn [parseTime_loop].
    cbn [unitStamp] in Hstamp. rewrite append_empty_r in Hstamp. subst stamp.
    rewrite Nat.leb_refl. exists value. split.
    + unfold unitWarnings. cbn. destruct (JS.truthy fps); now rewrite app_nil_r.
    + cbn. now rewrite Qplus_0_r.
  - inversion Hall as [|? ? Hd Hl]; subst. cbn [fst] in Hd.
    cbn [unitStamp] in Hfuel. rewrite !length_app_string in Hfuel.
    assert (Hcode : String.length (unitCode u) = 1%nat) by (destruct u; reflexivity).
    destruct fuel as [|fuel]; [lia|]. cbn [parseTime_loop].
    cbn [unitStamp].
    set (stamp := (pre ++ d ++ unitCode u ++ unitStamp l)%string).
    assert (Hlen : String.length stamp
                   = (String.length pre + String.length d + 1 + String.length (unitStamp l))%nat).
    { unfold stamp. rewrite !length_app_string, Hcode. lia. }
    replace (String.length stamp <=? String.length pre)%nat with false
      by (symmetry; apply Nat.leb_gt; lia).
    assert (Hsub : JS.substrFrom (String.length pre) stamp
                   = (d ++ unitCode u ++ unitStamp l)%string)
      by (unfold stamp; apply substrFrom_app).
    rewrite Hsub, (timeRegexExec_digits d _ Hd (unitCode_stopsRun u _)).
    replace (String.length stamp <=? String.length pre + String.length d)%nat with false
      by (symmetry; apply Nat.leb_gt; lia).
    cbn [orb].
    assert (Hchar : JS.charAt (String.length pre + String.length d) stamp = unitCode u).
    { rewrite charAt_substrFrom, substrFrom_add, Hsub, substrFrom_app.
      destruct u; reflexivity. }
    rewrite Hchar.
    assert (Hnext : S (String.length pre + String.length d)
                    = String.length (pre ++ d ++ unitCode u)).
    { rewrite !length_app_string, Hcode. lia. }
    assert (Hpre : stamp = ((pre ++ d ++ unitCode u) ++ unitStamp l)%string).
    { unfold stamp. now rewrite !append_assoc. }
    rewrite Hnext.
    pose proof (numOrZero_digits d Hd) as Hnum.
    destruct u; cbn [unitCode String.eqb Ascii.eqb Bool.eqb unitTotal unitSeconds].
    + destruct (IH _ stamp fuel (value + numOrZero d * 3600)%Q ws Hl Hpre ltac:(lia))
        as (v & Hv & Heq).
      exists v. split; [exact Hv|]. rewrite Heq, Hnum. ring.
    + destruct (IH _ stamp fuel (value + numOrZero d * 60)%Q ws Hl Hpre ltac:(lia))
        as (v & Hv & Heq).
      exists v. split; [exact Hv|]. rewrite Heq, Hnum. ring.
    + destruct (IH _ stamp fuel (value + numOrZero d)%Q ws Hl Hpre ltac:(lia))
        as (v & Hv & Heq).
      exists v. split; [exact Hv|]. rewrite Heq, Hnum. ring.
    + unfold unitWarnings. destruct (JS.truthy fps) eqn:Hfps.
      * destruct (IH _ stamp fuel (value + divFps (numOrZero d) fps)%Q ws Hl Hpre ltac:(lia))
          as (v & Hv & Heq).
        exists v. split.
        { unfold unitWarnings in Hv. rewrite Hfps in Hv. exact Hv. }
        rewrite Heq, (divFps_proper _ _ fps Hnum). ring.
      * destruct (IH _ stamp fuel value (ws ++ [WFramesNoFps stamp]) Hl Hpre ltac:(lia))
          as (v & Hv & Heq).
        exists v. split.
        { unfold unitWarnings in Hv. rewrite Hfps, <- app_assoc in Hv. exact Hv. }
        rewrite Heq. ring.
Qed.

(** X2: on a stamp in unit notation, whole amounts each followed by one
    of the unit codes [h], [m], [s], [f], [parseTime] returns the sum of
    the amounts in seconds, frames being divided by the frame rate.
    Without a frame rate the frames count for nothing and each amount of
    frames prints one warning; nothing else is printed. *)
Theorem parseTime_unit_notation :
  forall l fps,
    Forall (fun p => JS.allDigits (fst p) = true) l ->
    exists v,
      parseTime (unitStamp l) fps
      = Some (v, unitWarnings (fpsOrZero fps) (unitStamp l) l)
      /\ (v == unitTotal (fpsOrZero fps) l)%Q.
Proof.
  intros l fps Hall. unfold parseTime.
  rewrite (unitStamp_lowercase l Hall).
  destruct (not_sentinel _ (unitStamp_no_o l Hall)) as [-> ->].
  destruct (parseTime_loop_units (fpsOrZero fps) l EmptyString (unitStamp l)
              (S (String.length (unitStamp l))) 0%Q [] Hall eq_refl ltac:(lia))
    as (v & Hv & Heq).
  exists v. split; [exact Hv|]. rewrite Heq. ring.
Qed.

Lemma parseTime_unit_notation_witness :
  exists v,
    parseTime "2m30s10f" (Some (JS.Fin 25)) = Some (v, [])
    /\ (v == unitTotal (JS.Fin 25) [("2", Minutes); ("30", Seconds); ("10", Frames)])%Q.
Proof.
  apply (parseTime_unit_notation [("2", Minutes); ("30", Seconds); ("10", Frames)]
           (Some (JS.Fin 25))).
  repeat constructor.
Defined.

(** X4: on a stamp with at least three fields between colons whose
    third field has no decimal point, [parseTime] returns hours, minutes
    and seconds added up, whatever came before the first colon was
    reached; a fourth field is added as frames when a frame rate is
    known, and is dropped with a warning as the last one when none is. *)
Theorem parseTime_timecode :
  forall stamp fps h m s more,
    JS.split ":" (JS.toLowerCase stamp) = h :: m :: s :: more ->
    JS.indexOf "." s = None ->
    let base := (numOrZero h * 3600 + numOrZero m * 60 + numOrZero s)%Q in
    exists v ws,
      parseTime stamp fps = Some (v, ws)
      /\ match more with
         | [] => (v == base)%Q
         | f :: _ =>
             if JS.truthy (fpsOrZero fps)
             then (v == base + divFps (numOrZero f) (fpsOrZero fps))%Q
             else (v == base)%Q
                  /\ exists ws0, ws = ws0 ++ [WFramesNoFps (JS.toLowerCase stamp)]
         end.
Proof.
  intros stamp fps h m s more Hsplit Hdot base.
  destruct (parseTime_colon_fields stamp fps) as [ws0 Hws].
  { rewrite Hsplit. cbn. lia. }
  rewrite Hws, Hsplit. clear Hws.
  unfold parseTime_colon.
  change ((h :: m :: s :: more) !! 2%nat) with (Some s).
  cbv beta iota zeta. rewrite Hdot.
  unfold partOrZero.
  change ((h :: m :: s :: more) !! 0%nat) with (Some h).
  change ((h :: m :: s :: more) !! 1%nat) with (Some m).
  change ((h :: m :: s :: more) !! 2%nat) with (Some s).
  destruct more as [|f more].
  - cbn [length Nat.leb]. eexists _, _. split; reflexivity.
  - change ((h :: m :: s :: f :: more) !! 3%nat) with (Some f).
    cbn [length Nat.leb].
    destruct (JS.truthy (fpsOrZero fps)).
    + eexists _, _. split; reflexivity.
    + eexists _, _. split; [reflexivity|]. split; [reflexivity|]. eauto.
Qed.

Lemma parseTime_timecode_witness :
  exists v ws,
    parseTime "1h01:02:03:12" (Some (JS.Fin 24)) = Some (v, ws)
    /\ (v == numOrZero "1h01" * 3600 + numOrZero "02" * 60 + numOrZero "03"
             + divFps (numOrZero "12") (JS.Fin 24))%Q.
Proof.
  exact (parseTime_timecode "1h01:02:03:12" (Some (JS.Fin 24))
           "1h01" "02" "03" ["12"] eq_refl eq_refl).
Defined.

(** ** The value parser only reads *)

Lemma readsOnly_refl s : readsOnly s s.
Proof. unfold readsOnly. repeat split; reflexivity. Qed.

Lemma readsOnly_trans s1 s2 s3 : readsOnly s1 s2 -> readsOnly s2 s3 -> readsOnly s1 s3.
Proof.
  unfold readsOnly. intros (H1 & H2 & H3 & H4 & H5) (K1 & K2 & K3 & K4 & K5).
  repeat split; try congruence; etransitivity; eassumption.
Qed.

Lemma keeps_ret {A} (a : A) : keeps (ret a).
Proof. intros s b s' H. inversion H; subst. apply readsOnly_refl. Qed.

Lemma keeps_throw {A} e : keeps (@throw A e).
Proof. intros s b s' H. discriminate H. Qed.

Lemma keeps_diverge {A} : keeps (@diverge A).
Proof. intros s b s' H. discriminate H. Qed.

Lemma keeps_bind {A B} (m : M A) (k : A -> M B) :
  keeps m -> (forall a, keeps (k a)) -> keeps (bind m k).
Proof.
  intros Hm Hk s b s' H. apply bind_Ret in H as (a & s1 & H1 & H2).
  eapply readsOnly_trans; [eapply Hm | eapply Hk]; eassumption.
Qed.

Lemma keeps_withInput s i : suffix i (input s) -> readsOnly s (withInput i s).
Proof. intros H. unfold readsOnly. cbn. repeat split; [exact H | reflexivity]. Qed.

Lemma keeps_checkOpen : keeps checkOpen.
Proof.
  intros s a s'. unfold checkOpen.
  destruct (input s) as [|[t|n|t r] rest]; try discriminate.
  intros H. inversion H; subst. apply readsOnly_refl.
Qed.

Lemma keeps_next : keeps next.
Proof.
  intros s a s' H. inversion H; subst. apply keeps_withInput.
  destruct (input s); [reflexivity|]. cbn. apply suffix_cons_r. reflexivity.
Qed.

Lemma keeps_expectClose name : keeps (expectClose name).
Proof.
  intros s a s'. unfold expectClose.
  destruct (input s) as [|[t|n|t r] rest] eqn:Hin; try discriminate.
  destruct (String.eqb n name); [|discriminate].
  intros H. inversion H; subst. apply keeps_withInput. rewrite Hin.
  apply suffix_cons_r. reflexivity.
Qed.

Lemma keeps_nextText : keeps nextText.
Proof.
  intros s a s'. unfold nextText.
  destruct (input s) as [|[t|n|t r] rest] eqn:Hin; intros H; inversion H; subst;
    try apply readsOnly_refl.
  apply keeps_withInput. rewrite Hin. apply suffix_cons_r. reflexivity.
Qed.

Lemma afterClose_suffix l : forall depth r, afterClose depth l = Some r -> suffix r l.
Proof.
  induction l as [|[t|n|t x] l IH]; intros depth r; cbn; try discriminate.
  - intros H. apply suffix_cons_r. eapply IH; eauto.
  - destruct depth.
    + intros H. inversion H; subst. apply suffix_cons_r. reflexivity.
    + intros H. apply suffix_cons_r. eapply IH; eauto.
  - intros H. apply suffix_cons_r. eapply IH; eauto.
Qed.

Lemma keeps_skipTag : keeps skipTag.
Proof.
  intros s a s'. unfold skipTag.
  destruct (input s) as [|[t|n|t r] rest] eqn:Hin; try discriminate.
  destruct (afterClose 0 rest) as [r'|] eqn:Hr; [|discriminate].
  intros H. inversion H; subst. apply keeps_withInput. rewrite Hin.
  apply suffix_cons_r. eapply afterClose_suffix; eauto.
Qed.

Lemma keeps_warnAll ws : keeps (warnAll ws).
Proof.
  intros s a s' H. inversion H; subst. unfold readsOnly. cbn.
  repeat split; [reflexivity | apply prefix_app_r; reflexivity].
Qed.

Lemma keeps_warn w : keeps (warn w).
Proof. exact (keeps_warnAll [w]). Qed.

Create HintDb keeps.
#[local] Hint Resolve keeps_ret keeps_throw keeps_diverge keeps_checkOpen keeps_next
  keeps_expectClose keeps_nextText keeps_skipTag keeps_warnAll keeps_warn : keeps.

Ltac keeps_step :=
  match goal with
  | |- keeps (bind _ _) => apply keeps_bind; [|intros ?]
  | |- keeps (if ?b then _ else _) => destruct b
  | |- keeps (match ?x with _ => _ end) => destruct x
  | |- keeps _ => solve [auto with keeps]
  end.

Ltac keeps_auto := cbv zeta; repeat keeps_step.

Lemma keeps_expectOpen : keeps expectOpen.
Proof. unfold expectOpen. keeps_auto. Qed.

Lemma keeps_checkName name : keeps (checkName name).
Proof. unfold checkName. keeps_auto. Qed.

#[local] Hint Resolve keeps_expectOpen keeps_checkName : keeps.

Lemma keeps_expectName name : keeps (expectName name).
Proof. unfold expectName. keeps_auto. Qed.

Lemma keeps_parseTimeM stamp fps : keeps (parseTimeM stamp fps).
Proof. unfold parseTimeM. destruct (parseTime stamp fps) as [[v ws]|]; keeps_auto. Qed.

Lemma keeps_readStatic tag : keeps (readStatic tag).
Proof. unfold readStatic. keeps_auto. Qed.

Lemma keeps_readInterpolation tag : keeps (readInterpolation tag).
Proof. unfold readInterpolation. keeps_auto. Qed.

Lemma keeps_dataOf v : keeps (dataOf v).
Proof. unfold dataOf. keeps_auto. Qed.

#[local] Hint Resolve keeps_expectName keeps_parseTimeM keeps_readStatic
  keeps_readInterpolation keeps_dataOf : keeps.

Lemma keeps_parseValueAttribute : keeps parseValueAttribute.
Proof. unfold parseValueAttribute. keeps_auto. Qed.

#[local] Hint Resolve keeps_parseValueAttribute : keeps.

Lemma keeps_loopChildren {A} fuel (cb : A -> M A) :
  (forall acc, keeps (cb acc)) -> forall acc, keeps (loopChildren fuel cb acc).
Proof.
  intros Hcb. induction fuel as [|fuel IH]; intros acc; [apply keeps_diverge|].
  intros s a s'. cbn [loopChildren].
  destruct (input s) as [|[t|n|t r] rest] eqn:Hin; try discriminate;
    try (apply keeps_bind; [apply Hcb | exact IH]).
  intros H. inversion H; subst. apply readsOnly_refl.
Qed.

Lemma keeps_loopTag {A} fuel (cb : A -> M A) name acc :
  (forall acc, keeps (cb acc)) -> keeps (loopTag fuel cb name acc).
Proof.
  intros Hcb. unfold loopTag.
  apply keeps_bind; [destruct name; auto with keeps|]. intros tag.
  apply keeps_bind; [now apply keeps_loopChildren|]. intros acc'.
  keeps_auto.
Qed.

Lemma keeps_parseValue_switch rec fuel canvas tag :
  (forall c, keeps (rec c)) -> keeps (parseValue_switch rec fuel canvas tag).
Proof.
  intros Hrec. unfold parseValue_switch. cbv zeta.
  repeat match goal with
         | |- keeps (if ?b then _ else _) => destruct b
         end;
    try (apply keeps_bind; [apply keeps_loopTag; intros acc|intros ?]);
    try solve [keeps_auto].
  - unfold vectorChild. keeps_auto.
  - unfold colorChild. keeps_auto.
  - unfold segmentChild, col_unbound. keeps_auto; apply Hrec.
  - unfold gradientChild. keeps_auto; apply Hrec.
  - unfold transformationChild. destruct acc as [[[o a] k] sc]. keeps_auto; apply Hrec.
  - unfold listChild. keeps_auto; apply Hrec.
Qed.

Lemma keeps_parseValue fuel : forall canvas, keeps (parseValue fuel canvas).
Proof.
  induction fuel as [|fuel IH]; intros canvas; [apply keeps_diverge|].
  cbn [parseValue].
  apply keeps_bind; [auto with keeps|]. intros tag.
  apply keeps_bind; [now apply keeps_parseValue_switch|]. intros c.
  keeps_auto.
Qed.

(** X5: [parseValue] only reads.  When it returns, the heap, the
    registry and the count of generated ids are as before, what is left
    of the input is an end of the input it was given, and the warnings
    printed before are the beginning of the warnings after. *)
Theorem parseValue_reads_only :
  forall fuel canvas s v s',
    parseValue fuel canvas s = Ret v s' ->
    heap s' = heap s /\ registry s' = registry s /\ generated s' = generated s
    /\ suffix (input s') (input s) /\ prefix (warnings s) (warnings s').
Proof.
  intros fuel canvas s v s' H. exact (keeps_parseValue fuel canvas s v s' H).
Qed.

Lemma parseValue_reads_only_witness :
  let s := Host.inRoot (Some (JS.Fin 25))
             [OpenTag (mkTag "time" [("value", "10f")]); CloseTag "time";
              CloseTag "defs"] in
  let s' := withWarnings [WFramesNoFps "10f"] (withInput [CloseTag "defs"] s) in
  heap s' = heap s /\ registry s' = registry s /\ generated s' = generated s
  /\ suffix (input s') (input s) /\ prefix (warnings s) (warnings s').
Proof.
  intros s s'.
  apply (parseValue_reads_only 1 0 s
           (Some (mkValue "time" (DTime 0) (Some false) (Some UNDEFINED))) s').
  vm_compute. reflexivity.
Defined.

(** ** The value parser: scalar elements *)

Lemma withInput_same s i : input s = i -> withInput i s = s.
Proof. destruct s. cbn. now intros ->. Qed.

Lemma parseValueAttribute_missing s tag rest :
  input s = OpenTag tag :: CloseTag (tagName tag) :: rest ->
  JS.truthyStr (attributes tag !! "value") = false ->
  parseValueAttribute s = Throw (MissingAttribute (tagName tag) "value").
Proof.
  intros Hin Hv. rewrite <- (withInput_same s _ Hin).
  unfold parseValueAttribute, expectOpen, bind, checkOpen, next, modify, expectClose.
  cbn -[String.eqb]. rewrite String.eqb_refl.
  destruct (attributes tag !! "value") as [v|]; [|reflexivity].
  cbn in Hv. now rewrite Hv.
Qed.

Lemma parseValueAttribute_content s tag n rest :
  input s = OpenTag tag :: n :: rest ->
  (forall name, n <> CloseTag name) ->
  parseValueAttribute s = Throw (ReaderError "closetag").
Proof.
  intros Hin Hn. rewrite <- (withInput_same s _ Hin).
  unfold parseValueAttribute, expectOpen, bind, checkOpen, next, modify, expectClose.
  cbn. destruct n as [t|name|t r]; try reflexivity. now destruct (Hn name).
Qed.

Ltac enter_parseValue Hin :=
  cbn [parseValue];
  match type of Hin with
  | input ?s = OpenTag ?tag :: _ =>
      rewrite (bind_eq checkOpen _ s tag s)
        by (unfold checkOpen; now rewrite Hin)
  end;
  unfold parseValue_switch.

(** X6: the cases of [parseValue] that read the [value] attribute
    consume the opening tag and demand the closing tag next.  An empty
    element without [value], or with an empty one, is a missing
    attribute; an element with anything inside fails in the reader,
    before the attribute is looked at. *)
Theorem parseValue_scalar_needs_value :
  forall fuel canvas s tag n rest,
    input s = OpenTag tag :: n :: rest ->
    In (tagName tag) scalarNames ->
    (n = CloseTag (tagName tag) ->
     JS.truthyStr (attributes tag !! "value") = false ->
     parseValue (S fuel) canvas s = Throw (MissingAttribute (tagName tag) "value"))
    /\ ((forall name, n <> CloseTag name) ->
        parseValue (S fuel) canvas s = Throw (ReaderError "closetag")).
Proof.
  intros fuel canvas s tag n rest Hin Hname.
  split.
  - intros -> Hv. pose proof (parseValueAttribute_missing s tag rest Hin Hv) as Hpva.
    enter_parseValue Hin. cbn in Hname.
    repeat (destruct Hname as [Hname | Hname];
            [rewrite <- Hname in *; cbn [String.eqb Ascii.eqb Bool.eqb orb];
             unfold bind; rewrite Hpva; reflexivity|]).
    destruct Hname.
  - intros Hn. pose proof (parseValueAttribute_content s tag n rest Hin Hn) as Hpva.
    enter_parseValue Hin. cbn in Hname.
    repeat (destruct Hname as [Hname | Hname];
            [rewrite <- Hname in *; cbn [String.eqb Ascii.eqb Bool.eqb orb];
             unfold bind; rewrite Hpva; reflexivity|]).
    destruct Hname.
Qed.

Lemma parseValue_scalar_needs_value_witness :
  parseValue 1 0
    (initialState [OpenTag (mkTag "integer" [("value", "")]); CloseTag "integer"])
  = Throw (MissingAttribute "integer" "value").
Proof.
  apply (proj1 (parseValue_scalar_needs_value 0 0
                  (initialState [OpenTag (mkTag "integer" [("value", "")]);
                                 CloseTag "integer"])
                  (mkTag "integer" [("value", "")]) (CloseTag "integer") []
                  eq_refl ltac:(cbn; tauto)) eq_refl eq_refl).
Defined.

(** X7: a [bool] element is true for [true] and [1], false for [false]
    and [0], and an error for every other non-empty value; the two
    modifiers are read after the value. *)
Theorem parseValue_bool :
  forall fuel canvas s tag rest v,
    input s = OpenTag tag :: CloseTag "bool" :: rest ->
    tagName tag = "bool" ->
    attributes tag !! "value" = Some v ->
    JS.nonempty v = true ->
    (v = "true" \/ v = "1" ->
     parseValue (S fuel) canvas s = finishValue tag (DBool true) (withInput rest s))
    /\ (v = "false" \/ v = "0" ->
        parseValue (S fuel) canvas s = finishValue tag (DBool false) (withInput rest s))
    /\ (~ In v ["true"; "1"; "false"; "0"] ->
        parseValue (S fuel) canvas s = Throw (BadBool v)).
Proof.
  intros fuel canvas s tag rest v Hin Hname Hv Hne.
  assert (Hpva : parseValueAttribute s = Ret v (withInput rest s)).
  { apply (parseValueAttribute_eq s tag rest v); [now rewrite Hname | assumption..]. }
  assert (Hstart : parseValue (S fuel) canvas s
    = bind (if String.eqb v "true" || String.eqb v "1" then ret (Break (DBool true))
            else if String.eqb v "false" || String.eqb v "0" then ret (Break (DBool false))
            else throw (BadBool v))
           (fun completion =>
              match completion with
              | Return result => ret result
              | Break data => finishValue tag data
              end) (withInput rest s)).
  { unfold finishValue. enter_parseValue Hin. rewrite Hname.
    cbn [String.eqb Ascii.eqb Bool.eqb orb].
    rewrite bind_assoc, (bind_eq _ _ _ _ _ Hpva). reflexivity. }
  rewrite Hstart. repeat split.
  - intros [-> | ->]; reflexivity.
  - intros [-> | ->]; reflexivity.
  - intros Hn.
    repeat match goal with
           | |- context [String.eqb v ?k] =>
               let E := fresh "E" in
               destruct (String.eqb v k) eqn:E;
               [apply String.eqb_eq in E; subst; exfalso; apply Hn; cbn; tauto|]
           end.
    reflexivity.
Qed.

Lemma parseValue_bool_witness :
  parseValue 1 0 (initialState [OpenTag (mkTag "bool" [("value", "maybe")]);
                                CloseTag "bool"])
  = Throw (BadBool "maybe").
Proof.
  apply (proj2 (proj2 (parseValue_bool 0 0
                  (initialState [OpenTag (mkTag "bool" [("value", "maybe")]);
                                 CloseTag "bool"])
                  (mkTag "bool" [("value", "maybe")]) [] "maybe"
                  eq_refl eq_refl eq_refl eq_refl))).
  cbn. intros [H|[H|[H|[H|[]]]]]; discriminate H.
Defined.

(** X8: [angle], [degrees], [radians] and [rotations] are parsed alike:
    the [value] attribute is read as a number of degrees whatever the
    name says, and the value keeps the name as its type. *)
Theorem parseValue_angle_family :
  forall fuel canvas s tag rest v,
    input s = OpenTag tag :: CloseTag (tagName tag) :: rest ->
    In (tagName tag) ["angle"; "degrees"; "radians"; "rotations"] ->
    attributes tag !! "value" = Some v ->
    JS.nonempty v = true ->
    parseValue (S fuel) canvas s
    = finishValue tag (DAngle (JS.parseFloat v)) (withInput rest s).
Proof.
  intros fuel canvas s tag rest v Hin Hname Hv Hne.
  pose proof (parseValueAttribute_eq s tag rest v Hin Hv Hne) as Hpva.
  unfold finishValue. enter_parseValue Hin. cbn in Hname.
  repeat (destruct Hname as [Hname | Hname];
          [rewrite <- Hname; cbn [String.eqb Ascii.eqb Bool.eqb orb];
           rewrite bind_assoc, (bind_eq _ _ _ _ _ Hpva); reflexivity|]).
  destruct Hname.
Qed.

Lemma parseValue_angle_family_witness :
  parseValue 1 0 (initialState [OpenTag (mkTag "radians" [("value", "180")]);
                                CloseTag "radians"])
  = Ret (Some (mkValue "radians" (DAngle (JS.parseFloat "180"))
                 (Some false) (Some UNDEFINED)))
        (initialState []).
Proof.
  rewrite (parseValue_angle_family 0 0
             (initialState [OpenTag (mkTag "radians" [("value", "180")]);
                            CloseTag "radians"])
             (mkTag "radians" [("value", "180")]) [] "180"
             eq_refl ltac:(cbn; tauto) eq_refl eq_refl).
  reflexivity.
Defined.

(** ** The value parser: compound elements *)

(** A loop over well-formed children: when the callback consumes one
    child and updates the accumulator by [step], the loop folds [step]
    over the children and stops at the closing tag.  [P] is what the
    callback needs of a child. *)
Lemma loopChildren_fold {A B} (cb : A -> M A) (elem : B -> list Node)
    (step : A -> B -> A) (P : B -> Prop) :
  (forall b, exists t r, elem b = OpenTag t :: r) ->
  (forall acc b rest s,
      P b -> input s = elem b ++ rest ->
      cb acc s = Ret (step acc b) (withInput rest s)) ->
  forall items fuel acc s name rest,
    Forall P items ->
    input s = concat (map elem items) ++ CloseTag name :: rest ->
    length items < fuel ->
    loopChildren fuel cb acc s
    = Ret (fold_left step items acc) (withInput (CloseTag name :: rest) s).
Proof.
  intros Helem Hcb. induction items as [|b items IH];
    intros fuel acc s name rest HP Hin Hfuel;
    (destruct fuel as [|fuel]; [cbn in Hfuel; lia|]); cbn [loopChildren].
  - cbn in Hin. rewrite Hin. cbn. now rewrite (withInput_same s _ Hin).
  - cbn [map concat] in Hin. rewrite <- app_assoc in Hin.
    inversion HP as [|? ? Hb HPs]; subst.
    destruct (Helem b) as (t & r & Hel).
    assert (Hhead : exists l, input s = OpenTag t :: l)
      by (rewrite Hin, Hel; cbn; eauto).
    destruct Hhead as [l Hl]. rewrite Hl.
    rewrite (bind_eq _ _ _ _ _ (Hcb acc b _ s Hb Hin)).
    rewrite (IH fuel (step acc b)
               (withInput (concat (map elem items) ++ CloseTag name :: rest) s)
               name rest HPs eq_refl);
      [reflexivity | cbn in Hfuel; lia].
Qed.

Lemma loopTag_fold {A B} (cb : A -> M A) (elem : B -> list Node)
    (step : A -> B -> A) (P : B -> Prop) :
  (forall b, exists t r, elem b = OpenTag t :: r) ->
  (forall acc b rest s,
      P b -> input s = elem b ++ rest ->
      cb acc s = Ret (step acc b) (withInput rest s)) ->
  forall items fuel acc s tag name rest,
    Forall P items ->
    input s = OpenTag tag :: concat (map elem items) ++ CloseTag (tagName tag) :: rest ->
    (name = Some (tagName tag) \/ name = None) ->
    length items < fuel ->
    loopTag fuel cb name acc s = Ret (fold_left step items acc) (withInput rest s).
Proof.
  intros Helem Hcb items fuel acc s tag name rest HP Hin Hname Hfuel.
  unfold loopTag.
  assert (Hopen : match name with Some n => expectName n | None => expectOpen end s
                  = Ret tag (withInput (concat (map elem items)
                                        ++ CloseTag (tagName tag) :: rest) s)).
  { rewrite <- (withInput_same s _ Hin).
    destruct Hname as [-> | ->];
      unfold expectName, checkName, expectOpen, bind, checkOpen, next, modify;
      cbn -[String.eqb]; rewrite ?String.eqb_refl; reflexivity. }
  rewrite (bind_eq _ _ _ _ _ Hopen).
  rewrite (bind_eq _ _ _ _ _
             (loopChildren_fold cb elem step P Helem Hcb items fuel acc
                (withInput (concat (map elem items) ++ CloseTag (tagName tag) :: rest) s)
                (tagName tag) rest HP eq_refl Hfuel)).
  unfold bind, expectClose. cbn -[String.eqb]. now rewrite String.eqb_refl.
Qed.

Lemma Forall_True {B} (l : list B) : Forall (fun _ => True) l.
Proof. induction l; constructor; auto. Qed.

Lemma vectorChild_coord vec p rest s :
  input s = coordElement p ++ rest ->
  vectorChild vec s = Ret (setCoord vec p) (withInput rest s).
Proof.
  intros Hin. rewrite <- (withInput_same s _ Hin).
  destruct p as [[] t]; reflexivity.
Qed.

(** X9: a [vector] element whose children are coordinates parses to
    the vector built by assigning the coordinates in document order: a
    coordinate given twice keeps the last number, and one not given
    stays undefined. *)
Theorem parseValue_vector :
  forall coords fuel canvas s tag rest,
    input s = OpenTag tag :: concat (map coordElement coords) ++ CloseTag "vector" :: rest ->
    tagName tag = "vector" ->
    length coords < fuel ->
    parseValue (S fuel) canvas s
    = finishValue tag
        (DVector (fold_left setCoord coords (Vector_create None None)))
        (withInput rest s).
Proof.
  intros coords fuel canvas s tag rest Hin Hname Hfuel.
  unfold finishValue. enter_parseValue Hin. rewrite Hname.
  cbn [String.eqb Ascii.eqb Bool.eqb orb].
  rewrite <- Hname in Hin.
  rewrite bind_assoc.
  rewrite (bind_eq _ _ _ _ _
             (loopTag_fold vectorChild coordElement setCoord (fun _ => True)
                ltac:(intros [a t]; cbn; eauto)
                (fun acc b r st _ H => vectorChild_coord acc b r st H)
                coords fuel _ s tag (Some "vector") rest (Forall_True _) Hin
                ltac:(left; now rewrite Hname) Hfuel)).
  reflexivity.
Qed.

Lemma parseValue_vector_witness :
  parseValue 5 0
    (initialState (OpenTag (mkTag "vector" [])
                   :: concat (map coordElement [(AxisY, "2"); (AxisX, "1"); (AxisY, "3")])
                   ++ [CloseTag "vector"]))
  = Ret (Some (mkValue "vector"
                 (DVector {| vx := Some (JS.parseFloat "1"); vy := Some (JS.parseFloat "3") |})
                 (Some false) (Some UNDEFINED)))
        (initialState []).
Proof.
  rewrite (parseValue_vector [(AxisY, "2"); (AxisX, "1"); (AxisY, "3")] 4 0
             (initialState (OpenTag (mkTag "vector" [])
                :: concat (map coordElement [(AxisY, "2"); (AxisX, "1"); (AxisY, "3")])
                ++ [CloseTag "vector"]))
             (mkTag "vector" []) [] eq_refl eq_refl ltac:(cbn; lia)).
  reflexivity.
Defined.

Lemma colorChild_channel col p rest s :
  input s = channelElement p ++ rest ->
  colorChild col s = Ret (setChannel col p) (withInput rest s).
Proof.
  intros Hin. rewrite <- (withInput_same s _ Hin).
  destruct p as [[] t]; reflexivity.
Qed.

Lemma colorLoop_fold channels fuel canvas s tag rest :
  input s = OpenTag tag :: concat (map channelElement channels) ++ CloseTag "color" :: rest ->
  tagName tag = "color" ->
  length channels < fuel ->
  parseValue (S fuel) canvas s = finishValue tag (DColor (colorOf channels)) (withInput rest s).
Proof.
  intros Hin Hname Hfuel.
  unfold finishValue, colorOf. enter_parseValue Hin. rewrite Hname.
  cbn [String.eqb Ascii.eqb Bool.eqb orb].
  rewrite <- Hname in Hin.
  rewrite bind_assoc.
  rewrite (bind_eq _ _ _ _ _
             (loopTag_fold colorChild channelElement setChannel (fun _ => True)
                ltac:(intros [a t]; cbn; eauto)
                (fun acc b r st _ H => colorChild_channel acc b r st H)
                channels fuel _ s tag (Some "color") rest (Forall_True _) Hin
                ltac:(left; now rewrite Hname) Hfuel)).
  reflexivity.
Qed.

(** X10: a [color] element whose children are components parses to
    the color built from red zero and the other components undefined by
    assigning the components in document order. *)
Theorem parseValue_color :
  forall channels fuel canvas s tag rest,
    input s = OpenTag tag :: concat (map channelElement channels)
                ++ CloseTag "color" :: rest ->
    tagName tag = "color" ->
    length channels < fuel ->
    parseValue (S fuel) canvas s
    = finishValue tag
        (DColor (fold_left setChannel channels
                   (Color_create (Some (JS.Fin 0)) None None None)))
        (withInput rest s).
Proof.
  intros channels fuel canvas s tag rest. apply colorLoop_fold.
Qed.

Lemma parseValue_color_witness :
  parseValue 3 0
    (initialState (OpenTag (mkTag "color" [])
                   :: concat (map channelElement [(ChanA, "1")]) ++ [CloseTag "color"]))
  = Ret (Some (mkValue "color"
                 (DColor {| cr := Some (JS.Fin 0); cg := None; cb := None;
                            ca := Some (JS.parseFloat "1") |})
                 (Some false) (Some UNDEFINED)))
        (initialState []).
Proof.
  rewrite (parseValue_color [(ChanA, "1")] 2 0
             (initialState (OpenTag (mkTag "color" [])
                :: concat (map channelElement [(ChanA, "1")]) ++ [CloseTag "color"]))
             (mkTag "color" []) [] eq_refl eq_refl ltac:(cbn; lia)).
  reflexivity.
Defined.

Lemma gradientChild_stop fuel canvas grad p rest s :
  stopReady fuel p ->
  input s = stopElement p ++ rest ->
  gradientChild (parseValue fuel) canvas grad s
  = Ret (grad ++ [stopOf p]) (withInput rest s).
Proof.
  intros [Hpos Hfuel] Hin. destruct p as [pos channels]. cbn [fst snd] in *.
  destruct fuel as [|fuel]; [lia|].
  unfold gradientChild.
  assert (Hc : checkName "color" s = Ret (mkTag "color" [("pos", pos)]) s).
  { unfold checkName, bind, checkOpen. rewrite Hin. reflexivity. }
  rewrite (bind_eq _ _ _ _ _ Hc).
  assert (Hv : parseValue (S fuel) canvas s
               = Ret (Some (mkValue "color" (DColor (colorOf channels))
                              (Some false) (Some UNDEFINED)))
                     (withInput rest s)).
  { rewrite (colorLoop_fold channels fuel canvas s
               (mkTag "color" [("pos", pos)]) rest).
    - reflexivity.
    - rewrite Hin. unfold stopElement. cbn [fst snd].
      rewrite <- app_comm_cons, <- app_assoc. reflexivity.
    - reflexivity.
    - lia. }
  rewrite (bind_eq _ _ _ _ _ Hv).
  change (attributes (mkTag "color" [("pos", pos)]) !! "pos") with (Some pos).
  cbv beta iota. rewrite Hpos. reflexivity.
Qed.

Lemma fold_left_snoc {A B} (f : B -> A) (l : list B) (acc : list A) :
  fold_left (fun g p => g ++ [f p]) l acc = acc ++ map f l.
Proof.
  revert acc. induction l as [|b l IH]; intros acc; cbn.
  - now rewrite app_nil_r.
  - rewrite IH, <- app_assoc. reflexivity.
Qed.

(** X11: a [gradient] element whose children are [color] elements
    with a non-empty [pos] parses to the stops in document order, each
    with the position read as a number and the color of the element. *)
Theorem parseValue_gradient :
  forall stops fuel canvas s tag rest,
    input s = OpenTag tag :: concat (map stopElement stops) ++ CloseTag "gradient" :: rest ->
    tagName tag = "gradient" ->
    Forall (stopReady fuel) stops ->
    length stops < fuel ->
    parseValue (S fuel) canvas s
    = finishValue tag (DGradient (map stopOf stops)) (withInput rest s).
Proof.
  intros stops fuel canvas s tag rest Hin Hname Hstops Hfuel.
  unfold finishValue. enter_parseValue Hin. rewrite Hname.
  cbn [String.eqb Ascii.eqb Bool.eqb orb].
  rewrite <- Hname in Hin.
  rewrite bind_assoc.
  rewrite (bind_eq _ _ _ _ _
             (loopTag_fold (gradientChild (parseValue fuel) canvas) stopElement
                (fun g p => g ++ [stopOf p]) (stopReady fuel)
                ltac:(intros [a t]; cbn; eauto)
                (fun acc b r st Hb H => gradientChild_stop fuel canvas acc b r st Hb H)
                stops fuel [] s tag (Some "gradient") rest Hstops Hin
                ltac:(left; now rewrite Hname) Hfuel)).
  rewrite fold_left_snoc. reflexivity.
Qed.

Lemma parseValue_gradient_witness :
  let stops := [("1", [(ChanR, "1")]); ("0", [(ChanA, "1")])] in
  parseValue 4 0
    (initialState (OpenTag (mkTag "gradient" [])
                   :: concat (map stopElement stops) ++ [CloseTag "gradient"]))
  = Ret (Some (mkValue "gradient" (DGradient (map stopOf stops))
                 (Some false) (Some UNDEFINED)))
        (initialState []).
Proof.
  intros stops.
  rewrite (parseValue_gradient stops 3 0
             (initialState (OpenTag (mkTag "gradient" [])
                :: concat (map stopElement stops) ++ [CloseTag "gradient"]))
             (mkTag "gradient" []) [] eq_refl eq_refl).
  - reflexivity.
  - repeat constructor.
  - cbn. lia.
Defined.

(** ** The value parser: lists and strings *)

Lemma listChild_real fuel canvas items v rest s :
  JS.nonempty v = true ->
  input s = realElement v ++ rest ->
  listChild (parseValue (S fuel)) canvas items s
  = Ret (items ++ [realOf v]) (withInput rest s).
Proof.
  intros Hv Hin.
  change (input s = OpenTag (mkTag "real" [("value", v)]) :: CloseTag "real" :: rest) in Hin.
  unfold listChild.
  rewrite (bind_eq checkOpen _ s (mkTag "real" [("value", v)]) s)
    by (unfold checkOpen; now rewrite Hin).
  assert (Hr : parseValue (S fuel) canvas s = Ret (Some (realOf v)) (withInput rest s)).
  { enter_parseValue Hin. cbn [tagName mkTag String.eqb Ascii.eqb Bool.eqb].
    rewrite bind_assoc.
    rewrite (bind_eq _ _ _ _ _
               (parseValueAttribute_eq s (mkTag "real" [("value", v)]) rest v
                  Hin eq_refl Hv)).
    reflexivity. }
  rewrite (bind_eq _ _ _ _ _ Hr). reflexivity.
Qed.

(** X12: a [list] of [real] elements parses to the values of the
    items in document order.  The list itself has neither modifier set,
    whatever its attributes say. *)
Theorem parseValue_list_of_reals :
  forall values fuel canvas s tag rest,
    input s = OpenTag tag :: concat (map realElement values) ++ CloseTag "list" :: rest ->
    tagName tag = "list" ->
    Forall (fun v => JS.nonempty v = true) values ->
    length values < S fuel ->
    parseValue (S (S fuel)) canvas s
    = Ret (Some (mkValue "list" (DList (map realOf values)) None None))
          (withInput rest s).
Proof.
  intros values fuel canvas s tag rest Hin Hname Hvalues Hfuel.
  enter_parseValue Hin. rewrite Hname.
  cbn [String.eqb Ascii.eqb Bool.eqb orb].
  rewrite <- Hname in Hin.
  rewrite bind_assoc.
  rewrite (bind_eq _ _ _ _ _
             (loopTag_fold (listChild (parseValue (S fuel)) canvas) realElement
                (fun l v => l ++ [realOf v]) (fun v => JS.nonempty v = true)
                ltac:(intros v; cbn; eauto)
                (fun acc b r st Hb H => listChild_real fuel canvas acc b r st Hb H)
                values (S fuel) [] s tag None rest Hvalues Hin
                ltac:(now right) Hfuel)).
  rewrite fold_left_snoc. reflexivity.
Qed.

Lemma parseValue_list_of_reals_witness :
  parseValue 5 0
    (initialState (OpenTag (mkTag "list" [("static", "1")])
                   :: concat (map realElement ["3"; "1"; "2"]) ++ [CloseTag "list"]))
  = Ret (Some (mkValue "list" (DList (map realOf ["3"; "1"; "2"])) None None))
        (initialState []).
Proof.
  rewrite (parseValue_list_of_reals ["3"; "1"; "2"] 3 0
             (initialState (OpenTag (mkTag "list" [("static", "1")])
                :: concat (map realElement ["3"; "1"; "2"]) ++ [CloseTag "list"]))
             (mkTag "list" [("static", "1")]) [] eq_refl eq_refl).
  - reflexivity.
  - repeat constructor.
  - cbn. lia.
Defined.

(** X14: the data of a [string] element is the raw text inside it,
    not the trimmed one, and the empty string when the element is
    empty. *)
Theorem parseValue_string_raw :
  forall fuel canvas s tag t raw rest,
    tagName tag = "string" ->
    (input s = OpenTag tag :: TextNode t raw :: CloseTag "string" :: rest ->
     parseValue (S fuel) canvas s = finishValue tag (DString raw) (withInput rest s))
    /\ (input s = OpenTag tag :: CloseTag "string" :: rest ->
        parseValue (S fuel) canvas s
        = finishValue tag (DString EmptyString) (withInput rest s)).
Proof.
  intros fuel canvas s tag t raw rest Hname.
  split; intros Hin; unfold finishValue; enter_parseValue Hin; rewrite Hname;
    cbn [String.eqb Ascii.eqb Bool.eqb orb];
    rewrite <- (withInput_same s _ Hin);
    unfold bind, expectName, checkName, bind, checkOpen, next, modify, nextText, expectClose;
    cbn -[readStatic readInterpolation String.eqb]; rewrite Hname; reflexivity.
Qed.

Lemma parseValue_string_raw_witness :
  parseValue 1 0
    (initialState [OpenTag (mkTag "string" []); TextNode "a b" " a  b "; CloseTag "string"])
  = Ret (Some (mkValue "string" (DString " a  b ") (Some false) (Some UNDEFINED)))
        (initialState []).
Proof.
  rewrite (proj1 (parseValue_string_raw 0 0
             (initialState [OpenTag (mkTag "string" []); TextNode "a b" " a  b ";
                            CloseTag "string"])
             (mkTag "string" []) "a b" " a  b " [] eq_refl) eq_refl).
  reflexivity.
Defined.

Lemma bind_Throw {A B} (m : M A) (k : A -> M B) s e :
  m s = Throw e -> bind m k s = Throw e.
Proof. unfold bind. now intros ->. Qed.

Lemma bind_OutOfFuel {A B} (m : M A) (k : A -> M B) s :
  m s = OutOfFuel -> bind m k s = OutOfFuel.
Proof. unfold bind. now intros ->. Qed.

Lemma readStatic_reads tag st s :
  staticReads (attributes tag !! "static") st -> readStatic tag s = Ret st s.
Proof.
  unfold readStatic, staticReads.
  destruct st; intros H; repeat destruct H as [H | H]; rewrite H; reflexivity.
Qed.

Lemma readInterpolation_reads tag ip s :
  interpolationReads (attributes tag !! "interpolation") ip ->
  readInterpolation tag s = Ret ip s.
Proof.
  unfold readInterpolation, interpolationReads.
  destruct ip; intros H; rewrite H; reflexivity.
Qed.

(** On a tag name that no case names, [parseValue] returns a value and
    leaves the element where it is. *)
Lemma parseValue_unrecognized fuel canvas s tag rest st ip :
  input s = OpenTag tag :: rest ->
  ~ In (tagName tag) valueCaseNames ->
  staticReads (attributes tag !! "static") st ->
  interpolationReads (attributes tag !! "interpolation") ip ->
  parseValue (S fuel) canvas s
  = Ret (Some (mkValue (tagName tag) DUndefined (Some st) (Some ip))) s.
Proof.
  intros Hin Hn Hst Hip.
  assert (Hk : forall k, In k valueCaseNames -> String.eqb (tagName tag) k = false).
  { intros k Hk. apply String.eqb_neq. intros E. apply Hn. now rewrite E. }
  enter_parseValue Hin.
  rewrite !Hk by (cbn; tauto). cbn [orb].
  unfold bind, ret.
  rewrite (readStatic_reads tag st s Hst), (readInterpolation_reads tag ip s Hip).
  reflexivity.
Qed.




(** ** Metadata *)

Lemma replaceAll_length c d s :
  String.length (JS.replaceAll c d s) = String.length s.
Proof. induction s as [|e r IH]; cbn; [reflexivity | now rewrite IH]. Qed.

Lemma replaceAll_gone c d s :
  c <> d -> JS.indexOf c (JS.replaceAll c d s) = None.
Proof.
  intros Hcd. induction s as [|e r IH]; cbn [JS.replaceAll JS.indexOf]; [reflexivity|].
  rewrite IH.
  destruct (Ascii.eqb e c) eqn:E.
  - destruct (Ascii.eqb d c) eqn:E'; [|reflexivity].
    apply Ascii.eqb_eq in E'. congruence.
  - now rewrite E.
Qed.

Lemma replaceAll_absent c d s :
  JS.indexOf c s = None -> JS.replaceAll c d s = s.
Proof.
  induction s as [|e r IH]; cbn [JS.replaceAll JS.indexOf]; [reflexivity|].
  destruct (Ascii.eqb e c); [discriminate|].
  destruct (JS.indexOf c r); [discriminate|].
  intros _. now rewrite IH.
Qed.

Lemma replaceAll_get c d s : forall i,
  String.get i (JS.replaceAll c d s)
  = option_map (fun e => if Ascii.eqb e c then d else e) (String.get i s).
Proof.
  induction s as [|e r IH]; intros i; cbn [JS.replaceAll String.get]; [reflexivity|].
  destruct i as [|i]; [reflexivity | apply IH].
Qed.

Lemma canvasAt_alter h c f cv :
  canvasAt h c = Some cv ->
  canvasAt (alter (fun o => match o with
                            | OCanvas cv => OCanvas (f cv)
                            | ONode _ => o
                            end) c h) c = Some (f cv).
Proof.
  unfold canvasAt. intros H.
  rewrite list_lookup_alter, decide_True by reflexivity.
  unfold Ref in *.
  destruct (h !! c) as [[cv'|n]|]; try discriminate.
  inversion H; subst. reflexivity.
Qed.

(** X15: [parseMetaInto] stores the [content] attribute under the
    [name] attribute in the metadata of the canvas.  For the six keys
    that hold numbers what is stored is the content with every comma
    replaced by a full stop, character by character: it has no comma
    and the same length.  For any other key the content is stored as it
    is.  A missing [name] or [content] is an error naming the
    attribute. *)
Theorem parseMetaInto_stores_content :
  forall canvas s tag rest cv,
    input s = OpenTag tag :: CloseTag "meta" :: rest ->
    tagName tag = "meta" ->
    canvasAt (heap s) canvas = Some cv ->
    (forall name content,
       attributes tag !! "name" = Some name ->
       attributes tag !! "content" = Some content ->
       exists s' stored,
         parseMetaInto canvas s = Ret tt s'
         /\ input s' = rest
         /\ canvasAt (heap s') canvas = Some (putMeta name stored cv)
         /\ (In name commaKeys ->
             stored = JS.replaceAll "," "." content
             /\ (forall i,
                   String.get i stored
                   = option_map (fun c => if Ascii.eqb c "," then "."%char else c)
                       (String.get i content))
             /\ JS.indexOf "," stored = None
             /\ String.length stored = String.length content
             /\ (JS.indexOf "," content = None -> stored = content))
         /\ (~ In name commaKeys -> stored = content))
    /\ (attributes tag !! "name" = None ->
        parseMetaInto canvas s = Throw (MissingAttribute "meta" "name"))
    /\ (attributes tag !! "name" <> None ->
        attributes tag !! "content" = None ->
        parseMetaInto canvas s = Throw (MissingAttribute "meta" "content")).
Proof.
  intros canvas s tag rest cv Hin Hname Hcv.
  assert (Hexp : expectName "meta" s = Ret tag (withInput (CloseTag "meta" :: rest) s)).
  { unfold expectName, checkName, bind, checkOpen, next, modify.
    rewrite Hin, Hname. cbn. rewrite Hin. reflexivity. }
  split; [|split].
  - intros name content Hn Hc.
    unfold parseMetaInto. rewrite (bind_eq _ _ _ _ _ Hexp).
    unfold checkAttribute. rewrite Hn, Hc.
    set (stored := if existsb (String.eqb name) commaKeys
                   then JS.replaceAll "," "." content else content).
    unfold bind, ret, updCanvas, modify, expectClose. cbn.
    exists (withInput rest
              (withHeap (alter (fun o => match o with
                                         | OCanvas cv => OCanvas (putMeta name stored cv)
                                         | ONode _ => o
                                         end) canvas (heap s)) s)), stored.
    split; [reflexivity|]. split; [reflexivity|].
    split; [apply canvasAt_alter, Hcv|].
    subst stored.
    destruct (existsb (String.eqb name) commaKeys) eqn:E.
    + split.
      * intros _. split; [reflexivity|]. split; [apply replaceAll_get|].
        split; [apply replaceAll_gone; discriminate|].
        split; [apply replaceAll_length | apply replaceAll_absent].
      * intros Hnot. exfalso. apply Hnot.
        apply existsb_exists in E as (k & Hk & Ek).
        apply String.eqb_eq in Ek. now subst.
    + split; [|reflexivity].
      intros Hin'. exfalso.
      assert (existsb (String.eqb name) commaKeys = true) as E'; [|congruence].
      apply existsb_exists. exists name. split; [assumption | apply String.eqb_refl].
  - intros Hn. unfold parseMetaInto. rewrite (bind_eq _ _ _ _ _ Hexp).
    unfold checkAttribute. rewrite Hn, Hname. reflexivity.
  - intros Hn Hc. unfold parseMetaInto. rewrite (bind_eq _ _ _ _ _ Hexp).
    unfold checkAttribute. rewrite Hc, Hname.
    destruct (attributes tag !! "name"); [reflexivity | congruence].
Qed.

Lemma parseMetaInto_stores_content_witness :
  let tag := mkTag "meta" [("name", "grid_size"); ("content", "0,25 0,25")] in
  let s := Host.inRoot None [OpenTag tag; CloseTag "meta"] in
  exists s',
    parseMetaInto 0 s = Ret tt s' /\ input s' = []
    /\ canvasAt (heap s') 0
       = Some (putMeta "grid_size" "0.25 0.25"
                 (setFps None (setGuid (Some "R") Canvas_empty))).
Proof.
  intros tag s.
  destruct (proj1 (parseMetaInto_stores_content 0 s tag [] _ eq_refl eq_refl eq_refl)
              "grid_size" "0,25 0,25" eq_refl eq_refl)
    as (s' & stored & Hrun & Hi & Hcv & Hcomma & _).
  exists s'.
  split; [exact Hrun|]. split; [exact Hi|].
  destruct Hcomma as (Hstored & _); [cbn; tauto|].
  rewrite Hstored in Hcv. exact Hcv.
Defined.

(** ** Canvases *)

Lemma afterClose_wellNested body : forall k d l,
  wellNested k body = true ->
  afterClose (k + d) (body ++ l) = afterClose d l.
Proof.
  induction body as [|[t|n|t r] body IH]; intros k d l H; cbn in H |- *.
  - apply Nat.eqb_eq in H. now subst.
  - apply (IH (S k) d l H).
  - destruct k as [|k]; [discriminate|]. apply (IH k d l H).
  - apply (IH k d l H).
Qed.

(** [skipTag] on an element consumes it, whatever its closing tag says. *)
Lemma skipTag_element s tag body n rest :
  input s = OpenTag tag :: body ++ CloseTag n :: rest ->
  wellNested 0 body = true ->
  skipTag s = Ret tt (withInput rest s).
Proof.
  intros Hin Hb. unfold skipTag. rewrite Hin.
  rewrite (afterClose_wellNested body 0 0 _ Hb). reflexivity.
Qed.

Lemma returns_ret {A} (a : A) : returns (ret a).
Proof. intros s. eexists; eexists; reflexivity. Qed.

Lemma returns_modify f : returns (modify f).
Proof. intros s. eexists; eexists; reflexivity. Qed.

Lemma returns_updCanvas c f : returns (updCanvas c f).
Proof. apply returns_modify. Qed.

Lemma returns_Guid_set g r : returns (Guid_set g r).
Proof. apply returns_modify. Qed.

Lemma returns_bind {A B} (m : M A) (k : A -> M B) :
  returns m -> (forall a, returns (k a)) -> returns (bind m k).
Proof.
  intros Hm Hk s. destruct (Hm s) as (a & s1 & H1).
  destruct (Hk a s1) as (b & s2 & H2).
  exists b, s2. now rewrite (bind_eq _ _ _ _ _ H1).
Qed.

Lemma returns_whenAttr attrs k body :
  (forall v, returns (body v)) -> returns (whenAttr attrs k body).
Proof.
  intros Hb. unfold whenAttr.
  destruct (attrs !! k) as [v|]; [destruct (JS.nonempty v)|];
    auto using returns_ret.
Qed.

Lemma returns_alloc o : returns (alloc o).
Proof. intros s. eexists; eexists; reflexivity. Qed.

Ltac run_unit tac :=
  match goal with
  | |- bind ?m ?k ?s = _ =>
      let s' := fresh "s" in
      let H := fresh "H" in
      assert (H : exists a s', m s = Ret a s') by tac;
      destruct H as ([] & s' & H);
      rewrite (bind_eq m k s tt s' H); clear H
  end.

Section CanvasFacts.

Variable Guid_xor : string -> option string -> string.
Variable Guid_fresh : nat -> string.
Variable childCanvas_undefined : option string -> M Ref.
Variable parseAnimated : option (Ref -> M Ref).
Variable parseStaticList : option (Ref -> M Ref).
Variable parseDynamicList : option (Ref -> M Ref).
Variable parseLinkableValueNode : option (Ref -> M (option Ref)).

Local Abbreviation parseCanvas' :=
  (parseCanvas Guid_xor Guid_fresh childCanvas_undefined
     parseAnimated parseStaticList parseDynamicList parseLinkableValueNode).

Lemma returns_Guid_generate : returns (Guid_generate Guid_fresh).
Proof. intros s. eexists; eexists; reflexivity. Qed.

(** A [width] or [height] below one stops the header. *)
Lemma canvasHeader_too_small canvas inline attrs s :
  tooSmall (attrs !! "width") = true \/ tooSmall (attrs !! "height") = true ->
  canvasHeader Guid_fresh canvas inline attrs s = Throw CanvasTooSmall.
Proof.
  intros Hsmall. unfold canvasHeader.
  assert (Hg : returns (match attrs !! "guid" with
                        | Some g => if JS.nonempty g then ret g
                                    else Guid_generate Guid_fresh
                        | None => Guid_generate Guid_fresh
                        end)).
  { destruct (attrs !! "guid") as [g|]; [destruct (JS.nonempty g)|];
      auto using returns_ret, returns_Guid_generate. }
  destruct (Hg s) as (g & s1 & H1). rewrite (bind_eq _ _ _ _ _ H1).
  run_unit ltac:(apply returns_updCanvas).
  run_unit ltac:(apply returns_Guid_set).
  run_unit ltac:(destruct inline; cbn [negb];
                 [apply returns_ret
                 | apply returns_whenAttr; intros; apply returns_updCanvas]).
  run_unit ltac:(apply returns_whenAttr; intros; apply returns_updCanvas).
  unfold tooSmall in Hsmall.
  destruct (attrs !! "width") as [w|] eqn:Hw.
  - destruct (JS.nonempty w) eqn:Hnw.
    + destruct (JS.ltOne (JS.parseInt w)) eqn:Hlw.
      * apply bind_Throw. unfold whenAttr. rewrite Hw, Hnw, Hlw. reflexivity.
      * destruct Hsmall as [Hsmall | Hsmall]; [discriminate|].
        unfold whenAttr at 1. rewrite Hw, Hnw, Hlw.
        run_unit ltac:(apply returns_updCanvas).
        apply bind_Throw. unfold whenAttr.
        destruct (attrs !! "height") as [h|]; [|discriminate].
        apply andb_true_iff in Hsmall as [-> ->]. reflexivity.
    + destruct Hsmall as [Hsmall | Hsmall]; [discriminate|].
      unfold whenAttr at 1. rewrite Hw, Hnw.
      unfold bind at 1. cbn [ret].
      apply bind_Throw. unfold whenAttr.
      destruct (attrs !! "height") as [h|]; [|discriminate].
      apply andb_true_iff in Hsmall as [-> ->]. reflexivity.
  - destruct Hsmall as [Hsmall | Hsmall]; [discriminate|].
    unfold whenAttr at 1. rewrite Hw.
    unfold bind at 1. cbn [ret].
    apply bind_Throw. unfold whenAttr.
    destruct (attrs !! "height") as [h|]; [|discriminate].
    apply andb_true_iff in Hsmall as [-> ->]. reflexivity.
Qed.

(** X16: a new canvas (the root, or an inline one) whose [width] or
    [height] is a number below one is refused before any child is
    read. *)
Theorem parseCanvas_too_small :
  forall fuel parent inline s tag rest,
    input s = OpenTag tag :: rest ->
    tagName tag = "canvas" ->
    inline = true \/ parent = None ->
    (forall g, attributes tag !! "guid" = Some g -> registry s !! g = None) ->
    tooSmall (attributes tag !! "width") = true
    \/ tooSmall (attributes tag !! "height") = true ->
    parseCanvas' (S fuel) parent inline s = Throw CanvasTooSmall.
Proof.
  intros fuel parent inline s tag rest Hin Hname Hroot Hguid Hsmall.
  cbn [parseCanvas].
  assert (Hc : checkName "canvas" s = Ret tag s).
  { unfold checkName, bind, checkOpen. rewrite Hin, Hname. reflexivity. }
  rewrite (bind_eq _ _ _ _ _ Hc).
  assert (Hfresh :
    (let* canvas := createCanvas childCanvas_undefined parent inline (attributes tag) in
     canvasHeader Guid_fresh canvas inline (attributes tag) ;;;
     loopTag fuel
       (canvasChild
          (parseCanvasDefs Guid_xor Guid_fresh childCanvas_undefined parseAnimated
             parseStaticList parseDynamicList parseLinkableValueNode fuel)
          canvas inline) (Some "canvas") tt ;;;
     ret canvas) s = Throw CanvasTooSmall).
  { assert (Hcreate : exists c s1,
      createCanvas childCanvas_undefined parent inline (attributes tag) s = Ret c s1).
    { unfold createCanvas.
      assert (inline || match parent with Some _ => false | None => true end = true)
        as -> by (destruct Hroot as [-> | ->]; [reflexivity | apply orb_true_r]).
      apply returns_bind; [apply returns_alloc|].
      intros c. apply returns_bind; [apply returns_updCanvas | intros; apply returns_ret]. }
    destruct Hcreate as (c & s1 & Hcreate).
    rewrite (bind_eq _ _ _ _ _ Hcreate).
    apply bind_Throw, canvasHeader_too_small, Hsmall. }
  destruct (attributes tag !! "guid") as [g|] eqn:Hg; [|exact Hfresh].
  destruct (JS.nonempty g); [|exact Hfresh].
  unfold bind at 1. unfold Guid_exists. rewrite (Hguid g eq_refl). exact Hfresh.
Qed.

(** X17: on a [canvas] element whose [guid] is in the registry,
    [parseCanvas] returns the registered object and consumes the whole
    element without looking inside; the id is looked up as written,
    whatever the parent and the inline flag are, and nothing is
    allocated or registered. *)
Theorem parseCanvas_registered_guid :
  forall fuel parent inline s tag body n rest g r,
    input s = OpenTag tag :: body ++ CloseTag n :: rest ->
    wellNested 0 body = true ->
    tagName tag = "canvas" ->
    attributes tag !! "guid" = Some g ->
    JS.nonempty g = true ->
    registry s !! g = Some r ->
    parseCanvas' (S fuel) parent inline s = Ret r (withInput rest s).
Proof.
  intros fuel parent inline s tag body n rest g r Hin Hb Hname Hg Hne Hreg.
  cbn [parseCanvas].
  assert (Hc : checkName "canvas" s = Ret tag s).
  { unfold checkName, bind, checkOpen. rewrite Hin, Hname. reflexivity. }
  rewrite (bind_eq _ _ _ _ _ Hc), Hg, Hne.
  unfold bind at 1. unfold Guid_exists. rewrite Hreg.
  rewrite (bind_eq _ _ _ _ _ (skipTag_element s tag body n rest Hin Hb)).
  unfold Guid_get. cbn [registry withInput]. now rewrite Hreg.
Qed.

End CanvasFacts.

Lemma parseCanvas_too_small_witness :
  Host.parseCanvas 1 None false
    (initialState [OpenTag (mkTag "canvas" [("width", "640"); ("height", "0")]);
                   CloseTag "canvas"])
  = Throw CanvasTooSmall.
Proof.
  apply (parseCanvas_too_small Host.xor Host.fresh Host.childCanvas_undefined
           None None None None 0 None false
           (initialState [OpenTag (mkTag "canvas" [("width", "640"); ("height", "0")]);
                          CloseTag "canvas"])
           (mkTag "canvas" [("width", "640"); ("height", "0")]) [CloseTag "canvas"]
           eq_refl eq_refl).
  - now right.
  - intros g Hg. discriminate Hg.
  - right. vm_compute. reflexivity.
Defined.

Lemma parseCanvas_registered_guid_witness :
  Host.parseCanvas 1 (Some 0%nat) true
    (Host.inRoot None
       [OpenTag (mkTag "canvas" [("guid", "R"); ("width", "0")]);
        OpenTag (mkTag "layer" []); CloseTag "layer"; CloseTag "canvas";
        CloseTag "defs"])
  = Ret 0%nat (Host.inRoot None [CloseTag "defs"]).
Proof.
  apply (parseCanvas_registered_guid Host.xor Host.fresh Host.childCanvas_undefined
           None None None None 0 (Some 0%nat) true
           (Host.inRoot None
              [OpenTag (mkTag "canvas" [("guid", "R"); ("width", "0")]);
               OpenTag (mkTag "layer" []); CloseTag "layer"; CloseTag "canvas";
               CloseTag "defs"])
           (mkTag "canvas" [("guid", "R"); ("width", "0")])
           [OpenTag (mkTag "layer" []); CloseTag "layer"] "canvas" [CloseTag "defs"]
           "R" 0%nat eq_refl eq_refl eq_refl eq_refl eq_refl eq_refl).
Defined.

Lemma headerStep_refl c s : headerStep c s s.
Proof. repeat split; eauto. Qed.

Lemma headerStep_trans c s1 s2 s3 :
  headerStep c s1 s2 -> headerStep c s2 s3 -> headerStep c s1 s3.
Proof.
  intros (Hi & Hr & Hg & Hl & Hc) (Hi' & Hr' & Hg' & Hl' & Hc').
  repeat split; try congruence.
  intros cv Hcv. destruct (Hc cv Hcv) as (cv1 & H1 & Hg1 & Hp1).
  destruct (Hc' cv1 H1) as (cv2 & H2 & Hg2 & Hp2).
  exists cv2. repeat split; congruence.
Qed.

Lemma setsProps_ret {A} c (a : A) : setsProps c (ret a).
Proof. intros s x s' H. inversion H; subst. apply headerStep_refl. Qed.

Lemma setsProps_throw {A} c e : setsProps c (@throw A e).
Proof. intros s x s' H. discriminate H. Qed.

Lemma setsProps_bind {A B} c (m : M A) (k : A -> M B) :
  setsProps c m -> (forall a, setsProps c (k a)) -> setsProps c (bind m k).
Proof.
  intros Hm Hk s b s' H. apply bind_Ret in H as (a & s1 & H1 & H2).
  eapply headerStep_trans; [eapply Hm, H1 | eapply Hk, H2].
Qed.

Lemma setsProps_whenAttr c attrs k body :
  (forall v, setsProps c (body v)) -> setsProps c (whenAttr attrs k body).
Proof.
  intros Hb. unfold whenAttr.
  destruct (attrs !! k) as [v|]; [destruct (JS.nonempty v)|];
    auto using setsProps_ret.
Qed.

Lemma updCanvas_Ret c f s :
  updCanvas c f s
  = Ret tt (withHeap (alter (fun o => match o with
                                      | OCanvas cv => OCanvas (f cv)
                                      | ONode _ => o
                                      end) c (heap s)) s).
Proof. reflexivity. Qed.

Lemma setsProps_updCanvas c f :
  (forall cv, guid (f cv) = guid cv /\ parent (f cv) = parent cv) ->
  setsProps c (updCanvas c f).
Proof.
  intros Hf s [] s' H. rewrite updCanvas_Ret in H. inversion H; subst; clear H.
  repeat split; cbn [heap withHeap]; [apply length_alter|].
  intros cv Hcv. exists (f cv). split; [apply canvasAt_alter, Hcv | apply Hf].
Qed.

Lemma setsProps_setProp c k v : setsProps c (updCanvas c (setProp k v)).
Proof. apply setsProps_updCanvas. intros cv. split; reflexivity. Qed.

Lemma setsProps_setFps c f : setsProps c (updCanvas c (setFps f)).
Proof. apply setsProps_updCanvas. intros cv. split; reflexivity. Qed.

Lemma setsProps_canvasFps c o : setsProps c (canvasFps o).
Proof. intros s a s' H. inversion H; subst. apply headerStep_refl. Qed.

Lemma setsProps_parseTimeM c stamp fps : setsProps c (parseTimeM stamp fps).
Proof.
  intros s a s' H. unfold parseTimeM in H.
  destruct (parseTime stamp fps) as [[v ws]|]; [|discriminate].
  inversion H; subst. repeat split; eauto.
Qed.

Lemma setsProps_splitArity c name arity v : setsProps c (splitArity name arity v).
Proof.
  unfold splitArity.
  destruct (negb _); auto using setsProps_ret, setsProps_throw.
Qed.

Ltac setsProps_step :=
  first
    [ apply setsProps_ret | apply setsProps_throw
    | apply setsProps_setProp | apply setsProps_setFps
    | apply setsProps_canvasFps | apply setsProps_parseTimeM
    | apply setsProps_splitArity
    | apply setsProps_whenAttr; intros
    | apply setsProps_bind; [|intros]
    | match goal with
      | |- setsProps _ (if ?b then _ else _) => destruct b
      | |- setsProps _ (match ?o with Some _ => _ | None => _ end) => destruct o
      end ].

Lemma checkName_Ret name s tag s' t rest :
  input s = OpenTag t :: rest ->
  checkName name s = Ret tag s' -> tag = t /\ s' = s /\ tagName t = name.
Proof.
  intros Hin H. unfold checkName in H.
  apply bind_Ret in H as (t' & s1 & Hc & H).
  destruct (checkOpen_Ret _ _ _ _ _ Hin Hc) as [-> ->].
  destruct (String.eqb (tagName t) name) eqn:E; [|discriminate].
  apply String.eqb_eq in E. inversion H; subst. auto.
Qed.

Section CanvasHeaderFacts.

Variable Guid_xor : string -> option string -> string.
Variable Guid_fresh : nat -> string.
Variable childCanvas_undefined : option string -> M Ref.
Variable parseAnimated : option (Ref -> M Ref).
Variable parseStaticList : option (Ref -> M Ref).
Variable parseDynamicList : option (Ref -> M Ref).
Variable parseLinkableValueNode : option (Ref -> M (option Ref)).

Local Abbreviation parseCanvas' :=
  (parseCanvas Guid_xor Guid_fresh childCanvas_undefined
     parseAnimated parseStaticList parseDynamicList parseLinkableValueNode).

(** The header sets the id of the canvas, registers the canvas under
    it, and apart from that assigns properties only. *)
Lemma canvasHeader_Ret c inline attrs s s' cv :
  canvasAt (heap s) c = Some cv ->
  canvasHeader Guid_fresh c inline attrs s = Ret tt s' ->
  input s' = input s
  /\ registry s' = <[canvasGuid Guid_fresh attrs s := c]> (registry s)
  /\ length (heap s') = length (heap s)
  /\ exists cv', canvasAt (heap s') c = Some cv'
                 /\ guid cv' = Some (canvasGuid Guid_fresh attrs s)
                 /\ parent cv' = parent cv.
Proof.
  intros Hcv H. unfold canvasHeader in H.
  apply bind_Ret in H as (g & s1 & Hg & H).
  assert (Hs1 : g = canvasGuid Guid_fresh attrs s
                /\ input s1 = input s /\ registry s1 = registry s
                /\ heap s1 = heap s).
  { unfold canvasGuid.
    destruct (attrs !! "guid") as [g0|]; [destruct (JS.nonempty g0)|];
      inversion Hg; subst; auto. }
  destruct Hs1 as (-> & Hi1 & Hr1 & Hh1).
  apply bind_Ret in H as ([] & s2 & Hset & H).
  rewrite updCanvas_Ret in Hset. inversion Hset; subst s2; clear Hset.
  apply bind_Ret in H as ([] & s3 & Hreg & H).
  unfold Guid_set, modify in Hreg. inversion Hreg; subst s3; clear Hreg.
  match type of H with ?m _ = _ =>
    assert (Hrest : setsProps c m) by (repeat setsProps_step)
  end.
  apply Hrest in H as (Hi & Hr & _ & Hl & Hc).
  cbn [input registry heap withRegistry withHeap] in Hi, Hr, Hl, Hc.
  rewrite Hh1 in Hl, Hc.
  split; [congruence|]. split; [now rewrite Hr, Hr1|].
  split; [now rewrite Hl, length_alter|].
  destruct (Hc _ (canvasAt_alter _ _ (setGuid _) _ Hcv)) as (cv' & H' & Hg' & Hp').
  exists cv'. repeat split; assumption.
Qed.

(** X21: where [parseCanvas] returns a new canvas (the root, or an
    inline one) for an element without children, the canvas is the one
    object more in the heap, the element is consumed, the canvas is
    registered under its id, the [guid] attribute as written or a
    generated id, has that id, and has the parent it was given. *)
Theorem parseCanvas_registers :
  forall fuel par inline s tag rest c s',
    input s = OpenTag tag :: CloseTag "canvas" :: rest ->
    inline = true \/ par = None ->
    (forall g, attributes tag !! "guid" = Some g -> registry s !! g = None) ->
    parseCanvas' fuel par inline s = Ret c s' ->
    c = length (heap s)
    /\ input s' = rest
    /\ registry s' = <[canvasGuid Guid_fresh (attributes tag) s := c]> (registry s)
    /\ length (heap s') = S (length (heap s))
    /\ exists cv, canvasAt (heap s') c = Some cv
                  /\ guid cv = Some (canvasGuid Guid_fresh (attributes tag) s)
                  /\ parent cv = par.
Proof.
  intros fuel par inline s tag rest c s' Hin Hroot Hguid H.
  destruct fuel as [|fuel]; [discriminate H|].
  cbn [parseCanvas] in H.
  apply bind_Ret in H as (t & s0 & Hc & H).
  destruct (checkName_Ret _ _ _ _ _ _ Hin Hc) as (-> & -> & Hname).
  assert (Hfresh :
    (let* canvas := createCanvas childCanvas_undefined par inline (attributes tag) in
     canvasHeader Guid_fresh canvas inline (attributes tag) ;;;
     loopTag fuel
       (canvasChild
          (parseCanvasDefs Guid_xor Guid_fresh childCanvas_undefined parseAnimated
             parseStaticList parseDynamicList parseLinkableValueNode fuel)
          canvas inline) (Some "canvas") tt ;;;
     ret canvas) s = Ret c s').
  { destruct (attributes tag !! "guid") as [g|] eqn:Hg; [|exact H].
    destruct (JS.nonempty g); [|exact H].
    unfold bind at 1 in H. unfold Guid_exists in H.
    rewrite (Hguid g eq_refl) in H. exact H. }
  clear H.
  apply bind_Ret in Hfresh as (c0 & s1 & Hcreate & H).
  unfold createCanvas in Hcreate.
  assert (inline || match par with Some _ => false | None => true end = true)
    as Hb by (destruct Hroot as [-> | ->]; [reflexivity | apply orb_true_r]).
  rewrite Hb in Hcreate.
  unfold Canvas_create, alloc, bind, ret in Hcreate.
  rewrite updCanvas_Ret in Hcreate. inversion Hcreate; subst c0 s1; clear Hcreate.
  cbn [heap withHeap] in H.
  apply bind_Ret in H as ([] & s2 & Hhead & H).
  apply canvasHeader_Ret with (cv := setParent par Canvas_empty) in Hhead.
  2:{ cbn [heap withHeap]. apply canvasAt_alter.
      unfold canvasAt. now rewrite lookup_app_r, Nat.sub_diag by reflexivity. }
  cbn [heap withHeap input registry generated] in Hhead.
  destruct Hhead as (Hi & Hr & Hl & cv' & Hcv' & Hg' & Hp').
  rewrite length_alter, length_app in Hl. cbn [length] in Hl.
  apply bind_Ret in H as ([] & s3 & Hloop & H).
  inversion H; subst c s3; clear H.
  unfold loopTag in Hloop.
  apply bind_Ret in Hloop as (t & s4 & Hexp & Hloop).
  unfold expectName in Hexp.
  apply bind_Ret in Hexp as (t' & s5 & Hcn & Hexp).
  rewrite Hin in Hi.
  destruct (checkName_Ret _ _ _ _ _ _ Hi Hcn) as (-> & -> & _).
  unfold bind, next, modify, ret in Hexp. inversion Hexp; subst t s4; clear Hexp.
  apply bind_Ret in Hloop as ([] & s6 & Hch & Hloop).
  destruct fuel as [|fuel]; [discriminate Hch|].
  cbn [loopChildren] in Hch. cbn [input withInput] in Hch. rewrite Hi in Hch.
  cbn [tail] in Hch. inversion Hch; subst s6; clear Hch.
  unfold bind, expectClose, ret in Hloop. cbn [input withInput] in Hloop.
  rewrite Hname in Hloop.
  cbn in Hloop. inversion Hloop; subst s'; clear Hloop.
  cbn [input heap registry withInput].
  split; [reflexivity|]. split; [reflexivity|]. split; [exact Hr|].
  split; [lia|].
  exists cv'. repeat split; assumption.
Qed.

End CanvasHeaderFacts.

Lemma parseCanvas_registers_witness :
  let tag := mkTag "canvas" [("guid", "G"); ("width", "640"); ("fps", "24")] in
  let s := Host.inRoot None [OpenTag tag; CloseTag "canvas"; CloseTag "defs"] in
  exists s',
    Host.parseCanvas 2 (Some 0%nat) true s = Ret 1%nat s'
    /\ input s' = [CloseTag "defs"]
    /\ registry s' = <["G" := 1%nat]> (registry s)
    /\ exists cv, canvasAt (heap s') 1 = Some cv
                  /\ guid cv = Some "G" /\ parent cv = Some 0%nat.
Proof.
  intros tag s.
  destruct (Host.parseCanvas 2 (Some 0%nat) true s) as [c s'| |] eqn:H;
    [|vm_compute in H; discriminate H..].
  destruct (parseCanvas_registers Host.xor Host.fresh Host.childCanvas_undefined
              None None None None 2 (Some 0%nat) true s tag [CloseTag "defs"] c s'
              eq_refl (or_introl eq_refl)
              ltac:(intros g Hg; vm_compute in Hg; inversion Hg; reflexivity) H)
    as (-> & Hi & Hr & _ & Hcv).
  exists s'. split; [reflexivity|]. split; [exact Hi|]. split; [exact Hr|]. exact Hcv.
Defined.

(** ** Value nodes *)

Lemma bind_ext {A B} (m : M A) (k k' : A -> M B) s :
  (forall a s', k a s' = k' a s') -> bind m k s = bind m k' s.
Proof. intros H. unfold bind. destruct (m s); auto. Qed.

Lemma bind_congr {A B} (m : M A) (k k' : A -> M B) s :
  (forall a s', m s = Ret a s' -> k a s' = k' a s') -> bind m k s = bind m k' s.
Proof. intros H. unfold bind. destruct (m s); auto. Qed.

Lemma bind_ext_l {A B} (m m' : M A) (k : A -> M B) s :
  m s = m' s -> bind m k s = bind m' k s.
Proof. intros H. unfold bind. now rewrite H. Qed.

Lemma loopChildren_ext {A} (cb cb' : A -> M A) :
  (forall acc s, cb acc s = cb' acc s) ->
  forall fuel acc s, loopChildren fuel cb acc s = loopChildren fuel cb' acc s.
Proof.
  intros H. induction fuel as [|fuel IH]; intros acc s; [reflexivity|].
  cbn [loopChildren].
  destruct (input s) as [|[t|n|t r] rest]; try reflexivity;
    (rewrite (bind_ext_l _ _ _ _ (H acc s)); apply bind_ext; intros; apply IH).
Qed.

Lemma loopTag_ext {A} (cb cb' : A -> M A) :
  (forall acc s, cb acc s = cb' acc s) ->
  forall fuel name acc s, loopTag fuel cb name acc s = loopTag fuel cb' name acc s.
Proof.
  intros H fuel name acc s. unfold loopTag.
  apply bind_ext. intros tag s1.
  apply bind_ext_l, loopChildren_ext, H.
Qed.

Lemma canvasChild_ext (defs defs' : Ref -> M unit) :
  (forall c s, defs c s = defs' c s) ->
  forall canvas inline u s,
    canvasChild defs canvas inline u s = canvasChild defs' canvas inline u s.
Proof.
  intros H canvas inline u s. unfold canvasChild.
  apply bind_ext. intros tag s1.
  destruct (String.eqb (tagName tag) "defs"); [|reflexivity].
  destruct inline; [reflexivity | apply H].
Qed.

(** The [switch] of [parseValue] returns nothing on a placeholder name
    only, and has read nothing then. *)
Lemma parseValue_switch_None rec f c tag s s' :
  parseValue_switch rec f c tag s = Ret (Return None) s' ->
  In (tagName tag) placeholderNames /\ s' = s.
Proof.
  unfold parseValue_switch, placeholderNames. intros H.
  repeat inv_step; try discriminate;
    match goal with
    | E : String.eqb (tagName tag) ?k = true |- _ =>
        apply String.eqb_eq in E; rewrite E; cbn; tauto
    end.
Qed.

Lemma parseValue_None fuel canvas s s' :
  parseValue fuel canvas s = Ret None s' ->
  exists tag rest,
    input s = OpenTag tag :: rest /\ In (tagName tag) placeholderNames /\ s' = s.
Proof.
  destruct fuel as [|fuel]; [discriminate|].
  cbn [parseValue]. intros H.
  apply bind_Ret in H as (tag & s0 & Hc & H).
  unfold checkOpen in Hc.
  destruct (input s) as [|[t|n|t r] rest] eqn:Hin; try discriminate.
  inversion Hc; subst t s0; clear Hc.
  apply bind_Ret in H as (comp & s1 & Hsw & H).
  destruct comp as [data | result].
  - repeat inv_step; try discriminate.
  - inversion H; subst result s1; clear H.
    apply parseValue_switch_None in Hsw as [Hp ->].
    exists tag, rest. auto.
Qed.

Lemma parseValue_placeholder fuel canvas s tag rest :
  input s = OpenTag tag :: rest ->
  In (tagName tag) placeholderNames ->
  parseValue (S fuel) canvas s = Ret None s.
Proof.
  intros Hin Hp. enter_parseValue Hin.
  cbn in Hp. repeat (destruct Hp as [Hp | Hp]; [rewrite <- Hp; reflexivity|]).
  destruct Hp.
Qed.

Section ValueNodeFacts.

Variable Guid_xor : string -> option string -> string.
Variable Guid_fresh : nat -> string.
Variable childCanvas_undefined : option string -> M Ref.

Local Abbreviation parseValueNode' :=
  (parseValueNode Guid_xor Guid_fresh childCanvas_undefined).
Local Abbreviation parseCanvas' :=
  (parseCanvas Guid_xor Guid_fresh childCanvas_undefined).
Local Abbreviation parseCanvasDefs' :=
  (parseCanvasDefs Guid_xor Guid_fresh childCanvas_undefined).

Lemma nodeParserTable_placeholder pa ps pd name s :
  In name placeholderNames ->
  nodeParserTable (Some pa) (Some ps) (Some pd) name s = Ret None s.
Proof.
  intros H. cbn in H.
  repeat (destruct H as [<- | H]; [reflexivity|]). destruct H.
Qed.

(** The reference handling on an element whose id is not registered. *)
Lemma nodeReference_new canvas tag s :
  (forall g, attributes tag !! "guid" = Some g ->
             registry s !! Guid_xor g (rootGuidOf (heap s) canvas) = None) ->
  exists s1,
    nodeReference Guid_xor Guid_fresh canvas (attributes tag) s
    = Ret (inr (referenceId Guid_xor Guid_fresh canvas tag s)) s1
    /\ input s1 = input s /\ heap s1 = heap s /\ registry s1 = registry s.
Proof.
  intros Hreg. unfold nodeReference, referenceId.
  destruct (attributes tag !! "guid") as [g|].
  - destruct (JS.nonempty g).
    + unfold bind, rootGuid, Guid_exists. rewrite (Hreg g eq_refl). eauto.
    + eexists. split; [reflexivity|]. auto.
  - eexists. split; [reflexivity|]. auto.
Qed.

Lemma nodeReference_inr canvas attrs s g s1 :
  nodeReference Guid_xor Guid_fresh canvas attrs s = Ret (inr g) s1 ->
  input s1 = input s.
Proof.
  unfold nodeReference. intros H.
  destruct (attrs !! "guid") as [g0|].
  - destruct (JS.nonempty g0).
    + unfold bind, rootGuid, Guid_exists in H.
      destruct (registry s !! Guid_xor g0 (rootGuidOf (heap s) canvas)).
      * destruct (skipTag s) as [[] s2| |]; try discriminate.
        unfold Guid_get in H. destruct (registry s2 !! _); discriminate.
      * inversion H. reflexivity.
    + inversion H. reflexivity.
  - inversion H. reflexivity.
Qed.

(** X19: with the name [parseAnimated] unbound, as the file leaves
    it, [parseValueNode] on a [canvas] element or on another placeholder
    whose reference id is not registered throws a ReferenceError where
    it builds the table of node parsers: an inline canvas is never
    parsed. *)
Theorem parseValueNode_unbound_parsers :
  forall ps pd pl fuel canvas s tag rest,
    input s = OpenTag tag :: rest ->
    In (tagName tag) placeholderNames ->
    (forall g, attributes tag !! "guid" = Some g ->
               registry s !! Guid_xor g (rootGuidOf (heap s) canvas) = None) ->
    parseValueNode' None ps pd pl (S (S fuel)) canvas s
    = Throw (ReferenceError "parseAnimated").
Proof.
  intros ps pd pl fuel canvas s tag rest Hin Hp Hreg.
  cbn [parseValueNode].
  rewrite (bind_eq checkOpen _ s tag s) by (unfold checkOpen; now rewrite Hin).
  destruct (nodeReference_new canvas tag s Hreg) as (s1 & Href & Hi1 & _ & _).
  rewrite (bind_eq _ _ _ _ _ Href).
  assert (Hv : (if negb (String.eqb (tagName tag) "canvas")
                then parseValue (S fuel) canvas else ret None) s1 = Ret None s1).
  { destruct (negb _); [|reflexivity].
    apply (parseValue_placeholder fuel canvas s1 tag rest); [congruence | exact Hp]. }
  rewrite (bind_eq _ _ _ _ _ Hv). reflexivity.
Qed.

(** X18: the table of node parsers in [parseValueNode] is never
    used.  It is consulted for the names on which [parseValue] returns
    nothing, and none of them is a key of the table: with the three
    parsers bound, the canvas parser, the definitions parser and the
    value node parser do the same whatever the three parsers are. *)
Theorem parseValueNode_table_unused :
  forall pa ps pd pa' ps' pd' pl fuel,
    (forall par inline s,
       parseCanvas Guid_xor Guid_fresh childCanvas_undefined
         (Some pa) (Some ps) (Some pd) pl fuel par inline s
       = parseCanvas Guid_xor Guid_fresh childCanvas_undefined
           (Some pa') (Some ps') (Some pd') pl fuel par inline s)
    /\ (forall canvas s,
          parseCanvasDefs Guid_xor Guid_fresh childCanvas_undefined
            (Some pa) (Some ps) (Some pd) pl fuel canvas s
          = parseCanvasDefs Guid_xor Guid_fresh childCanvas_undefined
              (Some pa') (Some ps') (Some pd') pl fuel canvas s)
    /\ (forall canvas s,
          parseValueNode Guid_xor Guid_fresh childCanvas_undefined
            (Some pa) (Some ps) (Some pd) pl fuel canvas s
          = parseValueNode Guid_xor Guid_fresh childCanvas_undefined
              (Some pa') (Some ps') (Some pd') pl fuel canvas s).
Proof.
  intros pa ps pd pa' ps' pd' pl.
  induction fuel as [|fuel (IHc & IHd & IHn)]; [repeat split; reflexivity|].
  split; [|split].
  - intros par inline s. cbn [parseCanvas].
    apply bind_ext. intros tag s1.
    assert (Hfresh : forall s2,
      (let* canvas := createCanvas childCanvas_undefined par inline (attributes tag) in
       canvasHeader Guid_fresh canvas inline (attributes tag) ;;;
       loopTag fuel
         (canvasChild (parseCanvasDefs' (Some pa) (Some ps) (Some pd) pl fuel)
            canvas inline) (Some "canvas") tt ;;;
       ret canvas) s2
      = (let* canvas := createCanvas childCanvas_undefined par inline (attributes tag) in
         canvasHeader Guid_fresh canvas inline (attributes tag) ;;;
         loopTag fuel
           (canvasChild (parseCanvasDefs' (Some pa') (Some ps') (Some pd') pl fuel)
              canvas inline) (Some "canvas") tt ;;;
         ret canvas) s2).
    { intros s2. apply bind_ext. intros canvas s3.
      apply bind_ext. intros [] s4.
      apply bind_ext_l, loopTag_ext.
      apply canvasChild_ext, IHd. }
    destruct (attributes tag !! "guid") as [g|]; [|apply Hfresh].
    destruct (JS.nonempty g); [|apply Hfresh].
    apply bind_ext. intros [|] s2; [reflexivity | apply Hfresh].
  - intros canvas s. cbn [parseCanvasDefs].
    apply loopTag_ext. intros [] s1.
    apply bind_ext. intros tag s2.
    destruct (String.eqb (tagName tag) "canvas");
      apply bind_ext_l; [apply IHc | apply IHn].
  - intros canvas s. cbn [parseValueNode].
    apply bind_congr. intros tag s1 Hc.
    unfold checkOpen in Hc.
    destruct (input s) as [|[t|n|t r] rest] eqn:Hin; try discriminate.
    inversion Hc; subst t s1; clear Hc.
    apply bind_congr. intros [node | g] s2 Href; [reflexivity|].
    apply nodeReference_inr in Href as Hi2.
    apply bind_congr. intros [v|] s3 Hv; [reflexivity|].
    assert (Hp : In (tagName tag) placeholderNames).
    { destruct (String.eqb (tagName tag) "canvas") eqn:E; cbn [negb] in Hv.
      - apply String.eqb_eq in E. rewrite E. cbn. tauto.
      - apply parseValue_None in Hv as (t & rest' & Hin' & Hp & _).
        rewrite Hi2, Hin in Hin'. inversion Hin'; subst. exact Hp. }
    apply bind_ext_l.
    rewrite !(bind_eq _ _ _ _ _ (nodeParserTable_placeholder _ _ _ _ s3 Hp)).
    apply bind_ext. intros linkable s4.
    apply bind_ext. intros [n|] s5; [reflexivity|].
    destruct (String.eqb (tagName tag) "canvas"); [|reflexivity].
    apply bind_ext_l, IHc.
Qed.

End ValueNodeFacts.

Lemma parseValueNode_unbound_parsers_witness :
  Host.parseValueNode 2 0
    (Host.inRoot None
       [OpenTag (mkTag "canvas" [("guid", "A")]); CloseTag "canvas"; CloseTag "defs"])
  = Throw (ReferenceError "parseAnimated").
Proof.
  apply (parseValueNode_unbound_parsers Host.xor Host.fresh Host.childCanvas_undefined
           None None None 0 0
           (Host.inRoot None
              [OpenTag (mkTag "canvas" [("guid", "A")]); CloseTag "canvas";
               CloseTag "defs"])
           (mkTag "canvas" [("guid", "A")]) [CloseTag "canvas"; CloseTag "defs"]
           eq_refl).
  - cbn. tauto.
  - intros g Hg. vm_compute in Hg. inversion Hg; subst. vm_compute. reflexivity.
Defined.

Section DefsFacts.

Variable Guid_xor : string -> option string -> string.
Variable Guid_fresh : nat -> string.
Variable childCanvas_undefined : option string -> M Ref.
Variable parseAnimated : option (Ref -> M Ref).
Variable parseStaticList : option (Ref -> M Ref).
Variable parseDynamicList : option (Ref -> M Ref).
Variable parseLinkableValueNode : option (Ref -> M (option Ref)).

Local Abbreviation parseValueNode' :=
  (parseValueNode Guid_xor Guid_fresh childCanvas_undefined
     parseAnimated parseStaticList parseDynamicList parseLinkableValueNode).
Local Abbreviation parseCanvas' :=
  (parseCanvas Guid_xor Guid_fresh childCanvas_undefined
     parseAnimated parseStaticList parseDynamicList parseLinkableValueNode).
Local Abbreviation parseCanvasDefs' :=
  (parseCanvasDefs Guid_xor Guid_fresh childCanvas_undefined
     parseAnimated parseStaticList parseDynamicList parseLinkableValueNode).

(** On an element without id whose name no case of [parseValue] names,
    [parseValueNode] makes a constant node and leaves the element where it
    is. *)
Lemma parseValueNode_unrecognized canvas s tag rest st ip :
  input s = OpenTag tag :: rest ->
  ~ In (tagName tag) valueCaseNames ->
  JS.truthyStr (attributes tag !! "guid") = false ->
  staticReads (attributes tag !! "static") st ->
  interpolationReads (attributes tag !! "interpolation") ip ->
  forall fuel,
    exists n s',
      parseValueNode' (S (S fuel)) canvas s = Ret n s'
      /\ input s' = input s
      /\ generated s' = S (generated s)
      /\ length (heap s') = S (length (heap s)).
Proof.
  intros Hin Hn Hg Hst Hip fuel.
  cbn [parseValueNode].
  rewrite (bind_eq checkOpen _ s tag s) by (unfold checkOpen; now rewrite Hin).
  assert (Href : nodeReference Guid_xor Guid_fresh canvas (attributes tag) s
                 = Ret (inr (Guid_fresh (generated s)))
                       (withGenerated (S (generated s)) s)).
  { unfold nodeReference. unfold JS.truthyStr in Hg.
    destruct (attributes tag !! "guid") as [g|]; [rewrite Hg|]; reflexivity. }
  rewrite (bind_eq _ _ _ _ _ Href).
  assert (Hcanvas : String.eqb (tagName tag) "canvas" = false).
  { apply String.eqb_neq. intros E. apply Hn. rewrite E. cbn. tauto. }
  rewrite Hcanvas. cbn [negb].
  rewrite (bind_eq _ _ _ _ _
             (parseValue_unrecognized fuel canvas (withGenerated (S (generated s)) s)
                tag rest st ip Hin Hn Hst Hip)).
  unfold VNConst_create, alloc. unfold bind at 1. cbn [heap withGenerated].
  unfold whenAttr, Canvas_addValueNode.
  destruct (attributes tag !! "id") as [i|]; [destruct (JS.nonempty i)|];
    (eexists; eexists; split; [reflexivity|]);
    cbn; rewrite ?length_alter, ?length_app; cbn; repeat split; lia.
Qed.

Lemma defsLoop_stuck canvas tag rest st ip :
  ~ In (tagName tag) valueCaseNames ->
  JS.truthyStr (attributes tag !! "guid") = false ->
  staticReads (attributes tag !! "static") st ->
  interpolationReads (attributes tag !! "interpolation") ip ->
  forall rec_fuel fuel s,
    input s = OpenTag tag :: rest ->
    loopChildren fuel
      (fun _ : unit =>
         let* tag := checkOpen in
         if String.eqb (tagName tag) "canvas" then
           parseCanvas' rec_fuel (Some canvas) false ;;; ret tt
         else
           parseValueNode' rec_fuel canvas ;;; ret tt) tt s
    = OutOfFuel.
Proof.
  intros Hn Hg Hst Hip rec_fuel.
  assert (Hcanvas : String.eqb (tagName tag) "canvas" = false).
  { apply String.eqb_neq. intros E. apply Hn. rewrite E. cbn. tauto. }
  induction fuel as [|fuel IH]; intros s Hin; [reflexivity|].
  cbn [loopChildren]. rewrite Hin.
  match goal with |- bind ?c _ _ = _ =>
    assert (Hcb : c s = bind (parseValueNode' rec_fuel canvas) (fun _ => ret tt) s)
  end.
  { rewrite (bind_eq checkOpen _ s tag s) by (unfold checkOpen; now rewrite Hin).
    now rewrite Hcanvas. }
  destruct rec_fuel as [|[|rec_fuel]].
  - apply bind_OutOfFuel. rewrite Hcb. reflexivity.
  - apply bind_OutOfFuel. rewrite Hcb. apply bind_OutOfFuel.
    cbn [parseValueNode].
    rewrite (bind_eq checkOpen _ s tag s) by (unfold checkOpen; now rewrite Hin).
    unfold nodeReference. unfold JS.truthyStr in Hg.
    destruct (attributes tag !! "guid") as [g|]; [rewrite Hg|];
      rewrite Hcanvas; reflexivity.
  - destruct (parseValueNode_unrecognized canvas s tag rest st ip Hin Hn Hg Hst Hip
                rec_fuel) as (n & s' & Hrun & Hi & _).
    rewrite (bind_eq _ _ s tt s')
      by (rewrite Hcb; now rewrite (bind_eq _ _ _ _ _ Hrun)).
    apply IH. congruence.
Qed.

(** X20: a [defs] element whose first child has no [guid] and a name
    that no case of [parseValue] names is never parsed to the end:
    [parseValueNode] makes a constant node of the child without
    consuming it, under a fresh id each time, and the loop meets the
    same child again, with any amount of fuel. *)
Theorem parseCanvasDefs_unrecognized_child :
  forall canvas s defs child rest,
    input s = OpenTag defs :: OpenTag child :: rest ->
    tagName defs = "defs" ->
    ~ In (tagName child) valueCaseNames ->
    JS.truthyStr (attributes child !! "guid") = false ->
    (exists st, staticReads (attributes child !! "static") st) ->
    (exists ip, interpolationReads (attributes child !! "interpolation") ip) ->
    forall fuel, parseCanvasDefs' fuel canvas s = OutOfFuel.
Proof.
  intros canvas s defs child rest Hin Hname Hn Hg [st Hst] [ip Hip] fuel.
  destruct fuel as [|fuel]; [reflexivity|].
  cbn [parseCanvasDefs]. unfold loopTag.
  assert (Hexp : expectName "defs" s = Ret defs (withInput (OpenTag child :: rest) s)).
  { unfold expectName, checkName, bind, checkOpen, next, modify.
    rewrite Hin, Hname. cbn. rewrite Hin. reflexivity. }
  rewrite (bind_eq _ _ _ _ _ Hexp).
  apply bind_OutOfFuel.
  apply (defsLoop_stuck canvas child rest st ip Hn Hg Hst Hip fuel fuel). reflexivity.
Qed.

End DefsFacts.

Lemma parseCanvasDefs_unrecognized_child_witness :
  Host.parseCanvasDefs 1000 0
    (Host.inRoot None
       [OpenTag (mkTag "defs" []); OpenTag (mkTag "hermite" [("id", "h")]);
        CloseTag "hermite"; CloseTag "defs"])
  = OutOfFuel.
Proof.
  generalize 1000%nat.
  apply (parseCanvasDefs_unrecognized_child Host.xor Host.fresh
           Host.childCanvas_undefined None None None None 0
           (Host.inRoot None
              [OpenTag (mkTag "defs" []); OpenTag (mkTag "hermite" [("id", "h")]);
               CloseTag "hermite"; CloseTag "defs"])
           (mkTag "defs" []) (mkTag "hermite" [("id", "h")])
           [CloseTag "hermite"; CloseTag "defs"] eq_refl eq_refl).
  - cbn. intros H. repeat (destruct H as [H | H]; [discriminate H|]). exact H.
  - reflexivity.
  - exists false. cbn. auto.
  - exists UNDEFINED. reflexivity.
Defined.

(** ** Keyframes and the other children of a canvas *)

(** X22: the time of a keyframe is its [time] attribute parsed with
    the frame rate of the canvas, the warnings of [parseTime] are
    printed, and the description is the trimmed text inside the
    element, empty when there is none.  An element inside a keyframe
    fails in the reader. *)
Theorem parseKeyframe_time_and_text :
  forall canvas s tag time rest,
    tagName tag = "keyframe" ->
    attributes tag !! "time" = Some time ->
    exists v ws,
      parseTime time (fpsOf (heap s) canvas) = Some (v, ws)
      /\ (forall t r,
            input s = OpenTag tag :: TextNode t r :: CloseTag "keyframe" :: rest ->
            exists k,
              parseKeyframe canvas s
              = Ret k (withInput rest (withWarnings (warnings s ++ ws) s))
              /\ kfTime k = v /\ kfDesc k = t)
      /\ (input s = OpenTag tag :: CloseTag "keyframe" :: rest ->
          exists k,
            parseKeyframe canvas s
            = Ret k (withInput rest (withWarnings (warnings s ++ ws) s))
            /\ kfTime k = v /\ kfDesc k = EmptyString)
      /\ (forall child more,
            input s = OpenTag tag :: OpenTag child :: more ->
            parseKeyframe canvas s = Throw (ReaderError "closetag")).
Proof.
  intros canvas s tag time rest Hname Htime.
  destruct (parseTime_total time (fpsOf (heap s) canvas)) as (v & ws & Hpt).
  exists v, ws. split; [exact Hpt|].
  assert (Hrun : forall body,
    input s = OpenTag tag :: body ->
    parseKeyframe canvas s
    = (let* txt := nextText in
       expectClose "keyframe" ;;;
       ret (Keyframe_create v
              (strictNeq (attributes tag !! "active") "false"
               && strictNeq (attributes tag !! "active") "0") (text txt)))
        (withWarnings (warnings s ++ ws) (withInput body s))).
  { intros body Hin. unfold parseKeyframe.
    assert (Hexp : expectName "keyframe" s = Ret tag (withInput body s)).
    { unfold expectName, checkName, bind, checkOpen, next, modify.
      rewrite Hin, Hname. cbn. rewrite Hin. reflexivity. }
    rewrite (bind_eq _ _ _ _ _ Hexp).
    unfold checkAttribute. rewrite Htime.
    unfold bind at 1. cbn [ret].
    unfold bind at 1. unfold canvasFps at 1.
    change (match canvas with
            | Some c => match canvasAt (heap (withInput body s)) c with
                        | Some cv => fps cv
                        | None => None
                        end
            | None => None
            end) with (fpsOf (heap s) canvas).
    unfold parseTimeM. rewrite Hpt. reflexivity. }
  split; [|split].
  - intros t r Hin. rewrite (Hrun _ Hin). eexists. split; [reflexivity|]. auto.
  - intros Hin. rewrite (Hrun _ Hin). eexists. split; [reflexivity|]. auto.
  - intros child more Hin. rewrite (Hrun _ Hin). reflexivity.
Qed.

Lemma parseKeyframe_time_and_text_witness :
  let tag := mkTag "keyframe" [("time", "10f")] in
  let s := Host.inRoot (Some (JS.Fin 25))
             [OpenTag tag; TextNode "intro" " intro "; CloseTag "keyframe"] in
  exists k, parseKeyframe (Some 0%nat) s = Ret k (Host.inRoot (Some (JS.Fin 25)) [])
            /\ kfTime k = (10 # 25)%Q /\ kfDesc k = "intro".
Proof.
  intros tag s.
  destruct (parseKeyframe_time_and_text (Some 0%nat) s tag "10f" [] eq_refl eq_refl)
    as (v & ws & Hpt & Htext & _).
  vm_compute in Hpt. inversion Hpt; subst v ws; clear Hpt.
  destruct (Htext "intro" " intro " eq_refl) as (k & Hk & Ht & Hd).
  exists k. split; [exact Hk|]. split; assumption.
Defined.

(** X23: of the other children of a canvas, a [layer] always throws,
    inline or not; an element that no case names is an error naming
    it; [bones] prints a warning and is skipped whole; [name], [desc]
    and [author] store the trimmed text under their name. *)
Theorem canvasChild_other_children :
  forall fuel defs canvas inline s tag rest,
    input s = OpenTag tag :: rest ->
    (tagName tag = "layer" ->
     loopChildren (S fuel) (canvasChild defs canvas inline) tt s
     = Throw LayerNotImplemented)
    /\ (~ In (tagName tag) canvasChildNames ->
        loopChildren (S fuel) (canvasChild defs canvas inline) tt s
        = Throw (UnexpectedElement "canvas" (tagName tag)))
    /\ (tagName tag = "bones" ->
        forall body n rest',
          rest = body ++ CloseTag n :: rest' ->
          wellNested 0 body = true ->
          loopChildren (S fuel) (canvasChild defs canvas inline) tt s
          = loopChildren fuel (canvasChild defs canvas inline) tt
              (withInput rest' (withWarnings (warnings s ++ [WBones]) s)))
    /\ (In (tagName tag) ["name"; "desc"; "author"] ->
        forall t r rest',
          rest = TextNode t r :: CloseTag (tagName tag) :: rest' ->
          loopChildren (S fuel) (canvasChild defs canvas inline) tt s
          = (updCanvas canvas (setProp (tagName tag) (PStr t)) ;;;
             loopChildren fuel (canvasChild defs canvas inline) tt)
              (withInput rest' s)).
Proof.
  intros fuel defs canvas inline s tag rest Hin.
  assert (Hc : checkOpen s = Ret tag s) by (unfold checkOpen; now rewrite Hin).
  assert (Hloop :
    loopChildren (S fuel) (canvasChild defs canvas inline) tt s
    = bind (canvasChild defs canvas inline tt)
           (loopChildren fuel (canvasChild defs canvas inline)) s).
  { cbn [loopChildren]. rewrite Hin. reflexivity. }
  rewrite Hloop. unfold canvasChild.
  rewrite bind_assoc, (bind_eq _ _ _ _ _ Hc).
  split; [|split; [|split]].
  - intros Hname. rewrite Hname. reflexivity.
  - intros Hn.
    assert (Hk : forall k, In k canvasChildNames -> String.eqb (tagName tag) k = false).
    { intros k Hk. apply String.eqb_neq. intros E. apply Hn. now rewrite E. }
    rewrite !Hk by (cbn; tauto). reflexivity.
  - intros Hname body n rest' -> Hb. rewrite Hname.
    cbn [String.eqb Ascii.eqb Bool.eqb].
    rewrite !bind_assoc. unfold bind at 1. unfold warn at 1. unfold modify at 1.
    rewrite (bind_eq _ _ _ _ _
               (skipTag_element (withWarnings (warnings s ++ [WBones]) s)
                  tag body n rest' Hin Hb)).
    reflexivity.
  - intros Hname t r rest' ->.
    assert (Hexp : expectName (tagName tag) s
                   = Ret tag (withInput (TextNode t r :: CloseTag (tagName tag) :: rest') s)).
    { unfold expectName, checkName, bind, checkOpen, next, modify.
      rewrite Hin, String.eqb_refl. cbn. rewrite Hin. reflexivity. }
    assert (Hbody :
      (expectName (tagName tag) ;;;
       let* t := nextText in
       updCanvas canvas (setProp (tagName tag) (PStr (text t))) ;;;
       expectClose (tagName tag)) s
      = (updCanvas canvas (setProp (tagName tag) (PStr t))) (withInput rest' s)).
    { rewrite (bind_eq _ _ _ _ _ Hexp).
      unfold bind, nextText, updCanvas, modify, expectClose. cbn.
      rewrite String.eqb_refl. reflexivity. }
    cbn in Hname.
    destruct Hname as [Hname | [Hname | [Hname | []]]]; rewrite <- Hname in *;
      cbn [String.eqb Ascii.eqb Bool.eqb orb];
      (unfold bind at 1; rewrite Hbody; reflexivity).
Qed.

Lemma canvasChild_other_children_witness :
  let s := initialState [OpenTag (mkTag "layer" [("type", "circle")]);
                         CloseTag "layer"; CloseTag "canvas"] in
  loopChildren 1 (canvasChild (Host.parseCanvasDefs 0) 0 false) tt s
  = Throw LayerNotImplemented.
Proof.
  intros s.
  apply (proj1 (canvasChild_other_children 0 (Host.parseCanvasDefs 0) 0 false s
                  (mkTag "layer" [("type", "circle")])
                  [CloseTag "layer"; CloseTag "canvas"] eq_refl)).
  reflexivity.
Defined.

(** ** The type of a value and the check of [transformation] *)

Lemma parseValue_switch_Return_type rec f c tag s v s' :
  parseValue_switch rec f c tag s = Ret (Return (Some v)) s' ->
  vtype v = tagName tag.
Proof.
  unfold parseValue_switch. intros H.
  repeat inv_step; try discriminate.
  reflexivity.
Qed.

(** The type of a value is the name of its element. *)
Lemma parseValue_vtype fuel canvas s tag rest v s' :
  input s = OpenTag tag :: rest ->
  parseValue fuel canvas s = Ret (Some v) s' ->
  vtype v = tagName tag.
Proof.
  intros Hin H.
  destruct fuel as [|fuel]; [discriminate H|].
  cbn [parseValue] in H.
  apply bind_Ret in H as (t & s0 & Hc & H).
  destruct (checkOpen_Ret _ _ _ _ _ Hin Hc) as [-> ->].
  apply bind_Ret in H as (comp & s1 & Hsw & H).
  destruct comp as [data | result].
  - repeat inv_step. reflexivity.
  - inversion H; subst result s1; clear H.
    apply parseValue_switch_Return_type in Hsw. exact Hsw.
Qed.

(** X25: the type of a value that [parseValue] returns is the name
    of the element it was read from; so [degrees], which parses like
    [angle], has the type [degrees]. *)
Theorem parseValue_type_is_tag_name :
  forall fuel canvas s tag rest v s',
    input s = OpenTag tag :: rest ->
    parseValue fuel canvas s = Ret (Some v) s' ->
    vtype v = tagName tag.
Proof.
  intros fuel canvas s tag rest v s'. apply parseValue_vtype.
Qed.

Lemma parseValue_type_is_tag_name_witness :
  vtype (mkValue "degrees" (DAngle (JS.Fin 90)) (Some false) (Some UNDEFINED))
  = "degrees".
Proof.
  apply (parseValue_type_is_tag_name 1 0
           (initialState [OpenTag (mkTag "degrees" [("value", "90")]);
                          CloseTag "degrees"])
           (mkTag "degrees" [("value", "90")]) [CloseTag "degrees"] _
           (initialState []) eq_refl).
  vm_compute. reflexivity.
Defined.



(** ** The entry point and the attributes of fixed arity *)

Lemma returns_parseTimeM stamp fps : returns (parseTimeM stamp fps).
Proof.
  intros s. destruct (parseTimeM_returns stamp fps s) as (t & ws & _ & H). eauto.
Qed.

Lemma returns_canvasFps o : returns (canvasFps o).
Proof. intros s. eexists; eexists; reflexivity. Qed.

Lemma whenAttr_not_small attrs k canvas :
  tooSmall (attrs !! k) = false ->
  returns (whenAttr attrs k (fun v =>
    let n := JS.parseInt v in
    if JS.ltOne n then throw CanvasTooSmall
    else updCanvas canvas (setProp k (PNum n)))).
Proof.
  intros H. unfold whenAttr, tooSmall in *.
  destruct (attrs !! k) as [v|]; [|apply returns_ret].
  destruct (JS.nonempty v); [|apply returns_ret].
  cbn in H. rewrite H. apply returns_updCanvas.
Qed.

Lemma whenAttr_arity attrs k arity (body : list JS.Num -> M unit) s :
  (forall values, returns (body values)) ->
  match badArity (attrs !! k) arity with
  | Some n =>
      whenAttr attrs k (fun v => let* values := splitArity k arity v in body values) s
      = Throw (BadArity k arity n)
  | None =>
      exists s',
        whenAttr attrs k (fun v => let* values := splitArity k arity v in body values) s
        = Ret tt s'
  end.
Proof.
  intros Hbody. unfold badArity, whenAttr.
  destruct (attrs !! k) as [v|]; [|eexists; reflexivity].
  destruct (JS.nonempty v); [|eexists; reflexivity].
  cbn [andb]. unfold splitArity.
  destruct (negb (length (JS.split " " v) =? arity)%nat); [reflexivity|].
  unfold bind at 1. cbn [ret].
  destruct (Hbody (map JS.parseFloat (JS.split " " v)) s) as ([] & s' & H). eauto.
Qed.

Section EntryFacts.

Variable Guid_xor : string -> option string -> string.
Variable Guid_fresh : nat -> string.
Variable childCanvas_undefined : option string -> M Ref.
Variable parseAnimated : option (Ref -> M Ref).
Variable parseStaticList : option (Ref -> M Ref).
Variable parseDynamicList : option (Ref -> M Ref).
Variable parseLinkableValueNode : option (Ref -> M (option Ref)).

Local Abbreviation parseCanvas' :=
  (parseCanvas Guid_xor Guid_fresh childCanvas_undefined
     parseAnimated parseStaticList parseDynamicList parseLinkableValueNode).
Local Abbreviation loadSif' :=
  (loadSif Guid_xor Guid_fresh childCanvas_undefined
     parseAnimated parseStaticList parseDynamicList parseLinkableValueNode).

(** X26: [loadSif] demands a [canvas] element first: on any other
    element, and on a document that does not begin with an element, the
    reader's assertion fails before anything is created. *)
Theorem loadSif_needs_canvas :
  forall fuel s,
    (forall tag rest, input s = OpenTag tag :: rest ->
       tagName tag <> "canvas" ->
       loadSif Guid_xor Guid_fresh childCanvas_undefined parseAnimated
         parseStaticList parseDynamicList parseLinkableValueNode (S fuel) s
       = Throw (ReaderError "canvas"))
    /\ ((forall tag rest, input s <> OpenTag tag :: rest) ->
        loadSif Guid_xor Guid_fresh childCanvas_undefined parseAnimated
          parseStaticList parseDynamicList parseLinkableValueNode (S fuel) s
        = Throw (ReaderError "opentag")).
Proof.
  intros fuel s. unfold loadSif. cbn [parseCanvas]. split.
  - intros tag rest Hin Hname. apply bind_Throw.
    unfold checkName, bind, checkOpen. rewrite Hin.
    apply String.eqb_neq in Hname. now rewrite Hname.
  - intros Hin. apply bind_Throw. apply bind_Throw.
    unfold checkOpen. destruct (input s) as [|[t|n|t r] rest]; try reflexivity.
    now destruct (Hin t rest).
Qed.

(** X27: the attributes of fixed arity are split at single spaces and
    checked in the order [view-box], [bgcolor], [focus], after the size
    of the canvas: the first of them, present and not empty, that does
    not have its four, four or two fields stops the header with an error
    that names it and the number of fields found. *)
Theorem canvasHeader_bad_arity :
  forall canvas inline attrs s,
    tooSmall (attrs !! "width") = false ->
    tooSmall (attrs !! "height") = false ->
    (forall n, badArity (attrs !! "view-box") 4 = Some n ->
       canvasHeader Guid_fresh canvas inline attrs s = Throw (BadArity "view-box" 4 n))
    /\ (forall n, badArity (attrs !! "view-box") 4 = None ->
          badArity (attrs !! "bgcolor") 4 = Some n ->
          canvasHeader Guid_fresh canvas inline attrs s = Throw (BadArity "bgcolor" 4 n))
    /\ (forall n, badArity (attrs !! "view-box") 4 = None ->
          badArity (attrs !! "bgcolor") 4 = None ->
          badArity (attrs !! "focus") 2 = Some n ->
          canvasHeader Guid_fresh canvas inline attrs s = Throw (BadArity "focus" 2 n)).
Proof.
  intros canvas inline attrs s Hw Hh.
  assert (Hstart : forall e,
    (forall s1,
       (whenAttr attrs "view-box" (fun v =>
          let* values := splitArity "view-box" 4 v in
          updCanvas canvas (setProp "tl" (PVector
            (Vector_create (values !! 0%nat) (values !! 1%nat)))) ;;;
          updCanvas canvas (setProp "br" (PVector
            (Vector_create (values !! 2%nat) (values !! 3%nat))))) ;;;
        whenAttr attrs "bgcolor" (fun v =>
          let* values := splitArity "bgcolor" 4 v in
          updCanvas canvas (setProp "bgcolor" (PColor
            (Color_create (values !! 0%nat) (values !! 1%nat)
                          (values !! 2%nat) (values !! 3%nat))))) ;;;
        whenAttr attrs "focus" (fun v =>
          let* values := splitArity "focus" 2 v in
          updCanvas canvas (setProp "focus" (PVector
            (Vector_create (values !! 0%nat) (values !! 1%nat)))))) s1 = Throw e) ->
    canvasHeader Guid_fresh canvas inline attrs s = Throw e).
  { intros e Htail. unfold canvasHeader.
    assert (Hg : exists g s1,
      match attrs !! "guid" with
      | Some g => if JS.nonempty g then ret g else Guid_generate Guid_fresh
      | None => Guid_generate Guid_fresh
      end s = Ret g s1).
    { destruct (attrs !! "guid") as [g|]; [destruct (JS.nonempty g)|];
        eexists; eexists; reflexivity. }
    destruct Hg as (g & s1 & H1). rewrite (bind_eq _ _ _ _ _ H1).
    run_unit ltac:(apply returns_updCanvas).
    run_unit ltac:(apply returns_Guid_set).
    run_unit ltac:(destruct inline; cbn [negb];
                   [apply returns_ret
                   | apply returns_whenAttr; intros; apply returns_updCanvas]).
    run_unit ltac:(apply returns_whenAttr; intros; apply returns_updCanvas).
    run_unit ltac:(apply (whenAttr_not_small attrs "width" canvas Hw)).
    run_unit ltac:(apply (whenAttr_not_small attrs "height" canvas Hh)).
    run_unit ltac:(apply returns_whenAttr; intros; apply returns_updCanvas).
    run_unit ltac:(apply returns_whenAttr; intros; apply returns_updCanvas).
    run_unit ltac:(apply returns_whenAttr; intros; apply returns_updCanvas).
    run_unit ltac:(
      destruct (if JS.truthyStr (attrs !! "begin-time") then attrs !! "begin-time"
                else attrs !! "start-time") as [v|];
      [destruct (JS.nonempty v)|];
      [apply returns_bind; [apply returns_canvasFps|]; intros;
       apply returns_bind; [apply returns_parseTimeM|]; intros;
       apply returns_updCanvas
      | apply returns_ret | apply returns_ret]).
    run_unit ltac:(apply returns_whenAttr; intros;
                   apply returns_bind; [apply returns_canvasFps|]; intros;
                   apply returns_bind; [apply returns_parseTimeM|]; intros;
                   apply returns_updCanvas).
    run_unit ltac:(apply returns_whenAttr; intros; apply returns_updCanvas).
    apply Htail. }
  pose proof (fun s1 =>
      whenAttr_arity attrs "view-box" 4
        (fun values =>
           updCanvas canvas (setProp "tl" (PVector
             (Vector_create (values !! 0%nat) (values !! 1%nat)))) ;;;
           updCanvas canvas (setProp "br" (PVector
             (Vector_create (values !! 2%nat) (values !! 3%nat))))) s1
        ltac:(intros; apply returns_bind;
              [apply returns_updCanvas | intros; apply returns_updCanvas])) as Hvb.
  pose proof (fun s1 =>
      whenAttr_arity attrs "bgcolor" 4
        (fun values =>
           updCanvas canvas (setProp "bgcolor" (PColor
             (Color_create (values !! 0%nat) (values !! 1%nat)
                           (values !! 2%nat) (values !! 3%nat))))) s1
        ltac:(intros; apply returns_updCanvas)) as Hbg.
  pose proof (fun s1 =>
      whenAttr_arity attrs "focus" 2
        (fun values =>
           updCanvas canvas (setProp "focus" (PVector
             (Vector_create (values !! 0%nat) (values !! 1%nat))))) s1
        ltac:(intros; apply returns_updCanvas)) as Hfo.
  split; [|split].
  - intros n Hn. apply Hstart. intros s1.
    apply bind_Throw. specialize (Hvb s1). rewrite Hn in Hvb. exact Hvb.
  - intros n Hn1 Hn. apply Hstart. intros s1.
    specialize (Hvb s1). rewrite Hn1 in Hvb. destruct Hvb as (s2 & Hvb).
    rewrite (bind_eq _ _ _ _ _ Hvb).
    apply bind_Throw. specialize (Hbg s2). rewrite Hn in Hbg. exact Hbg.
  - intros n Hn1 Hn2 Hn. apply Hstart. intros s1.
    specialize (Hvb s1). rewrite Hn1 in Hvb. destruct Hvb as (s2 & Hvb).
    rewrite (bind_eq _ _ _ _ _ Hvb).
    specialize (Hbg s2). rewrite Hn2 in Hbg. destruct Hbg as (s3 & Hbg).
    rewrite (bind_eq _ _ _ _ _ Hbg).
    specialize (Hfo s3). rewrite Hn in Hfo. exact Hfo.
Qed.

End EntryFacts.

Lemma loadSif_needs_canvas_witness :
  loadSif Host.xor Host.fresh Host.childCanvas_undefined None None None None 1
    (initialState [OpenTag (mkTag "defs" []); CloseTag "defs"])
  = Throw (ReaderError "canvas").
Proof.
  apply (proj1 (loadSif_needs_canvas Host.xor Host.fresh Host.childCanvas_undefined
                  None None None None 0
                  (initialState [OpenTag (mkTag "defs" []); CloseTag "defs"]))
           (mkTag "defs" []) [CloseTag "defs"] eq_refl).
  discriminate.
Defined.

Lemma canvasHeader_bad_arity_witness :
  canvasHeader Host.fresh 0 false
    (attributes (mkTag "canvas" [("width", "480"); ("view-box", "-4 2.25 4  -2.25")]))
    (Host.inRoot None [])
  = Throw (BadArity "view-box" 4 5).
Proof.
  apply (proj1 (canvasHeader_bad_arity Host.fresh 0 false
                  (attributes (mkTag "canvas" [("width", "480"); ("view-box", "-4 2.25 4  -2.25")]))
                  (Host.inRoot None [])
                  ltac:(vm_compute; reflexivity) ltac:(vm_compute; reflexivity))).
  vm_compute. reflexivity.
Defined.

(** ** A value node of a value element *)

Section NodeFacts.

Variable Guid_xor : string -> option string -> string.
Variable Guid_fresh : nat -> string.
Variable childCanvas_undefined : option string -> M Ref.
Variable parseAnimated : option (Ref -> M Ref).
Variable parseStaticList : option (Ref -> M Ref).
Variable parseDynamicList : option (Ref -> M Ref).
Variable parseLinkableValueNode : option (Ref -> M (option Ref)).

Local Abbreviation parseValueNode' :=
  (parseValueNode Guid_xor Guid_fresh childCanvas_undefined
     parseAnimated parseStaticList parseDynamicList parseLinkableValueNode).


End NodeFacts.


(** ** What an inline canvas may contain *)

Section InlineFacts.

Variable Guid_xor : string -> option string -> string.
Variable Guid_fresh : nat -> string.
Variable childCanvas_undefined : option string -> M Ref.
Variable parseAnimated : option (Ref -> M Ref).
Variable parseStaticList : option (Ref -> M Ref).
Variable parseDynamicList : option (Ref -> M Ref).
Variable parseLinkableValueNode : option (Ref -> M (option Ref)).



End InlineFacts.

